(** * steinbock.preprocessing.imc: a shallow embedding

    The module [steinbock/preprocessing/imc.py] turns raw imaging mass
    cytometry files into channel panels and image stacks.  This file embeds
    its functions as Rocq definitions, keeping the names of the source, and
    states the properties of the specification over them.

    Conventions.
    - Python exceptions are values of [exn]; a call that may raise returns
      [res A].
    - A Python [str] is a [string]; characters are bytes, so file names are
      taken to be ASCII.
    - The files on disk (what [MCDFile] and [TXTFile] of readimc return) are
      parameters of the sections that use them.
    - A pandas table is a [DataFrame]: the list of column labels and the list
      of rows, each row mapping a label to a cell. *)

From Stdlib Require Import PrimFloat Floats ZArith Lia Ascii String List Permutation Sorted.
From stdpp Require Import base option list strings pretty gmap sorting.

Local Open Scope string_scope.
Local Open Scope list_scope.

(** ** Exceptions and results *)

Inductive exn :=
| IOError            (* OSError and its subclasses: what [except IOError] catches *)
| TypeError
| KeyError
| ValueError
| IndexError
| re_error           (* re.error, raised by [re.compile] *)
| SteinbockIMCPreprocessingException (msg : string)
| OtherException.

Inductive res (A : Type) :=
| Ok (a : A)
| Raise (e : exn).
Arguments Ok {A} a.
Arguments Raise {A} e.

Lemma Ok_inj {A} (a b : A) : Ok a = Ok b -> a = b.
Proof. congruence. Qed.

Definition is_IOError (e : exn) : bool :=
  match e with IOError => true | _ => false end.

(** ** Paths

    A path argument is [Union[str, PathLike]].  The two kinds are kept apart:
    [str.join] accepts only the first. *)

Inductive pathlike :=
| AsStr (s : string)
| AsPath (s : string).

Definition chars (s : string) : list ascii := list_ascii_of_string s.
Definition text (l : list ascii) : string := string_of_list_ascii l.

Definition is_slash (c : ascii) : bool := Ascii.eqb c "/".
Definition is_dot (c : ascii) : bool := Ascii.eqb c ".".

(** Splitting at ["/"]: the components of a POSIX path, the current one
    accumulated in reverse. *)
Fixpoint split_slash (cur : list ascii) (cs : list ascii) : list (list ascii) :=
  match cs with
  | [] => [rev cur]
  | c :: cs' =>
      if is_slash c then rev cur :: split_slash [] cs'
      else split_slash (c :: cur) cs'
  end.

Definition is_real_part (p : list ascii) : bool :=
  match p with
  | [] => false
  | [c] => negb (is_dot c)
  | _ => true
  end.

(** [PurePath.parts] without the root: empty and ["."] components vanish. *)
Definition path_parts (s : string) : list (list ascii) :=
  List.filter is_real_part (split_slash [] (chars s)).

(** The root of a POSIX path: one slash, or two when the text starts with
    exactly two. *)
Definition path_root (cs : list ascii) : list ascii :=
  match cs with
  | c1 :: c2 :: c3 :: _ =>
      if is_slash c1
      then if is_slash c2 then if is_slash c3 then ["/"] else ["/"; "/"] else ["/"]
      else []
  | [c1; c2] =>
      if is_slash c1 then if is_slash c2 then ["/"; "/"] else ["/"] else []
  | [c1] => if is_slash c1 then ["/"] else []
  | [] => []
  end%char.

Fixpoint join_slash (parts : list (list ascii)) : list ascii :=
  match parts with
  | [] => []
  | [p] => p
  | p :: parts' => p ++ "/"%char :: join_slash parts'
  end.

(** [str(Path(s))]: the text [pathlib] keeps of a path, its root and its
    parts; repeated slashes, ["."] components and a trailing slash are gone,
    and the empty path is written ["."]. *)
Definition normalize (s : string) : string :=
  match (path_root (chars s) ++ join_slash (path_parts s))%list with
  | [] => "."
  | cs => text cs
  end.

(** [Path(p)]: the path object, identified with its text.  A [str] is
    normalised on the way; the text of a path object already is. *)
Definition Path (p : pathlike) : string :=
  match p with AsStr s | AsPath s => normalize s end.

(** [Path(p).name]: the final component. *)
Definition path_name (s : string) : string :=
  text (List.last (path_parts s) []).

(** Index of the last ["."] of a name ([str.rfind]). *)
Fixpoint rfind_dot (cs : list ascii) : option nat :=
  match cs with
  | [] => None
  | c :: cs' =>
      match rfind_dot cs' with
      | Some i => Some (S i)
      | None => if is_dot c then Some 0 else None
      end
  end.

(** [Path(p).stem]: the name without its last suffix; a leading or a trailing
    dot starts no suffix. *)
Definition path_stem (s : string) : string :=
  let name := chars (path_name s) in
  match rfind_dot name with
  | Some i =>
      if (0 <? i)%nat && (i <? List.length name - 1)%nat
      then text (firstn i name) else text name
  | None => text name
  end.

(** ** Regular expressions

    [_match_txt_file] compiles the pattern
    [rf"{stem}.*_0*{id}.txt"] and applies [Pattern.match], which accepts a
    name as soon as one of its prefixes matches.  The fragment of the [re]
    syntax modelled here has literal characters, the wildcard ["."] and the
    postfix repetitions ["*"], ["+"], ["?"] (a further ["?"] makes the
    repetition lazy, which does not change which names are accepted).  A
    pattern with any other special character is outside the fragment. *)

Inductive atom :=
| Lit (c : ascii)
| AnyChar.                    (* "." : any character but a newline *)

Inductive quant := One | Star | Plus | Opt.

Definition regex := list (atom * quant).

Inductive pstate := PStart | PAtom | PQuant | PLazy.

Definition is_other_special (c : ascii) : bool :=
  existsb (Ascii.eqb c)
    ["\"; "^"; "$"; "{"; "}"; "["; "]"; "("; ")"; "|"]%char.

Definition quant_of (c : ascii) : option quant :=
  if Ascii.eqb c "*" then Some Star
  else if Ascii.eqb c "+" then Some Plus
  else if Ascii.eqb c "?" then Some Opt
  else None.

(** The items are accumulated in reverse: the head of [acc] is the item a
    repetition applies to. *)
Fixpoint parse_regex (st : pstate) (acc : regex) (cs : list ascii) : option regex :=
  match cs with
  | [] => Some (rev acc)
  | c :: cs' =>
      match quant_of c with
      | Some q =>
          match st, acc with
          | PAtom, (a, _) :: acc' => parse_regex PQuant ((a, q) :: acc') cs'
          | PQuant, _ =>
              match q with
              | Opt => parse_regex PLazy acc cs'
              | _ => None
              end
          | _, _ => None
          end
      | None =>
          if is_other_special c then None
          else if is_dot c then parse_regex PAtom ((AnyChar, One) :: acc) cs'
          else parse_regex PAtom ((Lit c, One) :: acc) cs'
      end
  end.

(** [re.compile] on the fragment; a pattern outside the fragment is given
    up as an error, whether or not Python accepts it. *)
Definition re_compile (pattern : string) : res regex :=
  match parse_regex PStart [] (chars pattern) with
  | Some r => Ok r
  | None => Raise re_error
  end.

Definition atom_matches (a : atom) (c : ascii) : bool :=
  match a with
  | Lit d => Ascii.eqb c d
  | AnyChar => negb (Ascii.eqb c "010")
  end.

(** Does some prefix of [s] match [r]? *)
Fixpoint prefix_matches (r : regex) (s : list ascii) {struct r} : bool :=
  match r with
  | [] => true
  | (a, q) :: r' =>
      let once (k : list ascii -> bool) (s : list ascii) :=
        match s with
        | c :: s' => atom_matches a c && k s'
        | [] => false
        end in
      let many :=
        fix many (s : list ascii) : bool :=
          prefix_matches r' s ||
          match s with
          | c :: s' => atom_matches a c && many s'
          | [] => false
          end in
      match q with
      | One => once (prefix_matches r') s
      | Opt => prefix_matches r' s || once (prefix_matches r') s
      | Star => many s
      | Plus => once many s
      end
  end.

(** [pattern.match(name)], as a truth value. *)
Definition re_match (r : regex) (name : string) : bool :=
  prefix_matches r (chars name).

(** ** Acquisitions (readimc)

    [AcquisitionBase] gives the channel names and labels; [Acquisition] adds
    the identifier, the description and the geometry.  The region of interest
    is four points, of which the first and the third are read, or [None] for
    an acquisition recorded without them.  The width and the height are
    properties computed from the region, which readimc refuses to compute
    for a region that is not rectangular: they are kept as the outcome of
    reading them. *)

Class AcquisitionBase (A : Type) := {
  channel_names : A -> list string;
  channel_labels : A -> list string
}.

Definition point : Type := float * float.

Record Acquisition := {
  id : Z;
  description : option string;
  acq_channel_names : list string;
  acq_channel_labels : list string;
  roi_points_um : option (point * point * point * point);
  width_um : res float;
  height_um : res float
}.

#[export] Instance Acquisition_base : AcquisitionBase Acquisition :=
  {| channel_names := acq_channel_names; channel_labels := acq_channel_labels |}.

(** An open [TXTFile]: a single acquisition without geometry. *)
Record TXTFile := {
  txt_channel_names : list string;
  txt_channel_labels : list string
}.

#[export] Instance TXTFile_base : AcquisitionBase TXTFile :=
  {| channel_names := txt_channel_names; channel_labels := txt_channel_labels |}.

Record Slide := { acquisitions : list Acquisition }.

(** ** Logging *)

Inductive message :=
| AmbiguousMatching (mcd_file : pathlike) (txt_files : list string)
| ChannelNotFoundInAcquisition (channel : string) (acquisition_id : Z)
| ErrorReadingAcquisition (acquisition_id : Z) (mcd_file : pathlike)
| RestoringFromFile (txt_file : pathlike)
| ChannelNotFoundInFile (channel : string) (txt_file : pathlike)
| ErrorReadingFile (file : pathlike).

Inductive level := WARNING | ERROR | EXCEPTION.

(** ** [_match_txt_file] *)

(** [", ".join(files)] raises [TypeError] on an item that is not a [str]. *)
Fixpoint join_strs (files : list pathlike) : res (list string) :=
  match files with
  | [] => Ok []
  | AsStr s :: files' =>
      match join_strs files' with
      | Ok l => Ok (s :: l)
      | Raise e => Raise e
      end
  | AsPath _ :: _ => Raise TypeError
  end.

Definition txt_file_name_pattern (mcd_file : pathlike) (acquisition : Acquisition) : string :=
  path_stem (Path mcd_file) +:+ ".*_0*" +:+ pretty (id acquisition) +:+ ".txt".

Section Match.
(** The regular expression engine: [re.compile] and [Pattern.match]. *)
Context {pattern : Type}.
Variable compile : string -> res pattern.
Variable matches : pattern -> string -> bool.

(** The result and the warning logged on the way, if any. *)
Definition _match_txt_file (mcd_file : pathlike) (acquisition : Acquisition)
    (txt_files : list pathlike) : res (option pathlike * list (level * message)) :=
  match compile (txt_file_name_pattern mcd_file acquisition) with
  | Raise e => Raise e
  | Ok p =>
      let filtered_txt_files :=
        List.filter (fun txt_file => matches p (path_name (Path txt_file))) txt_files in
      match filtered_txt_files with
      | [txt_file] => Ok (Some txt_file, [])
      | [] => Ok (None, [])
      | _ =>
          match join_strs filtered_txt_files with
          | Ok names => Ok (None, [(WARNING, AmbiguousMatching mcd_file names)])
          | Raise e => Raise e
          end
      end
  end.
End Match.

(** ** [_get_channel_indices] *)

(** [list.index]: position of the first occurrence. *)
Fixpoint index_of (x : string) (l : list string) : option nat :=
  match l with
  | [] => None
  | y :: l' => if String.eqb x y then Some 0 else option_map S (index_of x l')
  end.

(** The indices of the requested channels, or the first requested name the
    acquisition lacks. *)
Fixpoint _get_channel_indices {A} `{AcquisitionBase A} (acquisition : A)
    (names : list string) : list nat + string :=
  match names with
  | [] => inl []
  | channel_name :: names' =>
      match index_of channel_name (channel_names acquisition) with
      | None => inr channel_name
      | Some i =>
          match _get_channel_indices acquisition names' with
          | inl channel_indices => inl (i :: channel_indices)
          | inr missing => inr missing
          end
      end
  end.

Lemma index_of_None (x : string) (l : list string) : index_of x l = None <-> ~ In x l.
Proof.
  induction l as [|y l IH]; simpl; [tauto|].
  destruct (String.eqb x y) eqn:E.
  - apply String.eqb_eq in E. subst y. split; [discriminate | tauto].
  - apply String.eqb_neq in E.
    destruct (index_of x l); simpl; split; try discriminate; intuition congruence.
Qed.




(** *** The indices, read back *)

(** [n] stands at position [i] of [l] and nowhere before it. *)
Definition first_at (l : list string) (i : nat) (n : string) : Prop :=
  nth_error l i = Some n /\ forall j, (j < i)%nat -> nth_error l j <> Some n.

Lemma index_of_first_at (x : string) (l : list string) :
  forall i, index_of x l = Some i <-> first_at l i x.
Proof.
  unfold first_at. induction l as [|y l IH]; intros i; simpl.
  - split; [discriminate|]. intros [H _]. destruct i; discriminate H.
  - destruct (String.eqb x y) eqn:E.
    + apply String.eqb_eq in E. subst y. split.
      * intros [= <-]. split; [reflexivity|]. intros j Hj. lia.
      * intros [_ Hfirst]. destruct i as [|i]; [reflexivity|].
        exfalso. apply (Hfirst 0%nat); [lia | reflexivity].
    + apply String.eqb_neq in E. split.
      * destruct (index_of x l) as [i'|] eqn:Hi; simpl; [|discriminate].
        intros [= <-]. destruct (proj1 (IH i') eq_refl) as [Hnth Hfirst].
        split; [exact Hnth|]. intros [|j] Hj; simpl; [congruence|].
        apply Hfirst. lia.
      * intros [Hnth Hfirst]. destruct i as [|i]; simpl in Hnth; [congruence|].
        assert (Hi : index_of x l = Some i).
        { apply (proj2 (IH i)). split; [exact Hnth|]. intros j Hj. apply (Hfirst (S j)). lia. }
        rewrite Hi. reflexivity.
Qed.

(** X1: [_get_channel_indices] returns a list of indices exactly when every
    requested name is a channel of the acquisition; the list then has one
    index per requested name, in the order of the request, each the first
    position of its name among the channels. *)
Theorem _get_channel_indices_indices {A} `{AcquisitionBase A} (acquisition : A)
    (names : list string) (ind : list nat) :
  _get_channel_indices acquisition names = inl ind <->
  Forall2 (first_at (channel_names acquisition)) ind names.
Proof.
  revert ind. induction names as [|n names IH]; intros ind; simpl.
  - split; [intros [= <-]; constructor | intros Hf; inversion Hf; reflexivity].
  - destruct (index_of n (channel_names acquisition)) as [i|] eqn:Hi.
    + apply index_of_first_at in Hi.
      destruct (_get_channel_indices acquisition names) as [ind'|missing] eqn:Hrest.
      * split.
        -- intros [= <-]. constructor; [exact Hi | apply IH; reflexivity].
        -- intros Hf. inversion Hf as [|i' n' ind'' names' Hfa Hf']; subst.
           apply IH in Hf'. injection Hf' as <-.
           f_equal. f_equal.
           apply index_of_first_at in Hi, Hfa. congruence.
      * split; [discriminate|].
        intros Hf. inversion Hf as [|i' n' ind'' names' Hfa Hf']; subst.
        apply IH in Hf'. discriminate Hf'.
    + split; [discriminate|].
      intros Hf. inversion Hf as [|i' n' ind'' names' Hfa Hf']; subst.
      apply index_of_first_at in Hfa. congruence.
Qed.

(** X2: [_get_channel_indices] returns a name exactly when that name is the
    first requested channel the acquisition lacks: the names requested
    before it are all channels of the acquisition. *)
Theorem _get_channel_indices_first_missing {A} `{AcquisitionBase A} (acquisition : A)
    (names : list string) (missing : string) :
  _get_channel_indices acquisition names = inr missing <->
  exists before after,
    names = before ++ missing :: after /\
    ~ In missing (channel_names acquisition) /\
    Forall (fun n => In n (channel_names acquisition)) before.
Proof.
  split.
  - revert missing. induction names as [|n names IH]; intros missing; simpl; [discriminate|].
    destruct (index_of n (channel_names acquisition)) as [i|] eqn:Hi.
    + destruct (_get_channel_indices acquisition names) as [ind'|m] eqn:Hrest;
        [discriminate|].
      intros [= ->]. destruct (IH missing eq_refl) as (before & after & -> & Hnot & Hall).
      exists (n :: before), after. split; [reflexivity|]. split; [exact Hnot|].
      constructor; [|exact Hall].
      destruct (in_dec string_dec n (channel_names acquisition)) as [Hin|Hnin]; [exact Hin|].
      apply index_of_None in Hnin. congruence.
    + intros [= ->]. exists [], names. split; [reflexivity|].
      split; [apply index_of_None; exact Hi | constructor].
  - intros (before & after & -> & Hnot & Hall).
    induction Hall as [|n before Hn Hall IH]; simpl.
    + apply index_of_None in Hnot. rewrite Hnot. reflexivity.
    + destruct (index_of n (channel_names acquisition)) as [i|] eqn:Hi.
      * rewrite IH. reflexivity.
      * apply index_of_None in Hi. contradiction.
Qed.

Definition two_channels : TXTFile :=
  {| txt_channel_names := ["Ir191"; "Ir193"]; txt_channel_labels := ["DNA1"; "DNA2"] |}.

Lemma _get_channel_indices_indices_witness :
  Forall2 (first_at (channel_names two_channels)) [1; 0]%nat ["Ir193"; "Ir191"].
Proof.
  apply (proj1 (_get_channel_indices_indices two_channels ["Ir193"; "Ir191"] [1; 0]%nat)).
  reflexivity.
Defined.

Lemma _get_channel_indices_first_missing_witness :
  exists before after,
    ["Ir193"; "Y89"; "Ir191"; "In115"] = before ++ "Y89" :: after /\
    ~ In "Y89" (channel_names two_channels) /\
    Forall (fun n => In n (channel_names two_channels)) before.
Proof.
  apply (proj1 (_get_channel_indices_first_missing two_channels
                  ["Ir193"; "Y89"; "Ir191"; "In115"] "Y89")).
  reflexivity.
Defined.

(** ** [try_preprocess_images_from_disk]

    The generator is run to its end; what it does is recorded as a list of
    events, the yielded tuples among the log records. *)

Record MCDFile := { slides : list Slide }.

(** [p == q]: two strings are compared as texts, two path objects by what
    [pathlib] keeps of them; a string and a path object are never equal. *)
Definition pathlike_eqb (p q : pathlike) : bool :=
  match p, q with
  | AsStr s, AsStr t => String.eqb s t
  | AsPath s, AsPath t => String.eqb (normalize s) (normalize t)
  | _, _ => false
  end.

(** [list.remove]: the first equal item goes. *)
Fixpoint list_remove (x : pathlike) (l : list pathlike) : list pathlike :=
  match l with
  | [] => []
  | y :: l' => if pathlike_eqb x y then l' else y :: list_remove x l'
  end.

(** Stable insertion by descending key: [x] comes from an earlier position
    than every item of [l], so it stays before the items of equal stem. *)
Fixpoint insert_desc (x : pathlike) (l : list pathlike) : list pathlike :=
  match l with
  | [] => [x]
  | y :: l' =>
      if String.ltb (path_stem (Path x)) (path_stem (Path y))
      then y :: insert_desc x l'
      else x :: y :: l'
  end.

(** [sorted(mcd_files, key=lambda f: Path(f).stem, reverse=True)]. *)
Definition sorted_by_stem_reverse (mcd_files : list pathlike) : list pathlike :=
  fold_right insert_desc [] mcd_files.

(** [a] comes no later than [b] in descending order of the stems. *)
Definition stem_ge (a b : pathlike) : Prop :=
  String.ltb (path_stem (Path a)) (path_stem (Path b)) = false.

Lemma ascii_compare_Gt_trans (a b c : ascii) :
  Ascii.compare a b = Gt -> Ascii.compare b c = Gt -> Ascii.compare a c = Gt.
Proof.
  unfold Ascii.compare. rewrite !N.compare_gt_iff. lia.
Qed.

Lemma string_compare_not_Lt_trans (a b c : string) :
  String.compare a b <> Lt -> String.compare b c <> Lt -> String.compare a c <> Lt.
Proof.
  revert b c. induction a as [|x a IH]; intros [|y b] [|z c]; simpl; try congruence.
  destruct (Ascii.compare x y) eqn:E1; try congruence.
  - apply Ascii.compare_eq_iff in E1. subst y.
    destruct (Ascii.compare x z); try congruence. apply IH.
  - destruct (Ascii.compare y z) eqn:E2; try congruence.
    + apply Ascii.compare_eq_iff in E2. subst z. rewrite E1. congruence.
    + rewrite (ascii_compare_Gt_trans _ _ _ E1 E2). congruence.
Qed.

Lemma string_ltb_false (a b : string) : String.ltb a b = false <-> String.compare a b <> Lt.
Proof. unfold String.ltb. destruct (String.compare a b); split; congruence. Qed.

Lemma string_ltb_asym (a b : string) : String.ltb a b = true -> String.ltb b a = false.
Proof.
  unfold String.ltb. rewrite (String.compare_antisym a b).
  destruct (String.compare b a); simpl; congruence.
Qed.

Lemma stem_ge_trans (a b c : pathlike) : stem_ge a b -> stem_ge b c -> stem_ge a c.
Proof.
  unfold stem_ge. rewrite !string_ltb_false. apply string_compare_not_Lt_trans.
Qed.

Lemma insert_desc_Permutation (x : pathlike) (l : list pathlike) :
  Permutation (insert_desc x l) (x :: l).
Proof.
  induction l as [|y l IH]; simpl; [reflexivity|].
  destruct (String.ltb _ _); [|reflexivity].
  rewrite IH. apply perm_swap.
Qed.

Lemma sorted_by_stem_reverse_Permutation (mcd_files : list pathlike) :
  Permutation (sorted_by_stem_reverse mcd_files) mcd_files.
Proof.
  induction mcd_files as [|x l IH]; simpl; [reflexivity|].
  rewrite insert_desc_Permutation. constructor. exact IH.
Qed.

Lemma insert_desc_Sorted (x : pathlike) (l : list pathlike) :
  Sorted stem_ge l -> Sorted stem_ge (insert_desc x l).
Proof.
  induction 1 as [|y l Hs IH Hhd]; simpl; [repeat constructor|].
  destruct (String.ltb (path_stem (Path x)) (path_stem (Path y))) eqn:E.
  - constructor; [exact IH|].
    destruct Hhd as [|z l Hyz]; simpl.
    + constructor. apply string_ltb_asym. exact E.
    + destruct (String.ltb (path_stem (Path x)) (path_stem (Path z)));
        constructor; [exact Hyz | apply string_ltb_asym; exact E].
  - constructor; [constructor; assumption | constructor; exact E].
Qed.

(** The processing order is a rearrangement of the given files in which the
    stems never increase. *)
Lemma sorted_by_stem_reverse_sorted (mcd_files : list pathlike) :
  StronglySorted stem_ge (sorted_by_stem_reverse mcd_files).
Proof.
  apply Sorted_StronglySorted; [exact stem_ge_trans|].
  induction mcd_files as [|x l IH]; simpl; [constructor|].
  apply insert_desc_Sorted. exact IH.
Qed.

(** Files of equal stem keep the order of the input (the sort is stable). *)
Lemma insert_desc_filter (k : string) (x : pathlike) (l : list pathlike) :
  Sorted stem_ge l ->
  List.filter (fun f => String.eqb (path_stem (Path f)) k) (insert_desc x l) =
  List.filter (fun f => String.eqb (path_stem (Path f)) k) (x :: l).
Proof.
  intros Hs. apply Sorted_StronglySorted in Hs; [|exact stem_ge_trans].
  induction Hs as [|y l Hs IH Hall]; [reflexivity|].
  cbn [insert_desc].
  destruct (String.ltb (path_stem (Path x)) (path_stem (Path y))) eqn:E; [|reflexivity].
  cbn [List.filter] in *. rewrite IH.
  destruct (String.eqb (path_stem (Path x)) k) eqn:Ex; [|reflexivity].
  destruct (String.eqb (path_stem (Path y)) k) eqn:Ey; [|reflexivity].
  apply String.eqb_eq in Ex, Ey. rewrite Ex, Ey in E.
  unfold String.ltb in E.
  pose proof (String.compare_antisym k k) as Hk.
  destruct (String.compare k k); simpl in Hk; congruence.
Qed.

Lemma sorted_by_stem_reverse_stable (k : string) (mcd_files : list pathlike) :
  List.filter (fun f => String.eqb (path_stem (Path f)) k) (sorted_by_stem_reverse mcd_files) =
  List.filter (fun f => String.eqb (path_stem (Path f)) k) mcd_files.
Proof.
  induction mcd_files as [|x l IH]; [reflexivity|].
  cbn [sorted_by_stem_reverse fold_right].
  rewrite insert_desc_filter.
  - cbn [List.filter]. fold (sorted_by_stem_reverse l). rewrite IH. reflexivity.
  - apply StronglySorted_Sorted, sorted_by_stem_reverse_sorted.
Qed.

(** *** Which file comes first *)

Lemma string_ltb_irrefl (a : string) : String.ltb a a = false.
Proof.
  destruct (String.ltb a a) eqn:E; [|reflexivity].
  pose proof (string_ltb_asym _ _ E). congruence.
Qed.

Lemma string_ltb_total (a b : string) :
  String.ltb a b = false -> String.ltb b a = false -> a = b.
Proof.
  unfold String.ltb. intros Hab Hba. apply String.compare_eq_iff.
  rewrite (String.compare_antisym a b) in Hab.
  rewrite (String.compare_antisym a b).
  destruct (String.compare b a); simpl in *; congruence.
Qed.

(** A string comes strictly before each of its proper extensions. *)
Lemma string_ltb_proper_prefix (s x : string) : x <> "" -> String.ltb s (s +:+ x) = true.
Proof.
  intros Hx. unfold String.ltb. induction s as [|c s IH]; simpl.
  - destruct x; [congruence | reflexivity].
  - assert (Hc : Ascii.compare c c = Eq).
    { unfold Ascii.compare. apply N.compare_refl. }
    rewrite Hc. exact IH.
Qed.

Lemma StronglySorted_later {A} (R : A -> A -> Prop) (l1 l2 : list A) (x y : A) :
  StronglySorted R (l1 ++ x :: l2) -> In y l2 -> R x y.
Proof.
  induction l1 as [|z l1 IH]; simpl; intros Hs Hy.
  - inversion Hs as [|? ? _ Hall]; subst.
    rewrite Forall_forall in Hall. apply Hall, list_elem_of_In, Hy.
  - inversion Hs; subst. apply IH; assumption.
Qed.

(** X3: [sorted(..., reverse=True)] puts a file of strictly greater stem
    before every file of smaller stem: the MCD file [a] is gone through
    before the MCD file [b]. *)
Theorem greater_stem_is_processed_first (mcd_files : list pathlike) (a b : pathlike) :
  In a mcd_files -> In b mcd_files ->
  String.ltb (path_stem (Path b)) (path_stem (Path a)) = true ->
  exists l1 l2 l3, sorted_by_stem_reverse mcd_files = l1 ++ a :: l2 ++ b :: l3.
Proof.
  intros Ha Hb Hlt.
  pose proof (sorted_by_stem_reverse_sorted mcd_files) as Hs.
  pose proof (sorted_by_stem_reverse_Permutation mcd_files) as Hp.
  assert (Hb' : In b (sorted_by_stem_reverse mcd_files)).
  { apply (Permutation_in _ (Permutation_sym Hp)), Hb. }
  assert (Ha' : In a (sorted_by_stem_reverse mcd_files)).
  { apply (Permutation_in _ (Permutation_sym Hp)), Ha. }
  destruct (in_split _ _ Hb') as (front & l3 & Hsplit).
  rewrite Hsplit in Hs, Ha'. apply in_app_or in Ha'. destruct Ha' as [Hfront|[Heq|Hback]].
  - destruct (in_split _ _ Hfront) as (l1 & l2 & ->).
    exists l1, l2, l3. rewrite Hsplit, <- app_assoc. reflexivity.
  - subst a. rewrite string_ltb_irrefl in Hlt. discriminate Hlt.
  - pose proof (StronglySorted_later _ _ _ _ _ Hs Hback) as Hge.
    unfold stem_ge in Hge. congruence.
Qed.

Lemma greater_stem_is_processed_first_witness :
  In (AsStr "raw/ab.mcd") [AsStr "raw/a.mcd"; AsStr "raw/ab.mcd"] /\
  In (AsStr "raw/a.mcd") [AsStr "raw/a.mcd"; AsStr "raw/ab.mcd"] /\
  exists l1 l2 l3,
    sorted_by_stem_reverse [AsStr "raw/a.mcd"; AsStr "raw/ab.mcd"] =
    l1 ++ AsStr "raw/ab.mcd" :: l2 ++ AsStr "raw/a.mcd" :: l3.
Proof.
  split; [right; left; reflexivity|]. split; [left; reflexivity|].
  apply greater_stem_is_processed_first;
    [right; left; reflexivity | left; reflexivity | reflexivity].
Defined.

Lemma NoDup_map_In_inj {A B} (f : A -> B) (l : list A) (a b : A) :
  List.NoDup (map f l) -> In a l -> In b l -> f a = f b -> a = b.
Proof.
  induction l as [|x l IH]; simpl; [contradiction|].
  intros Hnd [->|Ha] [->|Hb] Heq; inversion Hnd as [|? ? Hnot Hnd']; subst.
  - reflexivity.
  - exfalso. apply Hnot. rewrite Heq. apply in_map, Hb.
  - exfalso. apply Hnot. rewrite <- Heq. apply in_map, Ha.
  - apply IH; assumption.
Qed.

(** X4: when no two MCD files share a stem, the order in which they are
    gone through does not depend on the order in which they are given. *)
Theorem processing_order_independent_of_input_order (l1 l2 : list pathlike) :
  Permutation l1 l2 ->
  List.NoDup (map (fun f => path_stem (Path f)) l1) ->
  sorted_by_stem_reverse l1 = sorted_by_stem_reverse l2.
Proof.
  intros Hp Hnd.
  apply (StronglySorted_unique_strong stem_ge).
  - intros x1 x2 Hx1 Hx2 H12 H21.
    apply list_elem_of_In in Hx1, Hx2.
    apply (Permutation_in _ (sorted_by_stem_reverse_Permutation l1)) in Hx1.
    apply (Permutation_in _ (sorted_by_stem_reverse_Permutation l2)) in Hx2.
    apply (Permutation_in _ (Permutation_sym Hp)) in Hx2.
    apply (NoDup_map_In_inj (fun f => path_stem (Path f)) l1); try assumption.
    apply string_ltb_total; assumption.
  - apply sorted_by_stem_reverse_sorted.
  - apply sorted_by_stem_reverse_sorted.
  - rewrite (sorted_by_stem_reverse_Permutation l1), (sorted_by_stem_reverse_Permutation l2).
    exact Hp.
Qed.

Lemma processing_order_independent_of_input_order_witness :
  sorted_by_stem_reverse [AsStr "raw/a.mcd"; AsPath "raw/c.mcd"; AsStr "b.mcd"] =
  sorted_by_stem_reverse [AsStr "b.mcd"; AsStr "raw/a.mcd"; AsPath "raw/c.mcd"].
Proof.
  apply processing_order_independent_of_input_order.
  - apply Permutation_sym, (Permutation_cons_app [_; _] []). reflexivity.
  - repeat constructor; simpl; intuition discriminate.
Defined.

(** Control after a statement of a [try] body: go on, or an exception is on
    its way to the enclosing handler. *)
Inductive flow :=
| Next
| Propagate (e : exn).

Section Generator.
Context {image pattern : Type}.

(** The regular expression engine. *)
Variable compile : string -> res pattern.
Variable matches : pattern -> string -> bool.

(** The files on disk, as readimc reads them. *)
Variable MCDFile_open : string -> res MCDFile.
Variable mcd_read_acquisition : string -> Acquisition -> res image.
Variable TXTFile_open : string -> res TXTFile.
Variable txt_read_acquisition : string -> res image.

(** [img[channel_ind, :, :]] and [preprocess_image]. *)
Variable index_channels : image -> list nat -> image.
Variable preprocess_image : image -> option float -> image.

(** The yielded tuple
    [(Path(file), acquisition, img, Path(matched_txt_file), recovered)]. *)
Record preprocessed := {
  source_file : string;
  source_acquisition : option Acquisition;
  img : image;
  recovery_file : option string;
  recovered : bool
}.

Inductive event :=
| Yield (y : preprocessed)
| Log (l : level) (m : message).

Definition yields (evs : list event) : list preprocessed :=
  omap (fun e => match e with Yield y => Some y | Log _ _ => None end) evs.

Variable channel_names_arg : option (list string).
Variable hpf : option float.

(** [channel_ind]: [None] without requested channels, else the result of
    [_get_channel_indices]. *)
Definition channel_ind_of {A} `{AcquisitionBase A} (acquisition : A)
    : option (list nat + string) :=
  option_map (_get_channel_indices acquisition) channel_names_arg.

Definition select_and_preprocess (i : image) (channel_ind : option (list nat)) : image :=
  preprocess_image
    (match channel_ind with Some ind => index_channels i ind | None => i end) hpf.

(** The fallback of one acquisition: read the matched text export. *)
Definition recover_from_txt (mcd_file : pathlike) (acquisition : Acquisition)
    (matched_txt_file : pathlike) : list event * flow :=
  let on_error (e2 : exn) : list event * flow :=
    if is_IOError e2
    then ([Log ERROR (ErrorReadingFile matched_txt_file)], Next)
    else ([], Propagate e2) in
  match TXTFile_open (Path matched_txt_file) with
  | Raise e2 => on_error e2
  | Ok f_txt =>
      match txt_read_acquisition (Path matched_txt_file) with
      | Raise e2 => on_error e2
      | Ok i =>
          match channel_ind_of f_txt with
          | Some (inr missing) =>
              ([Log WARNING (ChannelNotFoundInFile missing matched_txt_file)], Next)
          | Some (inl ind) =>
              ([Yield {| source_file := Path mcd_file;
                         source_acquisition := Some acquisition;
                         img := select_and_preprocess i (Some ind);
                         recovery_file := Some (Path matched_txt_file);
                         recovered := true |}], Next)
          | None =>
              ([Yield {| source_file := Path mcd_file;
                         source_acquisition := Some acquisition;
                         img := select_and_preprocess i None;
                         recovery_file := Some (Path matched_txt_file);
                         recovered := true |}], Next)
          end
      end
  end.

(** The [try] around [f_mcd.read_acquisition]: the image of the binary read,
    or, on an [IOError], the image of the matched text export. *)
Definition read_or_recover (mcd_file : pathlike) (acquisition : Acquisition)
    (matched_txt_file : option pathlike) (channel_ind : option (list nat))
    : list event * flow :=
  match mcd_read_acquisition (Path mcd_file) acquisition with
  | Ok i =>
      ([Yield {| source_file := Path mcd_file;
                 source_acquisition := Some acquisition;
                 img := select_and_preprocess i channel_ind;
                 recovery_file := option_map Path matched_txt_file;
                 recovered := false |}], Next)
  | Raise e =>
      if is_IOError e then
        match matched_txt_file with
        | Some t =>
            let '(evs, fl) := recover_from_txt mcd_file acquisition t in
            (Log WARNING (ErrorReadingAcquisition (id acquisition) mcd_file)
               :: Log WARNING (RestoringFromFile t) :: evs, fl)
        | None =>
            ([Log WARNING (ErrorReadingAcquisition (id acquisition) mcd_file)], Next)
        end
      else ([], Propagate e)
  end.

Definition logged_events (logged : list (level * message)) : list event :=
  map (fun lm => Log (fst lm) (snd lm)) logged.

(** The body of the loop over the acquisitions of an open MCD file. *)
Definition process_acquisition (mcd_file : pathlike) (acquisition : Acquisition)
    (unmatched_txt_files : list pathlike) : list event * list pathlike * flow :=
  match _match_txt_file compile matches mcd_file acquisition unmatched_txt_files with
  | Raise e => ([], unmatched_txt_files, Propagate e)
  | Ok (matched_txt_file, logged) =>
      let unmatched :=
        match matched_txt_file with
        | Some t => list_remove t unmatched_txt_files
        | None => unmatched_txt_files
        end in
      match channel_ind_of acquisition with
      | Some (inr missing) =>
          (logged_events logged ++
           [Log WARNING (ChannelNotFoundInAcquisition missing (id acquisition))],
           unmatched, Next)
      | Some (inl ind) =>
          let '(evs, fl) :=
            read_or_recover mcd_file acquisition matched_txt_file (Some ind) in
          (logged_events logged ++ evs, unmatched, fl)
      | None =>
          let '(evs, fl) := read_or_recover mcd_file acquisition matched_txt_file None in
          (logged_events logged ++ evs, unmatched, fl)
      end
  end.

(** [for acquisition in slide.acquisitions]: an exception leaves the loop. *)
Fixpoint process_acquisitions (mcd_file : pathlike) (acqs : list Acquisition)
    (unmatched_txt_files : list pathlike) : list event * list pathlike * flow :=
  match acqs with
  | [] => ([], unmatched_txt_files, Next)
  | acquisition :: acqs' =>
      match process_acquisition mcd_file acquisition unmatched_txt_files with
      | (evs, unmatched, Propagate e) => (evs, unmatched, Propagate e)
      | (evs, unmatched, Next) =>
          let '(evs', unmatched', fl) := process_acquisitions mcd_file acqs' unmatched in
          (evs ++ evs', unmatched', fl)
      end
  end.

(** [for slide in f_mcd.slides]. *)
Fixpoint process_slides (mcd_file : pathlike) (sl : list Slide)
    (unmatched_txt_files : list pathlike) : list event * list pathlike * flow :=
  match sl with
  | [] => ([], unmatched_txt_files, Next)
  | slide :: sl' =>
      match process_acquisitions mcd_file (acquisitions slide) unmatched_txt_files with
      | (evs, unmatched, Propagate e) => (evs, unmatched, Propagate e)
      | (evs, unmatched, Next) =>
          let '(evs', unmatched', fl) := process_slides mcd_file sl' unmatched in
          (evs ++ evs', unmatched', fl)
      end
  end.

(** One MCD file: the [try] with its bare [except]. *)
Definition process_mcd_file (mcd_file : pathlike) (unmatched_txt_files : list pathlike)
    : list event * list pathlike :=
  match MCDFile_open (Path mcd_file) with
  | Raise _ => ([Log EXCEPTION (ErrorReadingFile mcd_file)], unmatched_txt_files)
  | Ok f_mcd =>
      match process_slides mcd_file (slides f_mcd) unmatched_txt_files with
      | (evs, unmatched, Next) => (evs, unmatched)
      | (evs, unmatched, Propagate _) =>
          (evs ++ [Log EXCEPTION (ErrorReadingFile mcd_file)], unmatched)
      end
  end.

Fixpoint process_mcd_files (mcd_files : list pathlike) (unmatched_txt_files : list pathlike)
    : list event * list pathlike :=
  match mcd_files with
  | [] => ([], unmatched_txt_files)
  | mcd_file :: mcd_files' =>
      let '(evs, unmatched) := process_mcd_file mcd_file unmatched_txt_files in
      let '(evs', unmatched') := process_mcd_files mcd_files' unmatched in
      (evs ++ evs', unmatched')
  end.

(** The body of the final [while] loop, for the popped [txt_file]. *)
Definition process_txt_file (txt_file : pathlike) : list event :=
  match TXTFile_open (Path txt_file) with
  | Raise _ => [Log EXCEPTION (ErrorReadingFile txt_file)]
  | Ok f =>
      let read (channel_ind : option (list nat)) :=
        match txt_read_acquisition (Path txt_file) with
        | Raise _ => [Log EXCEPTION (ErrorReadingFile txt_file)]
        | Ok i =>
            [Yield {| source_file := Path txt_file;
                      source_acquisition := None;
                      img := select_and_preprocess i channel_ind;
                      recovery_file := None;
                      recovered := false |}]
        end in
      match channel_ind_of f with
      | Some (inr missing) => [Log WARNING (ChannelNotFoundInFile missing txt_file)]
      | Some (inl ind) => read (Some ind)
      | None => read None
      end
  end.

(** [while len(unmatched_txt_files) > 0: txt_file = unmatched_txt_files.pop(0)]. *)
Fixpoint process_txt_files (unmatched_txt_files : list pathlike) : list event :=
  match unmatched_txt_files with
  | [] => []
  | txt_file :: rest => process_txt_file txt_file ++ process_txt_files rest
  end.

Definition try_preprocess_images_from_disk (mcd_files txt_files : list pathlike)
    : list event :=
  let '(evs, unmatched_txt_files) :=
    process_mcd_files (sorted_by_stem_reverse mcd_files) txt_files in
  evs ++ process_txt_files unmatched_txt_files.

(** *** What a run yields *)

(** The text file a yielded tuple stands for: its source when it is a
    standalone text file, the matched file of its acquisition otherwise. *)
Definition txt_path_of (y : preprocessed) : option string :=
  match source_acquisition y with
  | None => Some (source_file y)
  | Some _ => recovery_file y
  end.

(** What the channel check lets through: [None] when a requested channel is
    missing, else the indices to select (none without requested channels). *)
Definition selection (channel_ind : option (list nat + string)) : option (option (list nat)) :=
  match channel_ind with
  | None => Some None
  | Some (inl ind) => Some (Some ind)
  | Some (inr _) => None
  end.

Definition binary_yield (mcd_file : pathlike) (acquisition : Acquisition)
    (matched_txt_file : option pathlike) (i : image) (ci : option (list nat)) : preprocessed :=
  {| source_file := Path mcd_file; source_acquisition := Some acquisition;
     img := select_and_preprocess i ci;
     recovery_file := option_map Path matched_txt_file; recovered := false |}.

Definition recovered_yield (mcd_file : pathlike) (acquisition : Acquisition)
    (matched_txt_file : pathlike) (i : image) (ci : option (list nat)) : preprocessed :=
  {| source_file := Path mcd_file; source_acquisition := Some acquisition;
     img := select_and_preprocess i ci;
     recovery_file := Some (Path matched_txt_file); recovered := true |}.

Definition standalone_yield (txt_file : pathlike) (i : image) (ci : option (list nat))
    : preprocessed :=
  {| source_file := Path txt_file; source_acquisition := None;
     img := select_and_preprocess i ci; recovery_file := None; recovered := false |}.

(** Where a yielded tuple comes from. *)
Definition yield_provenance (y : preprocessed) : Prop :=
  match source_acquisition y with
  | None =>
      recovered y = false /\ recovery_file y = None /\
      exists f i ci,
        TXTFile_open (source_file y) = Ok f /\
        txt_read_acquisition (source_file y) = Ok i /\
        selection (channel_ind_of f) = Some ci /\
        img y = select_and_preprocess i ci
  | Some a =>
      exists cia, selection (channel_ind_of a) = Some cia /\
      if recovered y then
        mcd_read_acquisition (source_file y) a = Raise IOError /\
        exists t f i ci,
          recovery_file y = Some t /\
          TXTFile_open t = Ok f /\ txt_read_acquisition t = Ok i /\
          selection (channel_ind_of f) = Some ci /\
          img y = select_and_preprocess i ci
      else
        exists i, mcd_read_acquisition (source_file y) a = Ok i /\
                  img y = select_and_preprocess i cia
  end.

Lemma yields_app (e1 e2 : list event) : yields (e1 ++ e2) = yields e1 ++ yields e2.
Proof. apply omap_app. Qed.

Lemma yields_logged (l : list (level * message)) : yields (logged_events l) = [].
Proof. induction l as [|x l IH]; [reflexivity | exact IH]. Qed.

Lemma is_IOError_true (e : exn) : is_IOError e = true -> e = IOError.
Proof. destruct e; simpl; congruence. Qed.

Lemma recover_from_txt_cases (mcd_file : pathlike) (acquisition : Acquisition)
    (t : pathlike) (evs : list event) (fl : flow) :
  recover_from_txt mcd_file acquisition t = (evs, fl) ->
  yields evs = [] \/
  exists f i ci,
    TXTFile_open (Path t) = Ok f /\ txt_read_acquisition (Path t) = Ok i /\
    selection (channel_ind_of f) = Some ci /\ fl = Next /\
    yields evs = [recovered_yield mcd_file acquisition t i ci].
Proof.
  unfold recover_from_txt.
  destruct (TXTFile_open (Path t)) as [f|e] eqn:Hopen.
  - destruct (txt_read_acquisition (Path t)) as [i|e] eqn:Hread.
    + destruct (channel_ind_of f) as [[ind|missing]|] eqn:Hci;
        intros [= <- <-].
      * right. exists f, i, (Some ind). rewrite Hci. auto.
      * left. reflexivity.
      * right. exists f, i, None. rewrite Hci. auto.
    + destruct (is_IOError e); intros [= <- <-]; left; reflexivity.
  - destruct (is_IOError e); intros [= <- <-]; left; reflexivity.
Qed.

(** The outcomes of the read of one acquisition. *)
Definition read_outcome (mcd_file : pathlike) (acquisition : Acquisition)
    (m : option pathlike) (cia : option (list nat)) (evs : list event) (fl : flow) : Prop :=
  yields evs = [] \/
  (exists i, mcd_read_acquisition (Path mcd_file) acquisition = Ok i /\ fl = Next /\
     yields evs = [binary_yield mcd_file acquisition m i cia]) \/
  (exists t f i ci, m = Some t /\
     mcd_read_acquisition (Path mcd_file) acquisition = Raise IOError /\
     TXTFile_open (Path t) = Ok f /\ txt_read_acquisition (Path t) = Ok i /\
     selection (channel_ind_of f) = Some ci /\ fl = Next /\
     yields evs = [recovered_yield mcd_file acquisition t i ci]).

Lemma read_or_recover_cases (mcd_file : pathlike) (acquisition : Acquisition)
    (m : option pathlike) (cia : option (list nat)) (evs : list event) (fl : flow) :
  read_or_recover mcd_file acquisition m cia = (evs, fl) ->
  read_outcome mcd_file acquisition m cia evs fl.
Proof.
  unfold read_or_recover, read_outcome.
  destruct (mcd_read_acquisition (Path mcd_file) acquisition) as [i|e] eqn:Hr.
  - intros [= <- <-]. right; left. exists i. auto.
  - destruct (is_IOError e) eqn:He.
    + apply is_IOError_true in He; subst e.
      destruct m as [t|].
      * destruct (recover_from_txt mcd_file acquisition t) as [evs' fl'] eqn:Hrec.
        intros [= <- <-].
        apply recover_from_txt_cases in Hrec.
        destruct Hrec as [Hnil | (f & i & ci & Ho & Hrd & Hsel & Hfl & Hy)].
        -- left. exact Hnil.
        -- right; right. exists t, f, i, ci. auto 10.
      * intros [= <- <-]. left. reflexivity.
    + intros [= <- <-]. left. reflexivity.
Qed.

(** The outcomes of one acquisition. *)
Lemma process_acquisition_cases (mcd_file : pathlike) (acquisition : Acquisition)
    (unmatched : list pathlike) (evs : list event) (unmatched' : list pathlike) (fl : flow) :
  process_acquisition mcd_file acquisition unmatched = (evs, unmatched', fl) ->
  (exists e, _match_txt_file compile matches mcd_file acquisition unmatched = Raise e /\
             evs = [] /\ unmatched' = unmatched /\ fl = Propagate e) \/
  (exists m lg,
     _match_txt_file compile matches mcd_file acquisition unmatched = Ok (m, lg) /\
     unmatched' = match m with Some t => list_remove t unmatched | None => unmatched end /\
     (yields evs = [] \/
      exists cia, selection (channel_ind_of acquisition) = Some cia /\
                  read_outcome mcd_file acquisition m cia evs fl)).
Proof.
  unfold process_acquisition.
  destruct (_match_txt_file compile matches mcd_file acquisition unmatched)
    as [[m lg]|e] eqn:Hm; [|intros [= <- <- <-]; left; eauto].
  intros H. right. exists m, lg. split; [reflexivity|].
  assert (Hgo : forall cia evs0 fl0,
      selection (channel_ind_of acquisition) = Some cia ->
      read_or_recover mcd_file acquisition m cia = (evs0, fl0) ->
      yields (logged_events lg ++ evs0) = [] \/
      read_outcome mcd_file acquisition m cia (logged_events lg ++ evs0) fl0).
  { intros cia evs0 fl0 Hsel Hr. right.
    apply read_or_recover_cases in Hr. unfold read_outcome in *.
    rewrite yields_app, yields_logged. exact Hr. }
  destruct (channel_ind_of acquisition) as [[ind|missing]|] eqn:Hci.
  - destruct (read_or_recover mcd_file acquisition m (Some ind)) as [evs0 fl0] eqn:Hr.
    injection H as <- <- <-. split; [reflexivity|].
    destruct (Hgo _ _ _ eq_refl Hr) as [Hn|Ho]; [left; exact Hn | right; eauto].
  - injection H as <- <- <-. split; [reflexivity|].
    left. rewrite yields_app, yields_logged. reflexivity.
  - destruct (read_or_recover mcd_file acquisition m None) as [evs0 fl0] eqn:Hr.
    injection H as <- <- <-. split; [reflexivity|].
    destruct (Hgo _ _ _ eq_refl Hr) as [Hn|Ho]; [left; exact Hn | right; eauto].
Qed.

(** *** Lifting a property of the single steps to the whole run *)

Section Lifting.
Variable P : pathlike -> preprocessed -> Prop.
Hypothesis P_step : forall mcd_file acquisition unmatched evs unmatched' fl,
  process_acquisition mcd_file acquisition unmatched = (evs, unmatched', fl) ->
  Forall (P mcd_file) (yields evs).

Lemma process_acquisitions_Forall (mcd_file : pathlike) (acqs : list Acquisition) :
  forall unmatched evs unmatched' fl,
  process_acquisitions mcd_file acqs unmatched = (evs, unmatched', fl) ->
  Forall (P mcd_file) (yields evs).
Proof.
  induction acqs as [|a acqs IH]; simpl; intros um evs um' fl H.
  - injection H as <- <- <-. constructor.
  - destruct (process_acquisition mcd_file a um) as [[e1 u1] f1] eqn:H1.
    apply P_step in H1. destruct f1.
    + destruct (process_acquisitions mcd_file acqs u1) as [[e2 u2] f2] eqn:H2.
      injection H as <- <- <-. rewrite yields_app. apply Forall_app. eauto.
    + injection H as <- <- <-. exact H1.
Qed.

Lemma process_slides_Forall (mcd_file : pathlike) (sl : list Slide) :
  forall unmatched evs unmatched' fl,
  process_slides mcd_file sl unmatched = (evs, unmatched', fl) ->
  Forall (P mcd_file) (yields evs).
Proof.
  induction sl as [|a sl IH]; simpl; intros um evs um' fl H.
  - injection H as <- <- <-. constructor.
  - destruct (process_acquisitions mcd_file (acquisitions a) um) as [[e1 u1] f1] eqn:H1.
    apply process_acquisitions_Forall in H1. destruct f1.
    + destruct (process_slides mcd_file sl u1) as [[e2 u2] f2] eqn:H2.
      injection H as <- <- <-. rewrite yields_app. apply Forall_app. eauto.
    + injection H as <- <- <-. exact H1.
Qed.

Lemma process_mcd_file_Forall (mcd_file : pathlike) (unmatched : list pathlike)
    (evs : list event) (unmatched' : list pathlike) :
  process_mcd_file mcd_file unmatched = (evs, unmatched') ->
  Forall (P mcd_file) (yields evs).
Proof.
  unfold process_mcd_file. intros H.
  destruct (MCDFile_open (Path mcd_file)) as [f|e].
  - destruct (process_slides mcd_file (slides f) unmatched) as [[e1 u1] f1] eqn:H1.
    apply process_slides_Forall in H1.
    destruct f1; injection H as <- <-; [exact H1|].
    rewrite yields_app. apply Forall_app. split; [exact H1 | constructor].
  - injection H as <- <-. constructor.
Qed.
End Lifting.

(** The yields of the MCD phase, file by file. *)
Fixpoint mcd_blocks (mcd_files : list pathlike) (unmatched : list pathlike)
    : list (list preprocessed) :=
  match mcd_files with
  | [] => []
  | mcd_file :: mcd_files' =>
      let '(evs, unmatched') := process_mcd_file mcd_file unmatched in
      yields evs :: mcd_blocks mcd_files' unmatched'
  end.

Lemma process_mcd_files_blocks (mcd_files : list pathlike) :
  forall unmatched,
  yields (fst (process_mcd_files mcd_files unmatched)) =
  concat (mcd_blocks mcd_files unmatched).
Proof.
  induction mcd_files as [|f fs IH]; simpl; intros um; [reflexivity|].
  destruct (process_mcd_file f um) as [e1 u1] eqn:H1.
  specialize (IH u1).
  destruct (process_mcd_files fs u1) as [e2 u2] eqn:H2.
  simpl in *. rewrite yields_app, IH. reflexivity.
Qed.

Lemma mcd_blocks_Forall2 (P : pathlike -> preprocessed -> Prop) :
  (forall mcd_file acquisition unmatched evs unmatched' fl,
     process_acquisition mcd_file acquisition unmatched = (evs, unmatched', fl) ->
     Forall (P mcd_file) (yields evs)) ->
  forall mcd_files unmatched,
  Forall2 (fun f block => Forall (P f) block) mcd_files (mcd_blocks mcd_files unmatched).
Proof.
  intros HP. induction mcd_files as [|f fs IH]; simpl; intros um; [constructor|].
  destruct (process_mcd_file f um) as [e1 u1] eqn:H1.
  constructor; [|apply IH].
  eapply process_mcd_file_Forall; eauto.
Qed.

Lemma Forall2_concat_Forall {A B} (Q : B -> Prop) (l : list A) (bs : list (list B)) :
  Forall2 (fun _ b => Forall Q b) l bs -> Forall Q (concat bs).
Proof.
  induction 1; simpl; [constructor | apply Forall_app; auto].
Qed.

(** *** Provenance of the yielded tuples *)

Lemma process_acquisition_provenance (mcd_file : pathlike) (acquisition : Acquisition)
    (unmatched : list pathlike) (evs : list event) (unmatched' : list pathlike) (fl : flow) :
  process_acquisition mcd_file acquisition unmatched = (evs, unmatched', fl) ->
  Forall (fun y => yield_provenance y /\ source_file y = Path mcd_file /\
                   source_acquisition y = Some acquisition) (yields evs).
Proof.
  intros H. apply process_acquisition_cases in H.
  destruct H as [(e & _ & -> & _) | (m & lg & _ & _ & [Hn | (cia & Hsel & Hout)])].
  - constructor.
  - rewrite Hn. constructor.
  - destruct Hout as [Hn | [(i & Hr & _ & Hy) | (t & f & i & ci & -> & Hr & Ho & Hrd & Hs & _ & Hy)]];
      [rewrite Hn; constructor | rewrite Hy; constructor; [|constructor] ..].
    + unfold yield_provenance; simpl. split; [|auto]. exists cia. eauto.
    + unfold yield_provenance; simpl. split; [|auto]. exists cia. split; [exact Hsel|].
      split; [exact Hr|]. exists (Path t), f, i, ci. auto.
Qed.

Lemma process_txt_file_cases (txt_file : pathlike) :
  yields (process_txt_file txt_file) = [] \/
  exists f i ci,
    TXTFile_open (Path txt_file) = Ok f /\ txt_read_acquisition (Path txt_file) = Ok i /\
    selection (channel_ind_of f) = Some ci /\
    yields (process_txt_file txt_file) = [standalone_yield txt_file i ci].
Proof.
  unfold process_txt_file.
  destruct (TXTFile_open (Path txt_file)) as [f|e]; [|left; reflexivity].
  destruct (channel_ind_of f) as [[ind|missing]|] eqn:Hci; [| left; reflexivity |];
    (destruct (txt_read_acquisition (Path txt_file)) as [i|e]; [|left; reflexivity]).
  - right. exists f, i, (Some ind). rewrite Hci. auto.
  - right. exists f, i, None. rewrite Hci. auto.
Qed.

Lemma process_txt_file_provenance (txt_file : pathlike) :
  Forall (fun y => yield_provenance y /\ source_file y = Path txt_file /\
                   source_acquisition y = None) (yields (process_txt_file txt_file)).
Proof.
  destruct (process_txt_file_cases txt_file) as [-> | (f & i & ci & Ho & Hr & Hs & ->)];
    constructor; [|constructor].
  unfold yield_provenance; simpl. split; [|auto].
  split; [reflexivity|]. split; [reflexivity|]. exists f, i, ci. auto.
Qed.

Lemma process_txt_files_Forall (Q : preprocessed -> Prop) :
  (forall t, Forall Q (yields (process_txt_file t))) ->
  forall unmatched, Forall Q (yields (process_txt_files unmatched)).
Proof.
  intros HQ. induction unmatched as [|t l IH]; simpl; [constructor|].
  rewrite yields_app. apply Forall_app. auto.
Qed.

Lemma process_txt_files_sources (unmatched : list pathlike) :
  sublist (source_file <$> yields (process_txt_files unmatched)) (Path <$> unmatched).
Proof.
  induction unmatched as [|t l IH]; simpl; [constructor|].
  rewrite yields_app, fmap_app.
  destruct (process_txt_file_cases t) as [-> | (f & i & ci & _ & _ & _ & ->)]; simpl.
  - apply sublist_cons. exact IH.
  - apply sublist_skip. exact IH.
Qed.

(** Every yielded tuple of a run has a known provenance. *)
Lemma run_provenance (mcd_files txt_files : list pathlike) :
  Forall yield_provenance (yields (try_preprocess_images_from_disk mcd_files txt_files)).
Proof.
  unfold try_preprocess_images_from_disk.
  pose proof (process_mcd_files_blocks (sorted_by_stem_reverse mcd_files) txt_files) as Hb.
  destruct (process_mcd_files (sorted_by_stem_reverse mcd_files) txt_files) as [evs um].
  simpl in Hb. rewrite yields_app, Hb. apply Forall_app. split.
  - eapply Forall2_concat_Forall.
    apply (mcd_blocks_Forall2 (fun _ y => yield_provenance y)).
    intros f a u e u' fl H. apply process_acquisition_provenance in H.
    eapply Forall_impl; [exact H | simpl; tauto].
  - apply process_txt_files_Forall. intros t.
    eapply Forall_impl; [apply process_txt_file_provenance | simpl; tauto].
Qed.

(** *** Consumption of the text files *)

Lemma pathlike_eqb_refl (p : pathlike) : pathlike_eqb p p = true.
Proof. destruct p; simpl; apply String.eqb_refl. Qed.

Lemma pathlike_eqb_Path (p q : pathlike) : pathlike_eqb p q = true -> Path p = Path q.
Proof.
  destruct p, q; simpl; try discriminate; rewrite String.eqb_eq; congruence.
Qed.

(** When [t] is the only item of [l] that passes a test which equal items
    pass alike, [l.remove(t)] takes [t] itself out of [l]. *)
Lemma list_remove_Permutation (P : pathlike -> bool) (t : pathlike) (l : list pathlike) :
  (forall y, pathlike_eqb t y = true -> P y = P t) ->
  List.filter P l = [t] -> Permutation l (t :: list_remove t l).
Proof.
  intros HP. induction l as [|x l IH]; intros Hf; [discriminate Hf|].
  assert (Ht : P t = true).
  { assert (Hin : In t (List.filter P (x :: l))) by (rewrite Hf; left; reflexivity).
    apply filter_In in Hin. tauto. }
  cbn [List.filter] in Hf. cbn [list_remove].
  destruct (pathlike_eqb t x) eqn:E.
  - rewrite (HP x E), Ht in Hf. injection Hf as -> _. reflexivity.
  - destruct (P x) eqn:Ex.
    + injection Hf as -> _. rewrite pathlike_eqb_refl in E. discriminate E.
    + rewrite (IH Hf) at 1. apply perm_swap.
Qed.

Lemma list_remove_sublist (t : pathlike) (l : list pathlike) : sublist (list_remove t l) l.
Proof.
  induction l as [|x l IH]; simpl; [constructor|].
  destruct (pathlike_eqb t x).
  - apply sublist_cons. reflexivity.
  - apply sublist_skip. exact IH.
Qed.

Lemma _match_txt_file_Some (mcd_file : pathlike) (acquisition : Acquisition)
    (txt_files : list pathlike) (t : pathlike) (lg : list (level * message)) :
  _match_txt_file compile matches mcd_file acquisition txt_files = Ok (Some t, lg) ->
  In t txt_files /\ lg = [].
Proof.
  unfold _match_txt_file.
  destruct (compile (txt_file_name_pattern mcd_file acquisition)) as [p|e]; [|discriminate].
  destruct (List.filter _ txt_files) as [|x [|x' l']] eqn:Hf.
  - discriminate.
  - intros [= -> <-]. split; [|reflexivity].
    assert (Hin : In t (List.filter
      (fun txt_file => matches p (path_name (Path txt_file))) txt_files))
      by (rewrite Hf; left; reflexivity).
    apply filter_In in Hin. tauto.
  - destruct (join_strs (x :: x' :: l')); discriminate.
Qed.

(** A returned file is the only candidate whose name matches, and it is the
    item [remove] takes out of the list. *)
Lemma _match_txt_file_Some_Permutation (mcd_file : pathlike) (acquisition : Acquisition)
    (txt_files : list pathlike) (t : pathlike) (lg : list (level * message)) :
  _match_txt_file compile matches mcd_file acquisition txt_files = Ok (Some t, lg) ->
  Permutation txt_files (t :: list_remove t txt_files).
Proof.
  unfold _match_txt_file.
  destruct (compile (txt_file_name_pattern mcd_file acquisition)) as [p|e]; [|discriminate].
  destruct (List.filter _ txt_files) as [|x [|x' l']] eqn:Hf.
  - discriminate.
  - intros [= -> <-].
    apply (list_remove_Permutation
             (fun txt_file => matches p (path_name (Path txt_file)))); [|exact Hf].
    intros y Hy. apply pathlike_eqb_Path in Hy. rewrite Hy. reflexivity.
  - destruct (join_strs (x :: x' :: l')); discriminate.
Qed.

(** The text files of the yielded tuples, with the files still unmatched, are
    drawn from the files unmatched before: nothing is used twice. *)
Definition consumes (unmatched : list pathlike) (evs : list event)
    (unmatched' : list pathlike) : Prop :=
  omap txt_path_of (yields evs) ++ (Path <$> unmatched') ⊆+ Path <$> unmatched /\
  sublist unmatched' unmatched.

Lemma consumes_nil (unmatched : list pathlike) : consumes unmatched [] unmatched.
Proof. split; reflexivity. Qed.

Lemma consumes_app (u0 u1 u2 : list pathlike) (e1 e2 : list event) :
  consumes u0 e1 u1 -> consumes u1 e2 u2 -> consumes u0 (e1 ++ e2) u2.
Proof.
  intros [H1 S1] [H2 S2]. split; [|etransitivity; eassumption].
  rewrite yields_app, omap_app, <- app_assoc.
  etransitivity; [|exact H1]. apply submseteq_skips_l. exact H2.
Qed.

Lemma consumes_logs (u0 u1 : list pathlike) (evs logs : list event) :
  yields logs = [] -> consumes u0 evs u1 -> consumes u0 (evs ++ logs) u1.
Proof.
  intros Hl [H S]. split; [|exact S].
  rewrite yields_app, Hl, app_nil_r. exact H.
Qed.

Lemma process_acquisition_consumes (mcd_file : pathlike) (acquisition : Acquisition)
    (unmatched : list pathlike) (evs : list event) (unmatched' : list pathlike) (fl : flow) :
  process_acquisition mcd_file acquisition unmatched = (evs, unmatched', fl) ->
  consumes unmatched evs unmatched'.
Proof.
  intros H. apply process_acquisition_cases in H.
  destruct H as [(e & _ & -> & -> & _) | (m & lg & Hm & -> & Hy)]; [apply consumes_nil|].
  assert (Hsub : sublist (match m with Some t => list_remove t unmatched | None => unmatched end)
                         unmatched)
    by (destruct m; [apply list_remove_sublist | reflexivity]).
  assert (Hone : forall y, yields evs = [y] -> source_acquisition y = Some acquisition ->
                   recovery_file y = option_map Path m ->
                   consumes unmatched evs
                     (match m with Some t => list_remove t unmatched | None => unmatched end)).
  { intros y Hy1 Hacq Hrec. split; [|exact Hsub].
    rewrite Hy1. simpl. unfold txt_path_of. rewrite Hacq, Hrec.
    destruct m as [t|]; simpl; [|reflexivity].
    rewrite (_match_txt_file_Some_Permutation _ _ _ _ _ Hm) at 2. reflexivity. }
  destruct Hy as [Hn | (cia & _ & [Hn | [(i & _ & _ & Hy) | (t & f & i & ci & -> & _ & _ & _ & _ & _ & Hy)]])].
  - split; [|exact Hsub]. rewrite Hn. simpl. apply sublist_submseteq, fmap_sublist, Hsub.
  - split; [|exact Hsub]. rewrite Hn. simpl. apply sublist_submseteq, fmap_sublist, Hsub.
  - eapply Hone; [exact Hy | reflexivity | reflexivity].
  - eapply Hone; [exact Hy | reflexivity | reflexivity].
Qed.

Lemma process_acquisitions_consumes (mcd_file : pathlike) (acqs : list Acquisition) :
  forall unmatched evs unmatched' fl,
  process_acquisitions mcd_file acqs unmatched = (evs, unmatched', fl) ->
  consumes unmatched evs unmatched'.
Proof.
  induction acqs as [|a acqs IH]; simpl; intros um evs um' fl H.
  - injection H as <- <- <-. apply consumes_nil.
  - destruct (process_acquisition mcd_file a um) as [[e1 u1] f1] eqn:H1.
    apply process_acquisition_consumes in H1. destruct f1.
    + destruct (process_acquisitions mcd_file acqs u1) as [[e2 u2] f2] eqn:H2.
      injection H as <- <- <-. eapply consumes_app; eauto.
    + injection H as <- <- <-. exact H1.
Qed.

Lemma process_slides_consumes (mcd_file : pathlike) (sl : list Slide) :
  forall unmatched evs unmatched' fl,
  process_slides mcd_file sl unmatched = (evs, unmatched', fl) ->
  consumes unmatched evs unmatched'.
Proof.
  induction sl as [|a sl IH]; simpl; intros um evs um' fl H.
  - injection H as <- <- <-. apply consumes_nil.
  - destruct (process_acquisitions mcd_file (acquisitions a) um) as [[e1 u1] f1] eqn:H1.
    apply process_acquisitions_consumes in H1. destruct f1.
    + destruct (process_slides mcd_file sl u1) as [[e2 u2] f2] eqn:H2.
      injection H as <- <- <-. eapply consumes_app; eauto.
    + injection H as <- <- <-. exact H1.
Qed.

Lemma process_mcd_files_consumes (mcd_files : list pathlike) :
  forall unmatched evs unmatched',
  process_mcd_files mcd_files unmatched = (evs, unmatched') ->
  consumes unmatched evs unmatched'.
Proof.
  induction mcd_files as [|f fs IH]; simpl; intros um evs um' H.
  - injection H as <- <-. apply consumes_nil.
  - destruct (process_mcd_file f um) as [e1 u1] eqn:H1.
    destruct (process_mcd_files fs u1) as [e2 u2] eqn:H2.
    injection H as <- <-. eapply consumes_app; [|eauto].
    unfold process_mcd_file in H1.
    destruct (MCDFile_open (Path f)) as [mf|e].
    + destruct (process_slides f (slides mf) um) as [[e0 u0] f0] eqn:H0.
      apply process_slides_consumes in H0.
      destruct f0; injection H1 as <- <-; [exact H0|].
      apply consumes_logs; [reflexivity | exact H0].
    + injection H1 as <- <-. split; reflexivity.
Qed.

Lemma process_txt_files_consumes (unmatched : list pathlike) :
  omap txt_path_of (yields (process_txt_files unmatched)) ⊆+ Path <$> unmatched.
Proof.
  induction unmatched as [|t l IH]; simpl; [reflexivity|].
  rewrite yields_app, omap_app.
  destruct (process_txt_file_cases t) as [-> | (f & i & ci & _ & _ & _ & ->)]; simpl.
  - apply submseteq_cons. exact IH.
  - apply submseteq_skip. exact IH.
Qed.

(** *** The structure of a run *)

Lemma process_acquisitions_app (f : pathlike) (l1 l2 : list Acquisition) :
  forall u,
  process_acquisitions f (l1 ++ l2) u =
  match process_acquisitions f l1 u with
  | (evs, u1, Next) =>
      let '(evs', u2, fl) := process_acquisitions f l2 u1 in (evs ++ evs', u2, fl)
  | (evs, u1, Propagate e) => (evs, u1, Propagate e)
  end.
Proof.
  induction l1 as [|a l1 IH]; intros u; simpl.
  - destruct (process_acquisitions f l2 u) as [[e2 u2] fl]. reflexivity.
  - destruct (process_acquisition f a u) as [[e1 u1] [|e]]; [|reflexivity].
    rewrite IH. destruct (process_acquisitions f l1 u1) as [[e2 u2] [|e]]; [|reflexivity].
    destruct (process_acquisitions f l2 u2) as [[e3 u3] fl]. rewrite app_assoc. reflexivity.
Qed.

(** The slides of a file are gone through one after the other: the loop over
    the slides is the loop over all the acquisitions of the file. *)
Lemma process_slides_flat (f : pathlike) (sl : list Slide) :
  forall u, process_slides f sl u = process_acquisitions f (flat_map acquisitions sl) u.
Proof.
  induction sl as [|s sl IH]; intros u; simpl; [reflexivity|].
  rewrite process_acquisitions_app.
  destruct (process_acquisitions f (acquisitions s) u) as [[e1 u1] [|e]]; [|reflexivity].
  rewrite IH. reflexivity.
Qed.


Lemma process_txt_files_flat (unmatched : list pathlike) :
  process_txt_files unmatched = flat_map process_txt_file unmatched.
Proof. induction unmatched as [|t l IH]; simpl; [reflexivity | rewrite IH; reflexivity]. Qed.

(** Going through a list in order, each item from the state its predecessor
    left. *)
Inductive threaded {A S B : Type} (step : A -> S -> B -> S -> Prop)
  : list A -> S -> list B -> S -> Prop :=
| threaded_nil (s : S) : threaded step [] s [] s
| threaded_cons (a : A) (l : list A) (s s1 s2 : S) (b : B) (bs : list B) :
    step a s b s1 -> threaded step l s1 bs s2 ->
    threaded step (a :: l) s (b :: bs) s2.

(** The pass over one MCD file, which finds the unmatched files [u] and
    leaves [u'].  For a file that cannot be opened the exception is logged.
    In an opened file the acquisitions are gone through in the order of the
    slides, each from the unmatched files its predecessor left, up to the
    last one or to the first whose step raises; the exception is then logged
    after the events of that step. *)
Definition mcd_file_pass (f : pathlike) (u : list pathlike) (block : list event)
    (u' : list pathlike) : Prop :=
  match MCDFile_open (Path f) with
  | Raise _ => block = [Log EXCEPTION (ErrorReadingFile f)] /\ u' = u
  | Ok f_mcd =>
      exists done rest segments u1,
        flat_map acquisitions (slides f_mcd) = done ++ rest /\
        threaded (fun a v segment v' => process_acquisition f a v = (segment, v', Next))
          done u segments u1 /\
        match rest with
        | [] => block = concat segments /\ u' = u1
        | a :: _ =>
            exists evs e,
              process_acquisition f a u1 = (evs, u', Propagate e) /\
              block = concat segments ++ evs ++ [Log EXCEPTION (ErrorReadingFile f)]
        end
  end.

(** What the step of the acquisition [a] of the file [f] can leave. *)
Definition acquisition_event (f : pathlike) (a : Acquisition) (e : event) : Prop :=
  match e with
  | Yield y => source_file y = Path f /\ source_acquisition y = Some a
  | Log WARNING (AmbiguousMatching f' _) => f' = f
  | Log WARNING (ChannelNotFoundInAcquisition _ i) => i = id a
  | Log WARNING (ErrorReadingAcquisition i f') => i = id a /\ f' = f
  | Log WARNING (RestoringFromFile _) => True
  | Log WARNING (ChannelNotFoundInFile _ _) => True
  | Log ERROR (ErrorReadingFile _) => True
  | Log _ _ => False
  end.

(** What the step of the standalone text file [t] can leave. *)
Definition standalone_event (t : pathlike) (e : event) : Prop :=
  match e with
  | Yield y => source_file y = Path t /\ source_acquisition y = None
  | Log WARNING (ChannelNotFoundInFile _ t') => t' = t
  | Log EXCEPTION (ErrorReadingFile t') => t' = t
  | Log _ _ => False
  end.

Lemma _match_txt_file_logged (mcd_file : pathlike) (acquisition : Acquisition)
    (txt_files : list pathlike) (m : option pathlike) (lg : list (level * message)) :
  _match_txt_file compile matches mcd_file acquisition txt_files = Ok (m, lg) ->
  lg = [] \/ exists names, lg = [(WARNING, AmbiguousMatching mcd_file names)].
Proof.
  unfold _match_txt_file.
  destruct (compile (txt_file_name_pattern mcd_file acquisition)) as [p|e]; [|discriminate].
  destruct (List.filter _ txt_files) as [|x [|x' l']].
  - intros [= <- <-]. left. reflexivity.
  - intros [= <- <-]. left. reflexivity.
  - destruct (join_strs (x :: x' :: l')) as [names|e]; [|discriminate].
    intros [= <- <-]. right. eauto.
Qed.

Ltac step_facts :=
  split; [repeat constructor |
  split; [simpl; lia |
  split; [let H := fresh in intros H; first [discriminate H | discriminate] |
          let H := fresh in
          intros H; first [reflexivity | exfalso; apply H; reflexivity]]]].

(** A step that goes on to the next acquisition leaves at least one event;
    a step leaves at most one tuple, and none when it raises. *)
Lemma process_acquisition_events (f : pathlike) (a : Acquisition) (u : list pathlike)
    (evs : list event) (u' : list pathlike) (fl : flow) :
  process_acquisition f a u = (evs, u', fl) ->
  Forall (acquisition_event f a) evs /\
  (List.length (yields evs) <= 1)%nat /\
  (fl = Next -> evs <> []) /\
  (fl <> Next -> yields evs = []).
Proof.
  unfold process_acquisition.
  destruct (_match_txt_file compile matches f a u) as [[m lg]|e] eqn:Hm;
    [|intros [= <- <- <-]; step_facts].
  assert (Hlg : Forall (acquisition_event f a) (logged_events lg) /\
                yields (logged_events lg) = []).
  { split; [|apply yields_logged].
    destruct (_match_txt_file_logged _ _ _ _ _ Hm) as [-> | [names ->]];
      repeat constructor. }
  destruct Hlg as [Hlg Hnil].
  assert (Hgo : forall ci evs0 fl0,
      read_or_recover f a m ci = (evs0, fl0) ->
      Forall (acquisition_event f a) evs0 /\
      (List.length (yields evs0) <= 1)%nat /\
      (fl0 = Next -> evs0 <> []) /\
      (fl0 <> Next -> yields evs0 = [])).
  { intros ci evs0 fl0. unfold read_or_recover, recover_from_txt.
    destruct (mcd_read_acquisition (Path f) a) as [i|e];
      [intros [= <- <-]; step_facts|].
    destruct (is_IOError e); [|intros [= <- <-]; step_facts].
    destruct m as [t|]; [|intros [= <- <-]; step_facts].
    destruct (TXTFile_open (Path t)) as [f_txt|e2];
      [|destruct (is_IOError e2); intros [= <- <-]; step_facts].
    destruct (txt_read_acquisition (Path t)) as [i|e2];
      [|destruct (is_IOError e2); intros [= <- <-]; step_facts].
    destruct (channel_ind_of f_txt) as [[ind|missing]|];
      intros [= <- <-]; step_facts. }
  assert (Hadd : forall evs0 fl0,
      Forall (acquisition_event f a) evs0 /\
      (List.length (yields evs0) <= 1)%nat /\
      (fl0 = Next -> evs0 <> []) /\
      (fl0 <> Next -> yields evs0 = []) ->
      Forall (acquisition_event f a) (logged_events lg ++ evs0) /\
      (List.length (yields (logged_events lg ++ evs0)) <= 1)%nat /\
      (fl0 = Next -> logged_events lg ++ evs0 <> []) /\
      (fl0 <> Next -> yields (logged_events lg ++ evs0) = [])).
  { intros evs0 fl0 (H1 & H2 & H3 & H4).
    rewrite yields_app, Hnil. simpl.
    split; [apply Forall_app; split; assumption|].
    split; [exact H2|]. split; [|exact H4].
    intros Hfl Happ. apply app_eq_nil in Happ. destruct Happ as [_ Happ].
    exact (H3 Hfl Happ). }
  destruct (channel_ind_of a) as [[ind|missing]|].
  - destruct (read_or_recover f a m (Some ind)) as [evs0 fl0] eqn:Hr.
    intros [= <- <- <-]. apply Hadd, (Hgo _ _ _ Hr).
  - intros [= <- <- <-]. apply Hadd. step_facts.
  - destruct (read_or_recover f a m None) as [evs0 fl0] eqn:Hr.
    intros [= <- <- <-]. apply Hadd, (Hgo _ _ _ Hr).
Qed.

(** A standalone text file leaves exactly one event. *)
Lemma process_txt_file_event (t : pathlike) :
  exists e, process_txt_file t = [e] /\ standalone_event t e.
Proof.
  unfold process_txt_file.
  destruct (TXTFile_open (Path t)) as [f|e]; [|eexists; split; reflexivity].
  destruct (channel_ind_of f) as [[ind|missing]|];
    [| eexists; split; reflexivity |];
    (destruct (txt_read_acquisition (Path t)) as [i|e];
       eexists; (split; [reflexivity|]); simpl; auto).
Qed.

Lemma process_acquisitions_pass (f : pathlike) (acqs : list Acquisition) :
  forall u evs u' fl,
  process_acquisitions f acqs u = (evs, u', fl) ->
  exists done rest segments u1,
    acqs = done ++ rest /\
    threaded (fun a v segment v' => process_acquisition f a v = (segment, v', Next))
      done u segments u1 /\
    match rest with
    | [] => fl = Next /\ evs = concat segments /\ u' = u1
    | a :: _ =>
        exists evs0 e,
          fl = Propagate e /\
          process_acquisition f a u1 = (evs0, u', Propagate e) /\
          evs = concat segments ++ evs0
    end.
Proof.
  induction acqs as [|a acqs IH]; simpl; intros u evs u' fl H.
  - injection H as <- <- <-. exists [], [], [], u.
    split; [reflexivity|]. split; [constructor|]. auto.
  - destruct (process_acquisition f a u) as [[e1 u1] [|e]] eqn:H1.
    + destruct (process_acquisitions f acqs u1) as [[e2 u2] fl2] eqn:H2.
      injection H as <- <- <-.
      destruct (IH _ _ _ _ H2) as (done & rest & segs & v & -> & Hth & Hrest).
      exists (a :: done), rest, (e1 :: segs), v.
      split; [reflexivity|]. split; [econstructor; eassumption|].
      destruct rest as [|b rest].
      * destruct Hrest as (-> & -> & ->). auto.
      * destruct Hrest as (evs0 & e & -> & Hb & ->).
        exists evs0, e. simpl. rewrite app_assoc. auto.
    + injection H as <- <- <-. exists [], (a :: acqs), [], u.
      split; [reflexivity|]. split; [constructor|].
      exists e1, e. auto.
Qed.

Lemma process_mcd_file_pass (f : pathlike) (u : list pathlike) :
  mcd_file_pass f u (fst (process_mcd_file f u)) (snd (process_mcd_file f u)).
Proof.
  unfold mcd_file_pass, process_mcd_file.
  destruct (MCDFile_open (Path f)) as [f_mcd|e]; [|split; reflexivity].
  rewrite process_slides_flat.
  destruct (process_acquisitions f (flat_map acquisitions (slides f_mcd)) u)
    as [[evs u'] fl] eqn:H.
  destruct (process_acquisitions_pass _ _ _ _ _ _ H) as (done & rest & segs & v & Hacq & Hth & Hrest).
  exists done, rest, segs, v. split; [exact Hacq|]. split; [exact Hth|].
  destruct rest as [|b rest].
  - destruct Hrest as (-> & -> & ->). split; reflexivity.
  - destruct Hrest as (evs0 & e & -> & Hb & ->).
    exists evs0, e. split; [exact Hb|]. simpl. rewrite <- app_assoc. reflexivity.
Qed.

Lemma process_mcd_files_threaded (mcd_files : list pathlike) :
  forall u, exists blocks,
    threaded mcd_file_pass mcd_files u blocks (snd (process_mcd_files mcd_files u)) /\
    fst (process_mcd_files mcd_files u) = concat blocks.
Proof.
  induction mcd_files as [|f fs IH]; intros u; simpl.
  - exists []. split; [constructor | reflexivity].
  - pose proof (process_mcd_file_pass f u) as Hf.
    destruct (process_mcd_file f u) as [e1 u1].
    destruct (IH u1) as (blocks & Hth & Hev).
    destruct (process_mcd_files fs u1) as [e2 u2].
    exists (e1 :: blocks). simpl in *. split; [econstructor; eassumption|].
    rewrite Hev. reflexivity.
Qed.






(** *** The properties of the specification *)







(** C2, amended: when the binary read of an acquisition (one that passed its
    own channel check, so that the read takes place) raises an [IOError] and
    a text file was matched whose read succeeds and which, when channels are
    requested, has them all, the step yields the image of the text file with
    the matched path and the flag set; when no text file was matched or its
    read raises, the step yields nothing; and over a whole run the flag is
    unset on every tuple of a standalone text file and of an acquisition
    whose binary read succeeded. *)
Theorem recovered_image_replaces_failed_read :
  (forall mcd_file acquisition unmatched t lg f i cia ci,
     mcd_read_acquisition (Path mcd_file) acquisition = Raise IOError ->
     selection (channel_ind_of acquisition) = Some cia ->
     _match_txt_file compile matches mcd_file acquisition unmatched = Ok (Some t, lg) ->
     TXTFile_open (Path t) = Ok f -> txt_read_acquisition (Path t) = Ok i ->
     selection (channel_ind_of f) = Some ci ->
     snd (process_acquisition mcd_file acquisition unmatched) = Next /\
     yields (fst (fst (process_acquisition mcd_file acquisition unmatched))) =
       [{| source_file := Path mcd_file; source_acquisition := Some acquisition;
           img := select_and_preprocess i ci;
           recovery_file := Some (Path t); recovered := true |}]) /\
  (forall mcd_file acquisition unmatched m lg,
     mcd_read_acquisition (Path mcd_file) acquisition = Raise IOError ->
     _match_txt_file compile matches mcd_file acquisition unmatched = Ok (m, lg) ->
     (m = None \/
      exists t, m = Some t /\
        ((exists e, TXTFile_open (Path t) = Raise e) \/
         (exists e, txt_read_acquisition (Path t) = Raise e))) ->
     yields (fst (fst (process_acquisition mcd_file acquisition unmatched))) = []) /\
  (forall mcd_files txt_files,
     Forall (fun y =>
               (source_acquisition y = None -> recovered y = false) /\
               (forall a i, source_acquisition y = Some a ->
                  mcd_read_acquisition (source_file y) a = Ok i -> recovered y = false))
       (yields (try_preprocess_images_from_disk mcd_files txt_files))).
Proof.
  split; [|split].
  - intros mcd_file acquisition unmatched t lg f i cia ci Hr Hsa Hm Ho Hrd Hsf.
    assert (Hrec : recover_from_txt mcd_file acquisition t =
      ([Yield {| source_file := Path mcd_file; source_acquisition := Some acquisition;
                 img := select_and_preprocess i ci;
                 recovery_file := Some (Path t); recovered := true |}], Next)).
    { unfold recover_from_txt. rewrite Ho, Hrd.
      destruct (channel_ind_of f) as [[ind|missing]|]; simpl in Hsf;
        [injection Hsf as <- | discriminate | injection Hsf as <-]; reflexivity. }
    unfold process_acquisition. rewrite Hm.
    destruct (channel_ind_of acquisition) as [[ind|missing]|]; simpl in Hsa;
      try discriminate; unfold read_or_recover; rewrite Hr; simpl; rewrite Hrec; simpl;
      rewrite yields_app, yields_logged; split; reflexivity.
  - intros mcd_file acquisition unmatched m lg Hr Hm Hno.
    destruct (process_acquisition mcd_file acquisition unmatched) as [[evs um'] fl] eqn:Hp.
    simpl. apply process_acquisition_cases in Hp.
    destruct Hp as [(e & _ & -> & _) | (m' & lg' & Hm' & _ & Hy)]; [reflexivity|].
    rewrite Hm in Hm'. injection Hm' as <- <-.
    destruct Hy as [Hn | (cia & _ & [Hn | [(i & Hr' & _) | (t & f & i & ci & -> & _ & Ho & Hrd & _)]])];
      [exact Hn | exact Hn | congruence |].
    destruct Hno as [Hnone | (t' & [= <-] & [[e He] | [e He]])]; congruence.
  - intros mcd_files txt_files.
    eapply Forall_impl; [apply run_provenance|].
    intros y Hy. unfold yield_provenance in Hy. split.
    + intros Hnone. rewrite Hnone in Hy. tauto.
    + intros a i Ha Hok. rewrite Ha in Hy.
      destruct Hy as (cia & _ & Hrest).
      destruct (recovered y); [|reflexivity].
      destruct Hrest as [Hraise _]. congruence.
Qed.

(** C9, amended: the text files of the yielded tuples are drawn from the
    input sequence without repetition of an occurrence, so when the input
    paths are pairwise distinct as paths (two texts that [pathlib] reads
    as the same path are one path) no text file path appears in more than
    one yielded tuple. *)
Theorem txt_file_consumed_at_most_once (mcd_files txt_files : list pathlike) :
  omap txt_path_of (yields (try_preprocess_images_from_disk mcd_files txt_files))
    ⊆+ Path <$> txt_files /\
  (NoDup (Path <$> txt_files) ->
   NoDup (omap txt_path_of (yields (try_preprocess_images_from_disk mcd_files txt_files)))).
Proof.
  assert (Hsub : omap txt_path_of
      (yields (try_preprocess_images_from_disk mcd_files txt_files)) ⊆+ Path <$> txt_files).
  { unfold try_preprocess_images_from_disk.
    destruct (process_mcd_files (sorted_by_stem_reverse mcd_files) txt_files)
      as [evs um] eqn:Hp.
    apply process_mcd_files_consumes in Hp. destruct Hp as [Hc _].
    rewrite yields_app, omap_app.
    etransitivity; [|exact Hc].
    apply submseteq_skips_l, process_txt_files_consumes. }
  split; [exact Hsub|].
  intros Hnd. apply submseteq_Permutation in Hsub. destruct Hsub as [k Hk].
  rewrite Hk in Hnd. apply NoDup_app in Hnd. tauto.
Qed.

(** C10: the MCD files are processed in descending order of their stems
    whatever the order of the input (files of equal stem in input order),
    then the text files left unmatched in input order.  The events of the
    run are one block per MCD file, in this order, each block the pass over
    its file from the unmatched files the files before it left, followed by
    one event for each text file the last pass left unmatched, in the order
    of the input.  Within a pass every step that goes on leaves an event,
    a tuple it yields is of its acquisition, and the text file matched in a
    step, and nothing else, leaves the unmatched files. *)
Theorem mcd_files_descending_then_txt_files (mcd_files txt_files : list pathlike) :
  Permutation (sorted_by_stem_reverse mcd_files) mcd_files /\
  StronglySorted stem_ge (sorted_by_stem_reverse mcd_files) /\
  (forall k,
     List.filter (fun f => String.eqb (path_stem (Path f)) k)
       (sorted_by_stem_reverse mcd_files) =
     List.filter (fun f => String.eqb (path_stem (Path f)) k) mcd_files) /\
  (exists blocks unmatched standalone,
     try_preprocess_images_from_disk mcd_files txt_files = concat blocks ++ standalone /\
     threaded mcd_file_pass (sorted_by_stem_reverse mcd_files) txt_files blocks unmatched /\
     Forall2 standalone_event unmatched standalone /\
     standalone = flat_map process_txt_file unmatched /\
     sublist unmatched txt_files) /\
  (forall f a u evs u' fl,
     process_acquisition f a u = (evs, u', fl) ->
     Forall (acquisition_event f a) evs /\
     (List.length (yields evs) <= 1)%nat /\
     (fl = Next -> evs <> []) /\
     (fl <> Next -> yields evs = []) /\
     match _match_txt_file compile matches f a u with
     | Ok (Some t, _) => Permutation u (t :: u')
     | _ => u' = u
     end).
Proof.
  split; [apply sorted_by_stem_reverse_Permutation|].
  split; [apply sorted_by_stem_reverse_sorted|].
  split; [intros k; apply sorted_by_stem_reverse_stable|].
  split.
  - unfold try_preprocess_images_from_disk.
    destruct (process_mcd_files_threaded (sorted_by_stem_reverse mcd_files) txt_files)
      as (blocks & Hth & Hev).
    destruct (process_mcd_files (sorted_by_stem_reverse mcd_files) txt_files)
      as [evs um] eqn:Hp.
    cbn [fst snd] in Hth, Hev.
    exists blocks, um, (flat_map process_txt_file um).
    split; [rewrite Hev, process_txt_files_flat; reflexivity|].
    split; [exact Hth|].
    split; [|split; [reflexivity|]].
    + clear. induction um as [|t l IH]; simpl; [constructor|].
      destruct (process_txt_file_event t) as (e & -> & He).
      constructor; assumption.
    + apply process_mcd_files_consumes in Hp. apply Hp.
  - intros f a u evs u' fl H.
    destruct (process_acquisition_events _ _ _ _ _ _ H) as (H1 & H2 & H3 & H4).
    repeat (split; [assumption|]).
    apply process_acquisition_cases in H.
    destruct H as [(e & -> & _ & -> & _) | (m & lg & Hm & -> & _)]; [reflexivity|].
    rewrite Hm. destruct m as [t|]; [|reflexivity].
    exact (_match_txt_file_Some_Permutation _ _ _ _ _ Hm).
Qed.

(** *** Further properties of a run *)

(** The acquisitions of an MCD file with the path of the file, in the order
    of its slides; none when the file cannot be opened. *)
Definition acquisitions_of (mcd_file : pathlike) : list (string * Acquisition) :=
  match MCDFile_open (Path mcd_file) with
  | Ok f_mcd => map (fun a => (Path mcd_file, a)) (flat_map acquisitions (slides f_mcd))
  | Raise _ => []
  end.

(** The file and the acquisition of a yielded tuple, if it has one. *)
Definition acquisition_of_yield (y : preprocessed) : option (string * Acquisition) :=
  option_map (fun a => (source_file y, a)) (source_acquisition y).

Lemma process_acquisition_order (mcd_file : pathlike) (acquisition : Acquisition)
    (unmatched : list pathlike) (evs : list event) (unmatched' : list pathlike) (fl : flow) :
  process_acquisition mcd_file acquisition unmatched = (evs, unmatched', fl) ->
  sublist (omap acquisition_of_yield (yields evs)) [(Path mcd_file, acquisition)].
Proof.
  intros H. apply process_acquisition_cases in H.
  destruct H as [(e & _ & -> & _) | (m & lg & _ & _ & [Hn | (cia & _ & Hout)])];
    [apply sublist_nil_l | rewrite Hn; apply sublist_nil_l |].
  destruct Hout as [Hn | [(i & _ & _ & Hy) | (t & f & i & ci & _ & _ & _ & _ & _ & _ & Hy)]];
    [rewrite Hn; apply sublist_nil_l | rewrite Hy; reflexivity ..].
Qed.

Lemma process_acquisitions_order (mcd_file : pathlike) (acqs : list Acquisition) :
  forall unmatched evs unmatched' fl,
  process_acquisitions mcd_file acqs unmatched = (evs, unmatched', fl) ->
  sublist (omap acquisition_of_yield (yields evs))
          (map (fun a => (Path mcd_file, a)) acqs).
Proof.
  induction acqs as [|a acqs IH]; simpl; intros um evs um' fl H.
  - injection H as <- <- <-. reflexivity.
  - destruct (process_acquisition mcd_file a um) as [[e1 u1] f1] eqn:H1.
    apply process_acquisition_order in H1. destruct f1.
    + destruct (process_acquisitions mcd_file acqs u1) as [[e2 u2] f2] eqn:H2.
      injection H as <- <- <-. rewrite yields_app, omap_app.
      apply (sublist_app _ [_]); [exact H1 | eauto].
    + injection H as <- <- <-.
      etransitivity; [exact H1|]. apply sublist_skip, sublist_nil_l.
Qed.

Lemma process_slides_order (mcd_file : pathlike) (sl : list Slide) :
  forall unmatched evs unmatched' fl,
  process_slides mcd_file sl unmatched = (evs, unmatched', fl) ->
  sublist (omap acquisition_of_yield (yields evs))
          (map (fun a => (Path mcd_file, a)) (flat_map acquisitions sl)).
Proof.
  induction sl as [|a sl IH]; simpl; intros um evs um' fl H.
  - injection H as <- <- <-. reflexivity.
  - rewrite map_app.
    destruct (process_acquisitions mcd_file (acquisitions a) um) as [[e1 u1] f1] eqn:H1.
    apply process_acquisitions_order in H1. destruct f1.
    + destruct (process_slides mcd_file sl u1) as [[e2 u2] f2] eqn:H2.
      injection H as <- <- <-. rewrite yields_app, omap_app.
      apply sublist_app; [exact H1 | eauto].
    + injection H as <- <- <-. apply sublist_inserts_r. exact H1.
Qed.

Lemma process_mcd_file_order (mcd_file : pathlike) (unmatched : list pathlike)
    (evs : list event) (unmatched' : list pathlike) :
  process_mcd_file mcd_file unmatched = (evs, unmatched') ->
  sublist (omap acquisition_of_yield (yields evs)) (acquisitions_of mcd_file).
Proof.
  unfold process_mcd_file, acquisitions_of. intros H.
  destruct (MCDFile_open (Path mcd_file)) as [f|e].
  - destruct (process_slides mcd_file (slides f) unmatched) as [[e1 u1] f1] eqn:H1.
    apply process_slides_order in H1.
    destruct f1; injection H as <- <-; [exact H1|].
    rewrite yields_app, omap_app. simpl. rewrite app_nil_r. exact H1.
  - injection H as <- <-. reflexivity.
Qed.

Lemma process_mcd_files_order (mcd_files : list pathlike) :
  forall unmatched evs unmatched',
  process_mcd_files mcd_files unmatched = (evs, unmatched') ->
  sublist (omap acquisition_of_yield (yields evs)) (flat_map acquisitions_of mcd_files).
Proof.
  induction mcd_files as [|f fs IH]; simpl; intros um evs um' H.
  - injection H as <- <-. reflexivity.
  - destruct (process_mcd_file f um) as [e1 u1] eqn:H1.
    destruct (process_mcd_files fs u1) as [e2 u2] eqn:H2.
    injection H as <- <-. rewrite yields_app, omap_app.
    apply sublist_app; [eapply process_mcd_file_order; eauto | eauto].
Qed.

Lemma process_txt_files_standalone (unmatched : list pathlike) :
  omap acquisition_of_yield (yields (process_txt_files unmatched)) = [].
Proof.
  induction unmatched as [|t l IH]; simpl; [reflexivity|].
  rewrite yields_app, omap_app, IH, app_nil_r.
  destruct (process_txt_file_cases t) as [-> | (f & i & ci & _ & _ & _ & ->)]; reflexivity.
Qed.

(** X7: the acquisitions of the yielded tuples are acquisitions of the MCD
    files that could be opened, each with the path of its file; they come in
    the processing order of the files and, within a file, in the order of its
    slides and acquisitions, and no acquisition is yielded more often than
    its file holds it. *)
Theorem yields_follow_the_acquisitions (mcd_files txt_files : list pathlike) :
  sublist
    (omap acquisition_of_yield (yields (try_preprocess_images_from_disk mcd_files txt_files)))
    (flat_map acquisitions_of (sorted_by_stem_reverse mcd_files)).
Proof.
  unfold try_preprocess_images_from_disk.
  destruct (process_mcd_files (sorted_by_stem_reverse mcd_files) txt_files)
    as [evs um] eqn:Hp.
  rewrite yields_app, omap_app, process_txt_files_standalone, app_nil_r.
  eapply process_mcd_files_order. exact Hp.
Qed.

(** X8: a text file matched to an acquisition leaves the unmatched files
    (one occurrence of it), whatever becomes of the acquisition: also when
    the acquisition is skipped for a missing channel or nothing can be read.
    A tuple yielded for the acquisition carries the path of that file. *)
Theorem matched_txt_file_is_withdrawn (mcd_file : pathlike) (acquisition : Acquisition)
    (unmatched : list pathlike) (t : pathlike) (lg : list (level * message)) :
  _match_txt_file compile matches mcd_file acquisition unmatched = Ok (Some t, lg) ->
  Permutation unmatched
    (t :: snd (fst (process_acquisition mcd_file acquisition unmatched))) /\
  Forall (fun y => recovery_file y = Some (Path t))
    (yields (fst (fst (process_acquisition mcd_file acquisition unmatched)))).
Proof.
  intros Hm.
  destruct (process_acquisition mcd_file acquisition unmatched) as [[evs um'] fl] eqn:Hp.
  simpl. apply process_acquisition_cases in Hp.
  destruct Hp as [(e & He & _) | (m & lg' & Hm' & -> & Hy)]; [congruence|].
  rewrite Hm in Hm'. injection Hm' as <- <-.
  split.
  - exact (_match_txt_file_Some_Permutation _ _ _ _ _ Hm).
  - destruct Hy as [Hn | (cia & _ & [Hn | [(i & _ & _ & Hy) | (t' & f & i & ci & Ht & _ & _ & _ & _ & _ & Hy)]])];
      [rewrite Hn; constructor | rewrite Hn; constructor | rewrite Hy; repeat constructor ..].
    injection Ht as <-. reflexivity.
Qed.

Lemma process_mcd_files_unopened (mcd_files : list pathlike) (unmatched : list pathlike) :
  (forall m, In m mcd_files -> exists e, MCDFile_open (Path m) = Raise e) ->
  process_mcd_files mcd_files unmatched =
  (map (fun m => Log EXCEPTION (ErrorReadingFile m)) mcd_files, unmatched).
Proof.
  induction mcd_files as [|m l IH]; intros Hall; [reflexivity|].
  cbn [process_mcd_files]. unfold process_mcd_file.
  destruct (Hall m (or_introl eq_refl)) as [e ->].
  rewrite IH by (intros m' Hm'; apply Hall; right; exact Hm'). reflexivity.
Qed.

(** X9: when none of the MCD files can be opened (or none is given), the run
    logs one exception per MCD file, in processing order, and then goes
    through every text file of the input, in input order, as a standalone
    file. *)
Theorem unopened_mcd_files_leave_txt_files_standalone (mcd_files txt_files : list pathlike) :
  (forall m, In m mcd_files -> exists e, MCDFile_open (Path m) = Raise e) ->
  try_preprocess_images_from_disk mcd_files txt_files =
  map (fun m => Log EXCEPTION (ErrorReadingFile m)) (sorted_by_stem_reverse mcd_files) ++
  process_txt_files txt_files.
Proof.
  intros Hall. unfold try_preprocess_images_from_disk.
  rewrite process_mcd_files_unopened; [reflexivity|].
  intros m Hm. apply Hall.
  apply (Permutation_in _ (sorted_by_stem_reverse_Permutation mcd_files)), Hm.
Qed.

(** What can go wrong with an acquisition when there are no text files: its
    pattern is not a regular expression, its binary read raises, or it lacks
    a requested channel. *)
Definition sound_acquisition (mcd_file : pathlike) (acquisition : Acquisition) : Prop :=
  (exists p, compile (txt_file_name_pattern mcd_file acquisition) = Ok p) /\
  (exists i, mcd_read_acquisition (Path mcd_file) acquisition = Ok i) /\
  (exists cia, selection (channel_ind_of acquisition) = Some cia).

Lemma process_acquisition_sound (mcd_file : pathlike) (acquisition : Acquisition) :
  sound_acquisition mcd_file acquisition ->
  exists y,
    process_acquisition mcd_file acquisition [] = ([Yield y], [], Next) /\
    acquisition_of_yield y = Some (Path mcd_file, acquisition) /\
    recovery_file y = None /\ recovered y = false.
Proof.
  intros ((p & Hc) & (i & Hr) & (cia & Hs)).
  unfold process_acquisition, _match_txt_file. rewrite Hc. cbn [List.filter].
  destruct (channel_ind_of acquisition) as [[ind|missing]|]; [|discriminate Hs|];
    unfold read_or_recover; rewrite Hr; eexists; (split; [reflexivity|]);
    repeat split; reflexivity.
Qed.

Lemma process_acquisitions_sound (mcd_file : pathlike) (acqs : list Acquisition) :
  Forall (sound_acquisition mcd_file) acqs ->
  exists evs,
    process_acquisitions mcd_file acqs [] = (evs, [], Next) /\
    omap acquisition_of_yield (yields evs) = map (fun a => (Path mcd_file, a)) acqs /\
    Forall (fun y => recovery_file y = None /\ recovered y = false) (yields evs).
Proof.
  induction 1 as [|a acqs Ha Hall (evs & IH & Hacq & Hrec)].
  - exists []. repeat split. constructor.
  - destruct (process_acquisition_sound _ _ Ha) as (y & Hp & Hy & Hrf & Hrd).
    exists (Yield y :: evs). cbn [process_acquisitions]. rewrite Hp, IH.
    split; [reflexivity|]. split.
    + change (yields (Yield y :: evs)) with ([y] ++ yields evs).
      rewrite omap_app, Hacq.
      change (omap acquisition_of_yield [y])
        with (match acquisition_of_yield y with Some x => [x] | None => [] end).
      rewrite Hy. reflexivity.
    + change (yields (Yield y :: evs)) with (y :: yields evs).
      constructor; [split; assumption | exact Hrec].
Qed.

Lemma process_slides_sound (mcd_file : pathlike) (sl : list Slide) :
  Forall (sound_acquisition mcd_file) (flat_map acquisitions sl) ->
  exists evs,
    process_slides mcd_file sl [] = (evs, [], Next) /\
    omap acquisition_of_yield (yields evs) =
      map (fun a => (Path mcd_file, a)) (flat_map acquisitions sl) /\
    Forall (fun y => recovery_file y = None /\ recovered y = false) (yields evs).
Proof.
  induction sl as [|s sl IH]; cbn [flat_map]; intros Hall.
  - exists []. repeat split. constructor.
  - apply Forall_app in Hall. destruct Hall as [Hs Hsl].
    destruct (process_acquisitions_sound _ _ Hs) as (e1 & H1 & Ha1 & Hr1).
    destruct (IH Hsl) as (e2 & H2 & Ha2 & Hr2).
    exists (e1 ++ e2). cbn [process_slides]. rewrite H1, H2.
    split; [reflexivity|]. rewrite yields_app, omap_app, map_app, Ha1, Ha2.
    split; [reflexivity | apply Forall_app; auto].
Qed.

Lemma process_mcd_files_sound (mcd_files : list pathlike) :
  (forall m f a, In m mcd_files -> MCDFile_open (Path m) = Ok f ->
     In a (flat_map acquisitions (slides f)) -> sound_acquisition m a) ->
  exists evs,
    process_mcd_files mcd_files [] = (evs, []) /\
    omap acquisition_of_yield (yields evs) = flat_map acquisitions_of mcd_files /\
    Forall (fun y => recovery_file y = None /\ recovered y = false) (yields evs).
Proof.
  induction mcd_files as [|m l IH]; intros Hall.
  - exists []. repeat split. constructor.
  - destruct IH as (e2 & H2 & Ha2 & Hr2).
    { intros m' f a Hm'. apply Hall. right. exact Hm'. }
    cbn [process_mcd_files flat_map]. unfold process_mcd_file, acquisitions_of at 1.
    destruct (MCDFile_open (Path m)) as [f|e] eqn:Ho.
    + destruct (process_slides_sound m (slides f)) as (e1 & H1 & Ha1 & Hr1).
      { apply Forall_forall. intros a Ha. apply list_elem_of_In in Ha.
        apply (Hall m f a); [left; reflexivity | exact Ho | exact Ha]. }
      rewrite H1, H2. exists (e1 ++ e2).
      split; [reflexivity|]. rewrite yields_app, omap_app, Ha1, Ha2.
      split; [reflexivity | apply Forall_app; auto].
    + rewrite H2. eexists. split; [reflexivity|]. split; [exact Ha2 | exact Hr2].
Qed.

(** X10: in a run without text files, when for every acquisition of the MCD
    files that can be opened the pattern compiles, the binary read succeeds
    and the requested channels are there, every such acquisition is yielded:
    the tuples are those acquisitions, file by file in processing order,
    none of them recovered or with a matched file. *)
Theorem every_sound_acquisition_is_yielded (mcd_files : list pathlike) :
  (forall m f a, In m mcd_files -> MCDFile_open (Path m) = Ok f ->
     In a (flat_map acquisitions (slides f)) -> sound_acquisition m a) ->
  omap acquisition_of_yield (yields (try_preprocess_images_from_disk mcd_files [])) =
    flat_map acquisitions_of (sorted_by_stem_reverse mcd_files) /\
  Forall (fun y => exists a, source_acquisition y = Some a /\
                             recovery_file y = None /\ recovered y = false)
    (yields (try_preprocess_images_from_disk mcd_files [])).
Proof.
  intros Hall. unfold try_preprocess_images_from_disk.
  destruct (process_mcd_files_sound (sorted_by_stem_reverse mcd_files))
    as (evs & Hp & Hacq & Hrec).
  { intros m f a Hm. apply Hall.
    apply (Permutation_in _ (sorted_by_stem_reverse_Permutation mcd_files)), Hm. }
  rewrite Hp. cbn [process_txt_files]. rewrite app_nil_r. split; [exact Hacq|].
  pose proof (process_mcd_files_blocks (sorted_by_stem_reverse mcd_files) []) as Hb.
  rewrite Hp in Hb. cbn [fst] in Hb.
  assert (Hsrc : Forall (fun y => exists a, source_acquisition y = Some a) (yields evs)).
  { rewrite Hb. eapply Forall2_concat_Forall.
    apply (mcd_blocks_Forall2 (fun _ y => exists a, source_acquisition y = Some a)).
    intros f a u e u' fl H. apply process_acquisition_provenance in H.
    eapply Forall_impl; [exact H|]. simpl. intros y (_ & _ & H2). eauto. }
  rewrite Forall_forall in Hsrc. rewrite Forall_forall in Hrec. apply Forall_forall.
  intros y Hy. destruct (Hsrc y Hy) as [a Ha]. exists a. split; [exact Ha|]. auto.
Qed.

End Generator.

Arguments Yield {image} y.
Arguments Log {image} l m.

(** ** A disk with a damaged MCD file

    [raw/a.mcd] holds one acquisition whose binary data cannot be read; its
    text export [raw/a_1.txt] and an unrelated text file [raw/b.txt] are
    readable.  Images are described by where they come from. *)

Inductive demo_image :=
| Raw (file : string)
| Indexed (i : demo_image) (channel_ind : list nat)
| Preprocessed (i : demo_image) (hpf : option float).

Definition acq1 : Acquisition :=
  {| id := 1; description := None;
     acq_channel_names := ["Ir191"; "Ir193"]; acq_channel_labels := ["DNA1"; "DNA2"];
     roi_points_um := Some ((0, 0), (1, 0), (1, 1), (0, 1))%float;
     width_um := Ok 1%float; height_um := Ok 1%float |}.

Definition demo_MCDFile_open (file : string) : res MCDFile :=
  if String.eqb file "raw/a.mcd"
  then Ok {| slides := [{| acquisitions := [acq1] |}] |}
  else Raise IOError.

Definition demo_mcd_read_acquisition (file : string) (a : Acquisition) : res demo_image :=
  Raise IOError.

(** The export of the acquisition lacks the channel [Ir193]. *)
Definition demo_TXTFile_open (file : string) : res TXTFile :=
  if String.eqb file "raw/a_1.txt"
  then Ok {| txt_channel_names := ["Ir191"]; txt_channel_labels := ["DNA1"] |}
  else if String.eqb file "raw/b.txt"
  then Ok {| txt_channel_names := ["Ir191"; "Ir193"]; txt_channel_labels := ["DNA1"; "DNA2"] |}
  else Raise IOError.

Definition demo_txt_read_acquisition (file : string) : res demo_image := Ok (Raw file).

Definition demo_run (channel_names_arg : option (list string)) (hpf : option float)
    (mcd_files txt_files : list pathlike) : list (event (image := demo_image)) :=
  try_preprocess_images_from_disk re_compile re_match
    demo_MCDFile_open demo_mcd_read_acquisition demo_TXTFile_open demo_txt_read_acquisition
    Indexed Preprocessed channel_names_arg hpf mcd_files txt_files.

Definition demo_step (channel_names_arg : option (list string)) (hpf : option float)
    (mcd_file : pathlike) (a : Acquisition) (unmatched : list pathlike) :=
  process_acquisition re_compile re_match
    demo_mcd_read_acquisition demo_TXTFile_open demo_txt_read_acquisition
    Indexed Preprocessed channel_names_arg hpf mcd_file a unmatched.

Example demo_run_recovers :
  yields (demo_run None None [AsPath "raw/a.mcd"] [AsPath "raw/a_1.txt"; AsPath "raw/b.txt"]) =
  [ {| source_file := "raw/a.mcd"; source_acquisition := Some acq1;
       img := Preprocessed (Raw "raw/a_1.txt") None;
       recovery_file := Some "raw/a_1.txt"; recovered := true |};
    {| source_file := "raw/b.txt"; source_acquisition := None;
       img := Preprocessed (Raw "raw/b.txt") None;
       recovery_file := None; recovered := false |} ].
Proof. reflexivity. Qed.

Example sorted_by_stem_reverse_example :
  sorted_by_stem_reverse
    [AsPath "x/a.mcd"; AsPath "x/ab.mcd"; AsPath "y/a.mcd"; AsPath "b.mcd"] =
  [AsPath "b.mcd"; AsPath "x/ab.mcd"; AsPath "x/a.mcd"; AsPath "y/a.mcd"].
Proof. reflexivity. Qed.

(** C2 as stated fails: the binary read raises [IOError], the export is
    matched and read, and yet nothing is yielded, because the export lacks
    the requested channel [Ir193]. *)
Lemma recovery_skipped_when_export_lacks_channel :
  demo_mcd_read_acquisition "raw/a.mcd" acq1 = Raise IOError /\
  _match_txt_file re_compile re_match (AsPath "raw/a.mcd") acq1 [AsPath "raw/a_1.txt"] =
    Ok (Some (AsPath "raw/a_1.txt"), []) /\
  demo_txt_read_acquisition "raw/a_1.txt" = Ok (Raw "raw/a_1.txt") /\
  yields (demo_run (Some ["Ir193"]) None [AsPath "raw/a.mcd"] [AsPath "raw/a_1.txt"]) = [].
Proof. repeat split; reflexivity. Qed.

Lemma recovered_image_replaces_failed_read_witness :
  snd (demo_step None None (AsPath "raw/a.mcd") acq1
         [AsPath "raw/a_1.txt"; AsPath "raw/b.txt"]) = Next /\
  yields (fst (fst (demo_step None None (AsPath "raw/a.mcd") acq1
                      [AsPath "raw/a_1.txt"; AsPath "raw/b.txt"]))) =
  [ {| source_file := "raw/a.mcd"; source_acquisition := Some acq1;
       img := Preprocessed (Raw "raw/a_1.txt") None;
       recovery_file := Some "raw/a_1.txt"; recovered := true |} ].
Proof.
  apply (proj1 (recovered_image_replaces_failed_read re_compile re_match
                  demo_MCDFile_open demo_mcd_read_acquisition demo_TXTFile_open
                  demo_txt_read_acquisition Indexed Preprocessed None None)
           (AsPath "raw/a.mcd") acq1 [AsPath "raw/a_1.txt"; AsPath "raw/b.txt"]
           (AsPath "raw/a_1.txt") []
           {| txt_channel_names := ["Ir191"]; txt_channel_labels := ["DNA1"] |}
           (Raw "raw/a_1.txt") None None); reflexivity.
Defined.



(** A run in order: [raw/x.mcd], of the greater stem, comes first and cannot
    be opened; then the acquisition of [raw/a.mcd] is restored from its
    export; then the text file left unmatched is read. *)
Example demo_run_in_order :
  demo_run None None [AsPath "raw/a.mcd"; AsPath "raw/x.mcd"]
    [AsPath "raw/b.txt"; AsPath "raw/a_1.txt"] =
  [ Log EXCEPTION (ErrorReadingFile (AsPath "raw/x.mcd"));
    Log WARNING (ErrorReadingAcquisition 1 (AsPath "raw/a.mcd"));
    Log WARNING (RestoringFromFile (AsPath "raw/a_1.txt"));
    Yield {| source_file := "raw/a.mcd"; source_acquisition := Some acq1;
             img := Preprocessed (Raw "raw/a_1.txt") None;
             recovery_file := Some "raw/a_1.txt"; recovered := true |};
    Yield {| source_file := "raw/b.txt"; source_acquisition := None;
             img := Preprocessed (Raw "raw/b.txt") None;
             recovery_file := None; recovered := false |} ].
Proof. reflexivity. Qed.

Lemma mcd_files_descending_then_txt_files_witness :
  demo_step None None (AsPath "raw/a.mcd") acq1 [AsPath "raw/b.txt"; AsPath "raw/a_1.txt"] =
    ([ Log WARNING (ErrorReadingAcquisition 1 (AsPath "raw/a.mcd"));
       Log WARNING (RestoringFromFile (AsPath "raw/a_1.txt"));
       Yield {| source_file := "raw/a.mcd"; source_acquisition := Some acq1;
                img := Preprocessed (Raw "raw/a_1.txt") None;
                recovery_file := Some "raw/a_1.txt"; recovered := true |} ],
     [AsPath "raw/b.txt"], Next) /\
  Permutation [AsPath "raw/b.txt"; AsPath "raw/a_1.txt"]
    [AsPath "raw/a_1.txt"; AsPath "raw/b.txt"] /\
  (List.length
     (yields (fst (fst (demo_step None None (AsPath "raw/a.mcd") acq1
                          [AsPath "raw/b.txt"; AsPath "raw/a_1.txt"])))) <= 1)%nat.
Proof.
  assert (Hstep : demo_step None None (AsPath "raw/a.mcd") acq1
                    [AsPath "raw/b.txt"; AsPath "raw/a_1.txt"] =
    ([ Log WARNING (ErrorReadingAcquisition 1 (AsPath "raw/a.mcd"));
       Log WARNING (RestoringFromFile (AsPath "raw/a_1.txt"));
       Yield {| source_file := "raw/a.mcd"; source_acquisition := Some acq1;
                img := Preprocessed (Raw "raw/a_1.txt") None;
                recovery_file := Some "raw/a_1.txt"; recovered := true |} ],
     [AsPath "raw/b.txt"], Next)) by reflexivity.
  split; [exact Hstep|].
  destruct (proj2 (proj2 (proj2 (proj2
              (mcd_files_descending_then_txt_files re_compile re_match
                 demo_MCDFile_open demo_mcd_read_acquisition demo_TXTFile_open
                 demo_txt_read_acquisition Indexed Preprocessed None None
                 [AsPath "raw/a.mcd"; AsPath "raw/x.mcd"]
                 [AsPath "raw/b.txt"; AsPath "raw/a_1.txt"]))))
              (AsPath "raw/a.mcd") acq1 [AsPath "raw/b.txt"; AsPath "raw/a_1.txt"]
              _ _ _ Hstep)
    as (_ & Hone & _ & _ & Hperm).
  split; [exact Hperm|].
  rewrite Hstep. exact Hone.
Defined.

(** C9 as stated fails: a path given twice is yielded twice. *)
Lemma repeated_txt_file_is_yielded_twice :
  omap txt_path_of (yields (demo_run None None [] [AsPath "raw/b.txt"; AsPath "raw/b.txt"])) =
    ["raw/b.txt"; "raw/b.txt"] /\
  ~ NoDup (omap txt_path_of
             (yields (demo_run None None [] [AsPath "raw/b.txt"; AsPath "raw/b.txt"]))).
Proof.
  split; [reflexivity|].
  change (~ NoDup ["raw/b.txt"; "raw/b.txt"]).
  intros H. inversion H as [|x l Hn _]. apply Hn. left.
Qed.

(** So is a path written in two ways: the texts differ, the paths do not. *)
Example txt_file_written_in_two_ways :
  Path (AsStr "./raw/b.txt") = Path (AsStr "raw/b.txt") /\
  Path (AsStr "raw//b.txt") = Path (AsStr "raw/b.txt") /\
  ~ NoDup (Path <$> [AsStr "raw/b.txt"; AsStr "./raw/b.txt"]) /\
  omap txt_path_of
    (yields (demo_run None None [] [AsStr "raw/b.txt"; AsStr "./raw/b.txt"])) =
    ["raw/b.txt"; "raw/b.txt"].
Proof.
  split; [reflexivity|]. split; [reflexivity|]. split; [|reflexivity].
  change (~ NoDup ["raw/b.txt"; "raw/b.txt"]).
  intros H. inversion H as [|x l Hn _]. apply Hn. left.
Qed.

Lemma txt_file_consumed_at_most_once_witness :
  NoDup (Path <$> [AsPath "raw/a_1.txt"; AsPath "raw/b.txt"]) /\
  NoDup (omap txt_path_of
           (yields (demo_run None None [AsPath "raw/a.mcd"]
                      [AsPath "raw/a_1.txt"; AsPath "raw/b.txt"]))).
Proof.
  assert (H : NoDup (Path <$> [AsPath "raw/a_1.txt"; AsPath "raw/b.txt"])).
  { apply (bool_decide_unpack _). vm_compute. exact I. }
  split; [exact H|].
  apply (proj2 (txt_file_consumed_at_most_once re_compile re_match
                  demo_MCDFile_open demo_mcd_read_acquisition demo_TXTFile_open
                  demo_txt_read_acquisition Indexed Preprocessed None None
                  [AsPath "raw/a.mcd"] [AsPath "raw/a_1.txt"; AsPath "raw/b.txt"])).
  exact H.
Defined.

(** The export of the acquisition is withdrawn although the acquisition is
    skipped for the missing channel [Ir195]. *)
Lemma matched_txt_file_is_withdrawn_witness :
  Permutation [AsPath "raw/a_1.txt"; AsPath "raw/b.txt"]
    (AsPath "raw/a_1.txt" ::
     snd (fst (demo_step (Some ["Ir195"]) None (AsPath "raw/a.mcd") acq1
                 [AsPath "raw/a_1.txt"; AsPath "raw/b.txt"]))) /\
  Forall (fun y => recovery_file y = Some (Path (AsPath "raw/a_1.txt")))
    (yields (fst (fst (demo_step (Some ["Ir195"]) None (AsPath "raw/a.mcd") acq1
                         [AsPath "raw/a_1.txt"; AsPath "raw/b.txt"])))).
Proof.
  unfold demo_step. eapply matched_txt_file_is_withdrawn. reflexivity.
Defined.

(** [raw/x.mcd] cannot be opened: both text files are standalone, also the
    one that is named like an export. *)
Lemma unopened_mcd_files_leave_txt_files_standalone_witness :
  demo_run None None [AsPath "raw/x.mcd"] [AsPath "raw/x_1.txt"; AsPath "raw/b.txt"] =
  [ Log EXCEPTION (ErrorReadingFile (AsPath "raw/x.mcd"));
    Log EXCEPTION (ErrorReadingFile (AsPath "raw/x_1.txt"));
    Yield {| source_file := "raw/b.txt"; source_acquisition := None;
             img := Preprocessed (Raw "raw/b.txt") None;
             recovery_file := None; recovered := false |} ].
Proof.
  unfold demo_run.
  rewrite unopened_mcd_files_leave_txt_files_standalone; [reflexivity|].
  intros m [<-|[]]. exists IOError. reflexivity.
Defined.

(** The same disk with the binary data intact. *)
Definition intact_mcd_read_acquisition (file : string) (a : Acquisition) : res demo_image :=
  Ok (Raw file).

Definition intact_run (channel_names_arg : option (list string)) (hpf : option float)
    (mcd_files txt_files : list pathlike) : list (event (image := demo_image)) :=
  try_preprocess_images_from_disk re_compile re_match
    demo_MCDFile_open intact_mcd_read_acquisition demo_TXTFile_open demo_txt_read_acquisition
    Indexed Preprocessed channel_names_arg hpf mcd_files txt_files.

Lemma every_sound_acquisition_is_yielded_witness :
  omap acquisition_of_yield
    (yields (intact_run (Some ["Ir193"]) None [AsPath "raw/a.mcd"; AsPath "raw/x.mcd"] [])) =
  [("raw/a.mcd", acq1)].
Proof.
  unfold intact_run.
  etransitivity; [eapply proj1, every_sound_acquisition_is_yielded | reflexivity].
  intros m f a [<-|[<-|[]]] Ho Ha; [|discriminate Ho].
  injection Ho as <-. destruct Ha as [<-|[]].
  split; [|split]; eexists; reflexivity.
Defined.

(** ** [_match_txt_file] on the modelled fragment *)

(** X5: with a pattern that compiles, [_match_txt_file] returns a file
    exactly when one file of the sequence, and no other, is accepted by the
    pattern; that file is the one returned. *)
Lemma _match_txt_file_exactly_one {pattern : Type} (compile : string -> res pattern)
    (matches : pattern -> string -> bool) (mcd_file : pathlike) (acquisition : Acquisition)
    (txt_files : list pathlike) (p : pattern) (t : pathlike) :
  compile (txt_file_name_pattern mcd_file acquisition) = Ok p ->
  (exists lg, _match_txt_file compile matches mcd_file acquisition txt_files = Ok (Some t, lg)) <->
  List.filter (fun txt_file => matches p (path_name (Path txt_file))) txt_files = [t].
Proof.
  intros Hc. unfold _match_txt_file. rewrite Hc.
  destruct (List.filter _ txt_files) as [|x [|x' l]].
  - split; [intros [lg H]; discriminate | discriminate].
  - split; [intros [lg [= ->]]; reflexivity | intros [= ->]; eauto].
  - split; [|discriminate].
    intros [lg H]. destruct (join_strs (x :: x' :: l)); discriminate.
Qed.

(** The pattern in the words of the specification: the stem, any characters,
    an underscore, zeros, the acquisition id and [".txt"]. *)
Definition named_for (stem : string) (acquisition_id : Z) (name : string) : Prop :=
  exists middle k,
    name = stem +:+ middle +:+ "_" +:+ text (repeat "0"%char k)
                +:+ pretty acquisition_id +:+ ".txt".

Lemma chars_app (a b : string) : chars (a +:+ b) = chars a ++ chars b.
Proof. induction a as [|c a IH]; simpl; [reflexivity | f_equal; exact IH]. Qed.

Lemma named_for_ends_with_t (stem : string) (acquisition_id : Z) (name : string) :
  named_for stem acquisition_id name -> hd " "%char (rev (chars name)) = "t"%char.
Proof.
  intros (middle & k & ->).
  rewrite !chars_app, !app_assoc, rev_app_distr. reflexivity.
Qed.

(** C4 fails on the code.  Two matching candidates given as path objects
    make the function raise [TypeError] while it builds its warning, instead
    of returning [None]; given as strings they give [None] with the warning.
    The stem and the dot of the pattern are read as regular expression
    syntax, and only a prefix of the name has to match: the only file named
    for the acquisition of [a+b.mcd] is not returned, and a file not named
    for the acquisition of [a.mcd] is returned. *)
Theorem _match_txt_file_divergences :
  _match_txt_file re_compile re_match (AsPath "raw/a.mcd") acq1
    [AsPath "raw/x/a_1.txt"; AsPath "raw/y/a_1.txt"] = Raise TypeError /\
  _match_txt_file re_compile re_match (AsStr "raw/a.mcd") acq1
    [AsStr "raw/x/a_1.txt"; AsStr "raw/y/a_1.txt"] =
    Ok (None, [(WARNING, AmbiguousMatching (AsStr "raw/a.mcd")
                           ["raw/x/a_1.txt"; "raw/y/a_1.txt"])]) /\
  (named_for (path_stem "raw/a+b.mcd") (id acq1) (path_name "raw/a+b_1.txt") /\
   _match_txt_file re_compile re_match (AsPath "raw/a+b.mcd") acq1
     [AsPath "raw/a+b_1.txt"] = Ok (None, [])) /\
  (~ named_for (path_stem "raw/a.mcd") (id acq1) (path_name "raw/a_1.txt.bak") /\
   _match_txt_file re_compile re_match (AsPath "raw/a.mcd") acq1
     [AsPath "raw/a_1.txt.bak"] = Ok (Some (AsPath "raw/a_1.txt.bak"), [])).
Proof.
  split; [reflexivity|]. split; [reflexivity|]. split; split; try reflexivity.
  - exists "", 0. reflexivity.
  - intros H. apply named_for_ends_with_t in H. discriminate H.
Qed.

Lemma _match_txt_file_exactly_one_witness :
  exists p,
    re_compile (txt_file_name_pattern (AsPath "raw/a.mcd") acq1) = Ok p /\
    ((exists lg, _match_txt_file re_compile re_match (AsPath "raw/a.mcd") acq1
                   [AsPath "raw/a_1.txt"; AsPath "raw/b.txt"] =
                 Ok (Some (AsPath "raw/a_1.txt"), lg)) <->
     List.filter (fun txt_file => re_match p (path_name (Path txt_file)))
       [AsPath "raw/a_1.txt"; AsPath "raw/b.txt"] = [AsPath "raw/a_1.txt"]).
Proof.
  eexists. split; [reflexivity|].
  apply (_match_txt_file_exactly_one re_compile re_match). reflexivity.
Defined.

(** *** Stems that extend one another

    MCD files are gone through in descending order of their stems because
    the pattern of a stem also accepts the exports of every longer stem. *)

(** A character that stands for itself in a pattern and is met by ["."]. *)
Definition plain (c : ascii) : bool :=
  match quant_of c with
  | Some _ => false
  | None => negb (is_other_special c) && negb (is_dot c) && negb (Ascii.eqb c "010")
  end.

Definition literals (cs : list ascii) : regex := map (fun c => (Lit c, One)) cs.

Lemma plain_inv (c : ascii) :
  plain c = true ->
  quant_of c = None /\ is_other_special c = false /\ is_dot c = false /\
  Ascii.eqb c "010" = false.
Proof.
  unfold plain. destruct (quant_of c); [discriminate|].
  destruct (is_other_special c), (is_dot c), (Ascii.eqb c "010"); simpl;
    try discriminate; auto.
Qed.

(** What was parsed before is left alone by what follows, but for the item a
    repetition may still apply to. *)
Lemma parse_regex_acc (cs : list ascii) :
  forall st acc1 acc2,
    (st = PAtom -> acc1 <> []) ->
    parse_regex st (acc1 ++ acc2) cs =
    option_map (fun r => rev acc2 ++ r) (parse_regex st acc1 cs).
Proof.
  induction cs as [|c cs IH]; intros st acc1 acc2 Hst; simpl.
  - rewrite rev_app_distr. reflexivity.
  - destruct (quant_of c) as [q|].
    + destruct st.
      * destruct acc1; [destruct acc2|]; reflexivity.
      * destruct acc1 as [|[a q0] acc1]; [exfalso; apply Hst; reflexivity|].
        simpl. apply (IH PQuant ((a, q) :: acc1)). discriminate.
      * destruct q; try reflexivity. apply IH. discriminate.
      * destruct acc1; [destruct acc2|]; reflexivity.
    + destruct (is_other_special c); [reflexivity|].
      destruct (is_dot c).
      * apply (IH PAtom ((AnyChar, One) :: acc1)). discriminate.
      * apply (IH PAtom ((Lit c, One) :: acc1)). discriminate.
Qed.

Lemma parse_regex_plain_dot (cs : list ascii) :
  forall st acc rest,
    Forall (fun c => plain c = true) cs ->
    parse_regex st acc (cs ++ "."%char :: rest) =
    parse_regex PAtom ((AnyChar, One) :: rev (literals cs) ++ acc) rest.
Proof.
  induction cs as [|c cs IH]; intros st acc rest Hall.
  - reflexivity.
  - inversion Hall as [|? ? Hc Hall']; subst.
    destruct (plain_inv _ Hc) as (Hq & Hs & Hd & _).
    cbn [app parse_regex]. rewrite Hq, Hs, Hd.
    rewrite (IH PAtom _ rest Hall'). cbn [literals map rev].
    rewrite <- app_assoc. reflexivity.
Qed.

(** The pattern of a plain stem: its letters, then [".*"], then the rest. *)
Lemma re_compile_stem (stem rest : string) :
  Forall (fun c => plain c = true) (chars stem) ->
  re_compile (stem +:+ ".*" +:+ rest) =
  match parse_regex PQuant [] (chars rest) with
  | Some r => Ok (literals (chars stem) ++ (AnyChar, Star) :: r)
  | None => Raise re_error
  end.
Proof.
  intros Hall. unfold re_compile. rewrite chars_app.
  change (chars (".*" +:+ rest)) with ("."%char :: "*"%char :: chars rest).
  rewrite (parse_regex_plain_dot _ PStart [] _ Hall).
  cbn [parse_regex]. change (quant_of "*") with (Some Star). cbv iota.
  rewrite app_nil_r.
  pose proof (parse_regex_acc (chars rest) PQuant []
                ((AnyChar, Star) :: rev (literals (chars stem)))) as Hacc.
  cbn [app] in Hacc. rewrite Hacc by discriminate.
  destruct (parse_regex PQuant [] (chars rest)) as [r|]; simpl; [|reflexivity].
  rewrite rev_involutive, <- app_assoc. reflexivity.
Qed.

Lemma prefix_matches_literals (cs : list ascii) (r : regex) :
  forall s,
    prefix_matches (literals cs ++ r) s = true <->
    exists rest, s = cs ++ rest /\ prefix_matches r rest = true.
Proof.
  induction cs as [|c cs IH]; intros s.
  - simpl. split; [intros Hm; exists s; auto | intros (rest & -> & Hm); exact Hm].
  - destruct s as [|d s].
    + split; [discriminate | intros (rest & Hs & _); discriminate Hs].
    + change (prefix_matches (literals (c :: cs) ++ r) (d :: s))
        with (Ascii.eqb d c && prefix_matches (literals cs ++ r) s).
      rewrite andb_true_iff, Ascii.eqb_eq, IH. split.
      * intros (-> & rest & -> & Hm). exists rest. auto.
      * intros (rest & [= -> ->] & Hm). split; [reflexivity|]. exists rest. auto.
Qed.

Lemma prefix_matches_star_cons (a : atom) (r : regex) (c : ascii) (s : list ascii) :
  prefix_matches ((a, Star) :: r) (c :: s) =
  prefix_matches r (c :: s) || (atom_matches a c && prefix_matches ((a, Star) :: r) s).
Proof. reflexivity. Qed.

(** [".*"] takes up any characters but newlines. *)
Lemma star_absorbs (r : regex) (x rest : list ascii) :
  Forall (fun c => Ascii.eqb c "010" = false) x ->
  prefix_matches ((AnyChar, Star) :: r) rest = true ->
  prefix_matches ((AnyChar, Star) :: r) (x ++ rest) = true.
Proof.
  intros Hall Hm. induction Hall as [|c x Hc Hall IH]; [exact Hm|].
  cbn [app]. rewrite prefix_matches_star_cons, IH.
  unfold atom_matches. rewrite Hc. apply orb_true_r.
Qed.

(** X6: when the stem of one MCD file properly extends the stem of another
    (both made of plain characters), the file of the longer stem has the
    greater sort key, and every name accepted for one of its acquisitions is
    also accepted for the acquisition of the same id of the other file. *)
Theorem longer_stem_names_match_shorter_stem (mcd_short mcd_long : pathlike)
    (a_short a_long : Acquisition) (x name : string) (p_long : regex) :
  path_stem (Path mcd_long) = path_stem (Path mcd_short) +:+ x ->
  x <> "" ->
  Forall (fun c => plain c = true) (chars (path_stem (Path mcd_long))) ->
  id a_short = id a_long ->
  re_compile (txt_file_name_pattern mcd_long a_long) = Ok p_long ->
  re_match p_long name = true ->
  String.ltb (path_stem (Path mcd_short)) (path_stem (Path mcd_long)) = true /\
  exists p_short,
    re_compile (txt_file_name_pattern mcd_short a_short) = Ok p_short /\
    re_match p_short name = true.
Proof.
  intros Hstem Hx Hplain Hid Hc Hm. split.
  { rewrite Hstem. apply string_ltb_proper_prefix, Hx. }
  unfold txt_file_name_pattern in *. rewrite Hid.
  set (rest := "_0*" +:+ pretty (id a_long) +:+ ".txt") in *.
  change (path_stem (Path mcd_long) +:+ ".*_0*" +:+ pretty (id a_long) +:+ ".txt")
    with (path_stem (Path mcd_long) +:+ ".*" +:+ rest) in Hc.
  change (path_stem (Path mcd_short) +:+ ".*_0*" +:+ pretty (id a_long) +:+ ".txt")
    with (path_stem (Path mcd_short) +:+ ".*" +:+ rest).
  rewrite Hstem, chars_app in Hplain. apply Forall_app in Hplain.
  destruct Hplain as [Hshort Hext].
  rewrite re_compile_stem in Hc by (rewrite Hstem, chars_app; apply Forall_app; auto).
  rewrite re_compile_stem by exact Hshort.
  destruct (parse_regex PQuant [] (chars rest)) as [r|]; [|discriminate].
  apply Ok_inj in Hc. subst p_long.
  eexists. split; [reflexivity|].
  unfold re_match in *. apply prefix_matches_literals in Hm.
  destruct Hm as (tail & Hname & Htail).
  apply prefix_matches_literals. rewrite Hstem, chars_app, <- app_assoc in Hname.
  exists (chars x ++ tail). split; [exact Hname|].
  apply star_absorbs; [|exact Htail].
  eapply Forall_impl; [exact Hext|].
  intros c Hc. apply plain_inv in Hc. tauto.
Qed.

Lemma longer_stem_names_match_shorter_stem_witness :
  String.ltb (path_stem (Path (AsStr "raw/a.mcd"))) (path_stem (Path (AsStr "raw/ab.mcd"))) = true /\
  exists p_short,
    re_compile (txt_file_name_pattern (AsStr "raw/a.mcd") acq1) = Ok p_short /\
    re_match p_short "ab_001.txt" = true.
Proof.
  eapply (longer_stem_names_match_shorter_stem (AsStr "raw/a.mcd") (AsStr "raw/ab.mcd")
            acq1 acq1 "b" "ab_001.txt").
  - reflexivity.
  - discriminate.
  - repeat constructor.
  - reflexivity.
  - reflexivity.
  - reflexivity.
Defined.

(** ** [create_image_info]

    The row is a [dict]; only the shape of the image is read. *)

Inductive value :=
| VNone
| VStr (s : string)
| VInt (n : Z)
| VBool (b : bool)
| VFloat (x : float).

(** [shape[i]], an [IndexError] past the last axis. *)
Definition shape_item (shape : list nat) (i : nat) : res value :=
  match nth_error shape i with
  | Some n => Ok (VInt (Z.of_nat n))
  | None => Raise IndexError
  end.

Definition optional_str (s : option string) : value :=
  match s with Some s => VStr s | None => VNone end.

(** What reading the geometry of an acquisition raises, if anything: the
    region of interest is subscripted first, then the width and the height
    are read. *)
Definition geometry_error (acquisition : Acquisition) : option exn :=
  match roi_points_um acquisition with
  | None => Some TypeError
  | Some _ =>
      match width_um acquisition with
      | Raise e => Some e
      | Ok _ =>
          match height_um acquisition with
          | Raise e => Some e
          | Ok _ => None
          end
      end
  end.

(** [image_info_row.update({...})] for the acquisition. *)
Definition acquisition_info (acquisition : Acquisition) (row : gmap string value)
    : res (gmap string value) :=
  match roi_points_um acquisition with
  | None => Raise TypeError
  | Some (p0, _, p2, _) =>
      match width_um acquisition with
      | Raise e => Raise e
      | Ok width =>
          match height_um acquisition with
          | Raise e => Raise e
          | Ok height =>
              Ok (<["acquisition_height_um" := VFloat height]>
                 (<["acquisition_width_um" := VFloat width]>
                 (<["acquisition_end_y_um" := VFloat (snd p2)]>
                 (<["acquisition_end_x_um" := VFloat (fst p2)]>
                 (<["acquisition_start_y_um" := VFloat (snd p0)]>
                 (<["acquisition_start_x_um" := VFloat (fst p0)]>
                 (<["acquisition_description" := optional_str (description acquisition)]>
                 (<["acquisition_id" := VInt (id acquisition)]> row))))))))
          end
      end
  end.

Definition create_image_info (mcd_txt_file : pathlike) (acquisition : option Acquisition)
    (img_shape : list nat) (recovery_file : option pathlike) (recovered : bool)
    (img_file : pathlike) : res (gmap string value) :=
  let recovery_file_name :=
    optional_str (option_map (fun f => path_name (Path f)) recovery_file) in
  match shape_item img_shape 2 with
  | Raise e => Raise e
  | Ok width_px =>
  match shape_item img_shape 1 with
  | Raise e => Raise e
  | Ok height_px =>
  match shape_item img_shape 0 with
  | Raise e => Raise e
  | Ok num_channels =>
      let image_info_row : gmap string value :=
        <["recovered" := VBool recovered]>
        (<["recovery_file" := recovery_file_name]>
        (<["source_file" := VStr (path_name (Path mcd_txt_file))]>
        (<["num_channels" := num_channels]>
        (<["height_px" := height_px]>
        (<["width_px" := width_px]>
        (<["image" := VStr (path_name (Path img_file))]> ∅)))))) in
      match acquisition with
      | Some a => acquisition_info a image_info_row
      | None => Ok image_info_row
      end
  end end end.

Definition geometry_keys : list string :=
  ["acquisition_id"; "acquisition_description";
   "acquisition_start_x_um"; "acquisition_start_y_um";
   "acquisition_end_x_um"; "acquisition_end_y_um";
   "acquisition_width_um"; "acquisition_height_um"].

(** What the row says about the acquisition. *)
Definition geometry_of (acquisition : Acquisition) (row : gmap string value) : Prop :=
  exists p0 p1 p2 p3 width height,
    roi_points_um acquisition = Some (p0, p1, p2, p3) /\
    width_um acquisition = Ok width /\ height_um acquisition = Ok height /\
    row !! "acquisition_id" = Some (VInt (id acquisition)) /\
    row !! "acquisition_description" = Some (optional_str (description acquisition)) /\
    row !! "acquisition_start_x_um" = Some (VFloat (fst p0)) /\
    row !! "acquisition_start_y_um" = Some (VFloat (snd p0)) /\
    row !! "acquisition_end_x_um" = Some (VFloat (fst p2)) /\
    row !! "acquisition_end_y_um" = Some (VFloat (snd p2)) /\
    row !! "acquisition_width_um" = Some (VFloat width) /\
    row !! "acquisition_height_um" = Some (VFloat height).

Lemma geometry_error_None (a : Acquisition) :
  geometry_error a = None ->
  exists p0 p1 p2 p3 width height,
    roi_points_um a = Some (p0, p1, p2, p3) /\
    width_um a = Ok width /\ height_um a = Ok height.
Proof.
  unfold geometry_error.
  destruct (roi_points_um a) as [[[[p0 p1] p2] p3]|]; [|discriminate].
  destruct (width_um a) as [w|]; [|discriminate].
  destruct (height_um a) as [h|]; [|discriminate].
  intros _. exists p0, p1, p2, p3, w, h. auto.
Qed.

Lemma acquisition_info_Raise (a : Acquisition) (row : gmap string value) (e : exn) :
  acquisition_info a row = Raise e <-> geometry_error a = Some e.
Proof.
  unfold acquisition_info, geometry_error.
  destruct (roi_points_um a) as [[[[p0 p1] p2] p3]|]; [|split; congruence].
  destruct (width_um a) as [w|]; [|split; congruence].
  destruct (height_um a) as [h|]; split; congruence.
Qed.

(** C7, amended: for an image with at least three axes and an acquisition
    (if one is given) whose region of interest is recorded and whose width
    and height can be read, the record is returned, with the three sizes,
    the base names, the recovery flag and file, and with the geometry fields
    exactly when an acquisition is given. *)
Theorem create_image_info_row (mcd_txt_file : pathlike) (acquisition : option Acquisition)
    (img_shape : list nat) (recovery_file : option pathlike) (recovered : bool)
    (img_file : pathlike) :
  3 <= List.length img_shape ->
  (forall a, acquisition = Some a -> geometry_error a = None) ->
  exists row,
    create_image_info mcd_txt_file acquisition img_shape recovery_file recovered img_file
      = Ok row /\
    row !! "width_px" = Some (VInt (Z.of_nat (nth 2 img_shape 0))) /\
    row !! "height_px" = Some (VInt (Z.of_nat (nth 1 img_shape 0))) /\
    row !! "num_channels" = Some (VInt (Z.of_nat (nth 0 img_shape 0))) /\
    row !! "image" = Some (VStr (path_name (Path img_file))) /\
    row !! "source_file" = Some (VStr (path_name (Path mcd_txt_file))) /\
    row !! "recovered" = Some (VBool recovered) /\
    row !! "recovery_file" =
      Some (match recovery_file with
            | Some f => VStr (path_name (Path f))
            | None => VNone
            end) /\
    (forall k, In k geometry_keys -> (is_Some (row !! k) <-> is_Some acquisition)) /\
    (forall a, acquisition = Some a -> geometry_of a row).
Proof.
  intros Hlen Hgeo.
  destruct img_shape as [|c [|h [|w rest]]]; simpl in Hlen; try lia.
  unfold create_image_info. cbn [shape_item nth_error nth].
  destruct acquisition as [a|].
  - destruct (geometry_error_None a (Hgeo a eq_refl))
      as (p0 & p1 & p2 & p3 & width & height & Hroi & Hw & Hh).
    unfold acquisition_info. rewrite Hroi, Hw, Hh.
    eexists. split; [reflexivity|].
    split_and!; try (destruct recovery_file; by simplify_map_eq).
    + intros k Hk. split; [eauto|]. intros _. simpl in Hk.
      repeat (destruct Hk as [<-|Hk]; [by simplify_map_eq|]). destruct Hk.
    + intros a' [= <-]. exists p0, p1, p2, p3, width, height.
      split_and!; try assumption; by simplify_map_eq.
  - eexists. split; [reflexivity|].
    split_and!; try (destruct recovery_file; by simplify_map_eq).
    + intros k Hk. split; [|intros [? [=]]]. simpl in Hk.
      repeat (destruct Hk as [<-|Hk]; [by simplify_map_eq|]). destruct Hk.
Qed.

Lemma create_image_info_row_witness :
  3 <= List.length [2; 4; 5]%nat /\
  geometry_error acq1 = None /\
  exists row,
    create_image_info (AsPath "raw/a.mcd") (Some acq1) [2; 4; 5]%nat
      (Some (AsPath "raw/a_1.txt")) true (AsPath "img/a_001.tiff") = Ok row /\
    row !! "width_px" = Some (VInt 5) /\
    row !! "recovery_file" = Some (VStr "a_1.txt") /\
    geometry_of acq1 row.
Proof.
  split; [simpl; lia|]. split; [reflexivity|].
  destruct (create_image_info_row (AsPath "raw/a.mcd") (Some acq1) [2; 4; 5]%nat
              (Some (AsPath "raw/a_1.txt")) true (AsPath "img/a_001.tiff"))
    as (row & H1 & H2 & _ & _ & _ & _ & _ & H8 & _ & H10);
    [simpl; lia | intros a [= <-]; reflexivity |].
  exists row. split; [exact H1|]. split; [exact H2|]. split; [exact H8|].
  apply H10. reflexivity.
Defined.

(** An acquisition recorded without the points of its region. *)
Definition acq_without_roi : Acquisition :=
  {| id := 2; description := None;
     acq_channel_names := ["Ir191"; "Ir193"]; acq_channel_labels := ["DNA1"; "DNA2"];
     roi_points_um := None;
     width_um := Ok 1%float; height_um := Ok 1%float |}.

(** C7 as stated fails: for an acquisition without the points of its region
    the subscript [roi_points_um[0][0]] raises, whatever the image is. *)
Lemma create_image_info_raises_without_roi :
  3 <= List.length [2; 4; 5]%nat /\
  create_image_info (AsPath "raw/a.mcd") (Some acq_without_roi) [2; 4; 5]%nat
    None false (AsPath "img/a_002.tiff") = Raise TypeError.
Proof. split; [simpl; lia | reflexivity]. Qed.

Lemma shape_item_Raise (shape : list nat) (i : nat) (e : exn) :
  shape_item shape i = Raise e <-> (List.length shape <= i)%nat /\ e = IndexError.
Proof.
  unfold shape_item. destruct (nth_error shape i) as [n|] eqn:Hn.
  - split; [discriminate|]. intros [Hlen _].
    apply nth_error_None in Hlen. congruence.
  - apply nth_error_None in Hn. split; [intros [= <-]; auto | intros [_ ->]; reflexivity].
Qed.

(** X11: [create_image_info] raises an [IndexError] exactly when the image
    has fewer than three axes; with three axes or more it raises exactly
    when an acquisition is given whose geometry cannot be read (a
    [TypeError] without the points of the region, else what reading the
    width or the height raises); the paths and the recovery arguments never
    make it fail. *)
Theorem create_image_info_raises (mcd_txt_file : pathlike) (acquisition : option Acquisition)
    (img_shape : list nat) (recovery_file : option pathlike) (recovered : bool)
    (img_file : pathlike) (e : exn) :
  create_image_info mcd_txt_file acquisition img_shape recovery_file recovered img_file
    = Raise e <->
  ((List.length img_shape < 3)%nat /\ e = IndexError) \/
  ((3 <= List.length img_shape)%nat /\
   exists a, acquisition = Some a /\ geometry_error a = Some e).
Proof.
  unfold create_image_info.
  destruct (shape_item img_shape 2) as [w|e2] eqn:H2.
  - assert (Hlen : (2 < List.length img_shape)%nat).
    { unfold shape_item in H2. destruct (nth_error img_shape 2) eqn:Hn; [|discriminate].
      apply nth_error_Some. congruence. }
    destruct (shape_item img_shape 1) as [h|e1] eqn:H1;
      [|apply shape_item_Raise in H1; lia].
    destruct (shape_item img_shape 0) as [c|e0] eqn:H0;
      [|apply shape_item_Raise in H0; lia].
    destruct acquisition as [a|].
    + rewrite acquisition_info_Raise. split.
      * intros Hg. right. split; [lia|]. exists a. auto.
      * intros [[Hlt _] | [_ (a' & [= <-] & Hg)]]; [lia | exact Hg].
    + split; [discriminate|].
      intros [[Hlt _] | [_ (a' & Ha & _)]]; [lia | discriminate].
  - apply shape_item_Raise in H2. destruct H2 as [Hlen ->]. split.
    + intros [= <-]. left. split; [lia | reflexivity].
    + intros [[_ ->] | [Hge _]]; [reflexivity | lia].
Qed.

Lemma create_image_info_raises_witness :
  create_image_info (AsPath "raw/b.txt") None [4; 5]%nat None false (AsPath "img/b.tiff")
    = Raise IndexError.
Proof.
  apply (proj2 (create_image_info_raises (AsPath "raw/b.txt") None [4; 5]%nat None false
                  (AsPath "img/b.tiff") IndexError)).
  left. split; [simpl; lia | reflexivity].
Defined.

Definition image_keys : list string :=
  ["image"; "width_px"; "height_px"; "num_channels";
   "source_file"; "recovery_file"; "recovered"].

(** X12: the keys of a returned record are the seven image keys and, when an
    acquisition is given, the eight acquisition keys; there is no other
    key. *)
Theorem create_image_info_keys (mcd_txt_file : pathlike) (acquisition : option Acquisition)
    (img_shape : list nat) (recovery_file : option pathlike) (recovered : bool)
    (img_file : pathlike) (row : gmap string value) :
  create_image_info mcd_txt_file acquisition img_shape recovery_file recovered img_file
    = Ok row ->
  dom row =
  list_to_set (image_keys ++ match acquisition with Some _ => geometry_keys | None => [] end).
Proof.
  unfold create_image_info.
  destruct (shape_item img_shape 2) as [w|]; [|discriminate].
  destruct (shape_item img_shape 1) as [h|]; [|discriminate].
  destruct (shape_item img_shape 0) as [c|]; [|discriminate].
  destruct acquisition as [a|].
  - unfold acquisition_info.
    destruct (roi_points_um a) as [[[[p0 p1] p2] p3]|]; [|discriminate].
    destruct (width_um a) as [width|]; [|discriminate].
    destruct (height_um a) as [height|]; [|discriminate].
    intros H. apply Ok_inj in H. subst row.
    rewrite !dom_insert_L, dom_empty_L. simpl. set_solver.
  - intros H. apply Ok_inj in H. subst row.
    rewrite !dom_insert_L, dom_empty_L. simpl. set_solver.
Qed.

Lemma create_image_info_keys_witness :
  dom (<["recovered" := VBool false]>
       (<["recovery_file" := VNone]>
       (<["source_file" := VStr "b.txt"]>
       (<["num_channels" := VInt 2]>
       (<["height_px" := VInt 4]>
       (<["width_px" := VInt 5]>
       (<["image" := VStr "b.tiff"]> (∅ : gmap string value)))))))) =
  list_to_set (image_keys ++ []).
Proof.
  apply (create_image_info_keys (AsPath "raw/b.txt") None [2; 4; 5]%nat None false
           (AsPath "img/b.tiff")).
  reflexivity.
Defined.

(** ** [filter_hot_pixels]

    A three-dimensional array is its shape (channels, rows, columns) and its
    items.  The items are of a type [num] with the subtraction [sub] and the
    comparison [ltb] of the array's dtype; the threshold is compared with
    the differences, so it is taken in [num] as well. *)

Record ndarray3 (num : Type) := {
  shape3 : nat * nat * nat;
  item : nat -> nat -> nat -> num
}.
Arguments shape3 {num} _.
Arguments item {num} _ _ _ _.

(** The index read for position [i] of an axis of length [n] in mode
    ["mirror"]: the axis is reflected about the centre of its first and of
    its last item. *)
Definition mirror (n : nat) (i : Z) : nat :=
  if (n <=? 1)%nat then 0%nat
  else
    let p := (2 * (Z.of_nat n - 1))%Z in
    let j := (i mod p)%Z in
    if (j <? Z.of_nat n)%Z then Z.to_nat j else Z.to_nat (p - j).

(** The footprint: a 3 x 3 window within the channel, without its centre. *)
Definition footprint_offsets : list (Z * Z) :=
  [(-1, -1); (-1, 0); (-1, 1); (0, -1); (0, 1); (1, -1); (1, 0); (1, 1)]%Z.

Section HotPixels.
Context {num : Type}.
Variable ltb : num -> num -> bool.
Variable sub : num -> num -> num.

Definition num_max (a b : num) : num := if ltb a b then b else a.

(** The positions read for the neighbours of [(y, x)]. *)
Definition neighbor_positions (img : ndarray3 num) (y x : nat) : list (nat * nat) :=
  let '(_, height, width) := shape3 img in
  map (fun d => (mirror height (Z.of_nat y + fst d), mirror width (Z.of_nat x + snd d)))
      footprint_offsets.

Definition neighbors (img : ndarray3 num) (c y x : nat) : list num :=
  map (fun p => item img c (fst p) (snd p)) (neighbor_positions img y x).

(** [maximum_filter(img, footprint=kernel, mode="mirror")] at one position. *)
Definition max_neighbor (img : ndarray3 num) (c y x : nat) : num :=
  match neighbors img c y x with
  | [] => item img c y x
  | v :: vs => fold_left num_max vs v
  end.

Definition filter_hot_pixels (img : ndarray3 num) (thres : num) : ndarray3 num :=
  {| shape3 := shape3 img;
     item := fun c y x =>
       let max_neighbor_img := max_neighbor img c y x in
       if ltb thres (sub (item img c y x) max_neighbor_img)
       then max_neighbor_img
       else item img c y x |}.

(** *** The filter under an order and a subtraction that does not wrap *)

Variable zero : num.
Hypothesis ltb_irrefl : forall a, ltb a a = false.
Hypothesis ltb_trans : forall a b c, ltb a b = true -> ltb b c = true -> ltb a c = true.
Hypothesis ltb_negtrans : forall a b c, ltb a b = false -> ltb b c = false -> ltb a c = false.
Hypothesis sub_exceeds : forall v m t,
  ltb t zero = false -> ltb t (sub v m) = true -> ltb m v = true.










(** At the borders the axis is continued by its second and its last but one
    item. *)
Lemma mirror_before_first (n : nat) : (2 <= n)%nat -> mirror n (-1) = 1%nat.
Proof.
  intros Hn. unfold mirror.
  destruct (n <=? 1)%nat eqn:E1; [apply Nat.leb_le in E1; lia|].
  assert (Hm : ((-1) mod (2 * (Z.of_nat n - 1)) = 2 * (Z.of_nat n - 1) - 1)%Z).
  { symmetry. apply (Z.mod_unique _ _ (-1)%Z); lia. }
  rewrite Hm.
  destruct (_ <? Z.of_nat n)%Z eqn:E2; [apply Z.ltb_lt in E2 | apply Z.ltb_ge in E2]; lia.
Qed.

Lemma mirror_after_last (n : nat) : (2 <= n)%nat -> mirror n (Z.of_nat n) = (n - 2)%nat.
Proof.
  intros Hn. unfold mirror.
  destruct (n <=? 1)%nat eqn:E1; [apply Nat.leb_le in E1; lia|].
  destruct (Nat.eq_dec n 2) as [->|Hne]; [reflexivity|].
  rewrite Z.mod_small by lia.
  destruct (_ <? Z.of_nat n)%Z eqn:E2; [apply Z.ltb_lt in E2 | apply Z.ltb_ge in E2]; lia.
Qed.

(** *** Which pixels can change *)







End HotPixels.

(** *** The item types of an array

    What the filter uses of a numpy dtype: its items, their comparison,
    their subtraction and zero.  The comparison of every dtype is
    irreflexive and transitive; it is total on the integers only (a nan is
    below nothing and above nothing). *)
Record dtype := {
  scalar : Type;
  less : scalar -> scalar -> bool;
  subtract : scalar -> scalar -> scalar;
  nought : scalar;
  less_irrefl : forall a, less a a = false;
  less_trans : forall a b c, less a b = true -> less b c = true -> less a c = true
}.

Lemma Z_ltb_transitive (a b c : Z) :
  (a <? b)%Z = true -> (b <? c)%Z = true -> (a <? c)%Z = true.
Proof. rewrite !Z.ltb_lt. lia. Qed.

(** Unsigned bytes: the difference wraps around at 256. *)
Definition uint8 : dtype :=
  {| scalar := Z;
     less := Z.ltb;
     subtract := fun a b => ((a - b) mod 256)%Z;
     nought := 0%Z;
     less_irrefl := Z.ltb_irrefl;
     less_trans := Z_ltb_transitive |}.






(** The difference [v - m] does not wrap around: it is above a non-negative
    number only when [v] is above [m]. *)
Definition no_wrap (D : dtype) (v m : scalar D) : Prop :=
  forall t, less D t (nought D) = false -> less D t (subtract D v m) = true ->
            less D m v = true.

(** Among unsigned bytes that is the case exactly when [v] is not below
    [m]. *)
Lemma no_wrap_uint8 (v m : Z) :
  (0 <= v < 256)%Z -> (0 <= m < 256)%Z -> no_wrap uint8 v m <-> (m <= v)%Z.
Proof.
  intros Hv Hm. unfold no_wrap. cbn [less subtract nought uint8 scalar]. split.
  - intros H. destruct (Z_lt_le_dec v m) as [Hlt|Hle]; [|exact Hle].
    assert (Hmod : ((v - m) mod 256 = v - m + 256)%Z).
    { symmetry. apply (Z.mod_unique _ _ (-1)%Z); lia. }
    specialize (H 0%Z eq_refl). rewrite Hmod in H.
    assert (Hd : (0 <? v - m + 256)%Z = true) by (apply Z.ltb_lt; lia).
    apply H, Z.ltb_lt in Hd. lia.
  - intros Hle t Ht Hd. apply Z.ltb_ge in Ht. apply Z.ltb_lt in Hd. apply Z.ltb_lt.
    rewrite Z.mod_small in Hd by lia. lia.
Qed.


Definition img_3x3 (centre around : Z) : ndarray3 Z :=
  {| shape3 := (1, 3, 3)%nat;
     item := fun c y x => if ((y =? 1) && (x =? 1))%nat then centre else around |}.





(** On unsigned bytes the same holds of a pixel that is not below its
    neighbours. *)
Example filter_hot_pixels_uint8_hot_pixel :
  no_wrap uint8 (item (img_3x3 100 5) 0 1 1) (max_neighbor Z.ltb (img_3x3 100 5) 0 1 1) /\
  item (filter_hot_pixels (less uint8) (subtract uint8) (img_3x3 100 5) 50%Z) 0 1 1 = 5%Z.
Proof.
  split; [|reflexivity].
  apply (no_wrap_uint8 100 5); cbn; lia.
Qed.

(** In the image of the pixel that is raised, the difference wraps. *)
Example filter_hot_pixels_uint8_wraps :
  ~ no_wrap uint8 (item (img_3x3 0 5) 0 1 1) (max_neighbor Z.ltb (img_3x3 0 5) 0 1 1).
Proof.
  intros H. apply (no_wrap_uint8 0 5) in H; cbn in *; lia.
Qed.







(** ** Tables (pandas)

    A cell is a string, a boolean, an unsigned number or the missing value
    [pd.NA].  A row maps the column labels to cells; the labels that count
    are those listed in [columns]. *)

Inductive cell :=
| NA
| Str (s : string)
| Bool (b : bool)
| UInt (n : N).

Definition row : Type := string -> cell.

Record DataFrame := {
  columns : list string;
  rows : list row
}.

Definition cell_eqb (a b : cell) : bool :=
  match a, b with
  | NA, NA => true
  | Str s, Str t => String.eqb s t
  | Bool x, Bool y => Bool.eqb x y
  | UInt n, UInt m => N.eqb n m
  | _, _ => false
  end.

Definition isna (c : cell) : bool := match c with NA => true | _ => false end.

Definition has_column (col : string) (cols : list string) : bool :=
  existsb (String.eqb col) cols.

(** [row[col] = v]. *)
Definition set_cell (col : string) (v : cell) (r : row) : row :=
  fun c => if String.eqb c col then v else r c.

Definition column (col : string) (rs : list row) : list cell := map (fun r => r col) rs.

(** The cells of a row in the order of the columns. *)
Definition cells (cols : list string) (r : row) : list cell := map r cols.

Definition table (df : DataFrame) : list (list cell) := map (cells (columns df)) (rows df).

Fixpoint cells_eqb (a b : list cell) : bool :=
  match a, b with
  | [], [] => true
  | x :: a', y :: b' => cell_eqb x y && cells_eqb a' b'
  | _, _ => false
  end.

(** [drop_duplicates]: a row equal to an earlier one in every column goes;
    missing values count as equal. *)
Fixpoint drop_duplicates_from (cols : list string) (seen : list (list cell))
    (rs : list row) : list row :=
  match rs with
  | [] => []
  | r :: rs' =>
      if existsb (cells_eqb (cells cols r)) seen
      then drop_duplicates_from cols seen rs'
      else r :: drop_duplicates_from cols (cells cols r :: seen) rs'
  end.

Definition drop_duplicates (cols : list string) (rs : list row) : list row :=
  drop_duplicates_from cols [] rs.

(** *** The sort key of a channel *)

Definition is_digit (c : ascii) : bool :=
  let n := N_of_ascii c in (48 <=? n)%N && (n <=? 57)%N.

Definition digit_value (c : ascii) : N := (N_of_ascii c - 48)%N.

(** [pd.to_numeric(s.str.replace("[^0-9]", "", regex=True))]: the number
    written by the digits of the channel; missing without a digit. *)
Definition channel_key (c : cell) : option N :=
  match c with
  | Str s =>
      match List.filter is_digit (chars s) with
      | [] => None
      | ds => Some (fold_left (fun acc d => (10 * acc + digit_value d)%N) ds 0%N)
      end
  | _ => None
  end.

(** The order of the keys: missing keys come last. *)
Definition key_le (a b : option N) : Prop :=
  match a, b with
  | Some x, Some y => (x <= y)%N
  | _, None => True
  | None, Some _ => False
  end.

Definition channel_le (r1 r2 : row) : Prop :=
  key_le (channel_key (r1 "channel")) (channel_key (r2 "channel")).

(** *** Pieces of [_clean_panel] *)

Definition count_cell (c : cell) (l : list cell) : nat :=
  List.length (List.filter (cell_eqb c) l).

(** [name + f" {i + 1}"]; a missing name stays missing. *)
Definition add_suffix (name : cell) (i : nat) : cell :=
  match name with
  | Str s => Str (s +:+ " " +:+ pretty (N.of_nat (i + 1)))
  | _ => name
  end.

(** The new name of a row: numbered when the name occurs more than once in
    [all], by the count of the rows before it that carry it. *)
Definition suffixed_name (all seen : list cell) (name : cell) : cell :=
  if (2 <=? count_cell name all)%nat then add_suffix name (count_cell name seen) else name.

Fixpoint suffix_names (all seen : list cell) (rs : list row) : list row :=
  match rs with
  | [] => []
  | r :: rs' =>
      set_cell "name" (suffixed_name all seen (r "name")) r
        :: suffix_names all (r "name" :: seen) rs'
  end.

(** [panel.loc[mask, col] = range(1, mask.sum() + 1)] on a fresh column. *)
Fixpoint number_rows (col : string) (mask : row -> bool) (next : N) (rs : list row)
    : list row :=
  match rs with
  | [] => []
  | r :: rs' =>
      if mask r then set_cell col (UInt next) r :: number_rows col mask (next + 1) rs'
      else set_cell col NA r :: number_rows col mask next rs'
  end.

Definition is_true (c : cell) : bool :=
  match c with Bool true => true | _ => false end.

(** The same on a column of unsigned bytes ([pd.UInt8Dtype]): the numbers
    [1 .. mask.sum()] have to fit, or the assignment raises. *)
Definition number_uint8 (col : string) (mask : row -> bool) (rs : list row)
    : res (list row) :=
  if (255 <? List.length (List.filter mask rs))%nat then Raise TypeError
  else Ok (number_rows col mask 1%N rs).

Definition remove_column (col : string) (cols : list string) : list string :=
  List.filter (fun c => negb (String.eqb c col)) cols.

(** [panel.insert(loc, col, data)]. *)
Definition insert_column (loc : nat) (col : string) (cols : list string) : list string :=
  firstn loc cols ++ col :: skipn loc cols.

(** The final loop: each of the five columns that is there moves to the next
    free place at the front. *)
Fixpoint move_to_front (wanted : list string) (next_column_index : nat)
    (cols : list string) : list string :=
  match wanted with
  | [] => cols
  | col :: wanted' =>
      if has_column col cols
      then move_to_front wanted' (S next_column_index)
             (insert_column next_column_index col (remove_column col cols))
      else move_to_front wanted' next_column_index cols
  end.

Definition panel_columns : list string :=
  ["channel"; "name"; "keep"; "ilastik"; "deepcell"].

(** *** Facts about the pieces *)

Lemma DataFrame_eq (cols : list string) (rs : list row) (out : DataFrame) :
  {| columns := cols; rows := rs |} = out -> columns out = cols /\ rows out = rs.
Proof. intros <-. split; reflexivity. Qed.

Lemma cell_eqb_eq (a b : cell) : cell_eqb a b = true <-> a = b.
Proof.
  destruct a, b; simpl; try (split; congruence).
  - rewrite String.eqb_eq. split; congruence.
  - rewrite Bool.eqb_true_iff. split; congruence.
  - rewrite N.eqb_eq. split; congruence.
Qed.

Lemma cells_eqb_eq (a b : list cell) : cells_eqb a b = true <-> a = b.
Proof.
  revert b. induction a as [|x a IH]; intros [|y b]; simpl; try (split; congruence).
  rewrite andb_true_iff, cell_eqb_eq, IH. split; [intros [-> ->]; reflexivity | intros [= -> ->]; auto].
Qed.

Lemma set_cell_other (col c : string) (v : cell) (r : row) :
  String.eqb c col = false -> set_cell col v r c = r c.
Proof. unfold set_cell. intros ->. reflexivity. Qed.

Lemma set_cell_same (col : string) (v : cell) (r : row) : set_cell col v r col = v.
Proof. unfold set_cell. rewrite String.eqb_refl. reflexivity. Qed.

Lemma column_set_cell_other (col c : string) (v : cell) (rs : list row) :
  String.eqb c col = false -> column c (map (set_cell col v) rs) = column c rs.
Proof.
  intros H. unfold column. rewrite map_map. apply map_ext.
  intros r. apply set_cell_other. exact H.
Qed.

Lemma column_set_cell_same (col : string) (v : cell) (rs : list row) :
  Forall (eq v) (column col (map (set_cell col v) rs)).
Proof.
  induction rs as [|r rs IH]; simpl; constructor; [|exact IH].
  symmetry. apply set_cell_same.
Qed.

(** The names after the numbering, from the names before. *)
Fixpoint numbered_from (all seen names : list cell) : list cell :=
  match names with
  | [] => []
  | n :: names' => suffixed_name all seen n :: numbered_from all (n :: seen) names'
  end.

Definition numbered (names : list cell) : list cell := numbered_from names [] names.

Lemma column_suffix_names_other (c : string) (all : list cell) (rs : list row) :
  String.eqb c "name" = false ->
  forall seen, column c (suffix_names all seen rs) = column c rs.
Proof.
  intros H. induction rs as [|r rs IH]; intros seen; simpl; [reflexivity|].
  rewrite set_cell_other by exact H. f_equal. apply IH.
Qed.

Lemma column_suffix_names_name (all : list cell) (rs : list row) :
  forall seen,
  column "name" (suffix_names all seen rs) = numbered_from all seen (column "name" rs).
Proof.
  induction rs as [|r rs IH]; intros seen; simpl; [reflexivity|].
  rewrite set_cell_same. f_equal. apply IH.
Qed.

Lemma column_number_rows_other (c col : string) (mask : row -> bool) (rs : list row) :
  String.eqb c col = false ->
  forall next, column c (number_rows col mask next rs) = column c rs.
Proof.
  intros H. induction rs as [|r rs IH]; intros next; simpl; [reflexivity|].
  destruct (mask r); simpl; rewrite set_cell_other by exact H; f_equal; apply IH.
Qed.

Lemma has_column_In (col : string) (cols : list string) :
  has_column col cols = true <-> In col cols.
Proof.
  unfold has_column. rewrite existsb_exists. split.
  - intros (x & Hx & E). apply String.eqb_eq in E. subst x. exact Hx.
  - intros H. exists col. split; [exact H | apply String.eqb_refl].
Qed.

Lemma has_column_app (col : string) (l1 l2 : list string) :
  has_column col (l1 ++ l2) = has_column col l1 || has_column col l2.
Proof. apply existsb_app. Qed.

Lemma remove_column_In (col c : string) (cols : list string) :
  In c (remove_column col cols) <-> In c cols /\ c <> col.
Proof.
  unfold remove_column. rewrite filter_In, negb_true_iff, String.eqb_neq. tauto.
Qed.

Lemma remove_column_absent (col : string) (cols : list string) :
  ~ In col cols -> remove_column col cols = cols.
Proof.
  induction cols as [|c cols IH]; simpl; [reflexivity|].
  intros H. destruct (String.eqb c col) eqn:E.
  - apply String.eqb_eq in E. subst c. tauto.
  - simpl. f_equal. apply IH. tauto.
Qed.

Lemma insert_column_In (loc : nat) (col c : string) (cols : list string) :
  In c (insert_column loc col cols) <-> c = col \/ In c cols.
Proof.
  unfold insert_column. rewrite in_app_iff. simpl.
  rewrite <- (firstn_skipn loc cols) at 3. rewrite in_app_iff.
  intuition congruence.
Qed.

(** The columns placed so far stay at the front while the next ones are
    moved behind them. *)
Lemma move_to_front_prefix (wanted : list string) :
  forall (placed cols : list string),
  NoDup (placed ++ wanted) ->
  firstn (List.length placed) cols = placed ->
  List.length placed <= List.length cols ->
  (forall c, In c wanted -> In c cols) ->
  firstn (List.length (placed ++ wanted))
         (move_to_front wanted (List.length placed) cols) = placed ++ wanted.
Proof.
  induction wanted as [|col wanted IH]; intros placed cols Hnd Hfirst Hlen Hin.
  - simpl. rewrite app_nil_r. exact Hfirst.
  - simpl.
    assert (Hcol : has_column col cols = true)
      by (apply has_column_In, Hin; left; reflexivity).
    rewrite Hcol.
    assert (Hnotin : ~ In col placed).
    { apply NoDup_app in Hnd. destruct Hnd as (_ & Hd & _).
      intros Hp. apply list_elem_of_In in Hp. apply (Hd col Hp). left. }
    assert (Hrem : remove_column col cols =
                   placed ++ remove_column col (skipn (List.length placed) cols)).
    { rewrite <- (firstn_skipn (List.length placed) cols) at 1.
      unfold remove_column at 1. rewrite List.filter_app.
      fold (remove_column col (firstn (List.length placed) cols)).
      fold (remove_column col (skipn (List.length placed) cols)).
      rewrite Hfirst, remove_column_absent by exact Hnotin. reflexivity. }
    assert (Hins : insert_column (List.length placed) col (remove_column col cols) =
                   (placed ++ [col]) ++ remove_column col (skipn (List.length placed) cols)).
    { unfold insert_column. rewrite Hrem.
      rewrite firstn_app, Nat.sub_diag, firstn_all, firstn_O, app_nil_r.
      rewrite skipn_app, Nat.sub_diag, skipn_all. simpl.
      rewrite <- app_assoc. reflexivity. }
    replace (S (List.length placed)) with (List.length (placed ++ [col]))
      by (rewrite length_app; simpl; lia).
    replace (placed ++ col :: wanted) with ((placed ++ [col]) ++ wanted)
      by (rewrite <- app_assoc; reflexivity).
    apply IH.
    + rewrite <- app_assoc. exact Hnd.
    + rewrite Hins, firstn_app, Nat.sub_diag, firstn_all, firstn_O, app_nil_r. reflexivity.
    + rewrite Hins, !length_app. simpl. lia.
    + intros c Hc. apply insert_column_In. right. apply remove_column_In.
      split; [apply Hin; right; exact Hc|].
      intros ->. apply NoDup_app in Hnd. destruct Hnd as (_ & _ & Hd).
      apply NoDup_cons in Hd. destruct Hd as [Hd _]. apply Hd, list_elem_of_In, Hc.
Qed.

Lemma move_to_front_panel_columns (cols : list string) :
  (forall c, In c panel_columns -> In c cols) ->
  firstn 5 (move_to_front panel_columns 0 cols) = panel_columns.
Proof.
  intros H.
  apply (move_to_front_prefix panel_columns [] cols); simpl; auto; [|lia].
  apply (bool_decide_unpack _). vm_compute. exact I.
Qed.

(** The (channel, name) pair of a row. *)
Definition pair_of (r : row) : cell * cell := (r "channel", r "name").

Lemma cell_eq_dec (a b : cell) : {a = b} + {a <> b}.
Proof.
  destruct (cell_eqb a b) eqn:E.
  - left. apply cell_eqb_eq. exact E.
  - right. intros H. apply cell_eqb_eq in H. congruence.
Defined.

Lemma drop_duplicates_from_cons (cols : list string) (seen : list (list cell))
    (r : row) (rs : list row) :
  drop_duplicates_from cols seen (r :: rs) =
  if existsb (cells_eqb (cells cols r)) seen
  then drop_duplicates_from cols seen rs
  else r :: drop_duplicates_from cols (cells cols r :: seen) rs.
Proof. reflexivity. Qed.

Lemma existsb_cells_eqb (k : list cell) (seen : list (list cell)) :
  existsb (cells_eqb k) seen = true <-> In k seen.
Proof.
  rewrite existsb_exists. split.
  - intros (x & Hx & E). apply cells_eqb_eq in E. subst x. exact Hx.
  - intros H. exists k. split; [exact H | apply cells_eqb_eq; reflexivity].
Qed.

Lemma drop_duplicates_from_spec (rs : list row) :
  forall seen,
  NoDup (map pair_of (drop_duplicates_from ["channel"; "name"] seen rs)) /\
  forall p, In p (map pair_of (drop_duplicates_from ["channel"; "name"] seen rs)) <->
            In p (map pair_of rs) /\ ~ In [fst p; snd p] seen.
Proof.
  induction rs as [|r rs IH]; intros seen.
  - split; [constructor | simpl; tauto].
  - rewrite drop_duplicates_from_cons.
    change (cells ["channel"; "name"] r) with [fst (pair_of r); snd (pair_of r)].
    destruct (existsb (cells_eqb [fst (pair_of r); snd (pair_of r)]) seen) eqn:E.
    + apply existsb_cells_eqb in E.
      destruct (IH seen) as [Hnd Hin]. split; [exact Hnd|].
      intros p. rewrite Hin. cbn [map In]. split; [tauto|].
      intros [[<-|Hp] Hs]; tauto.
    + assert (Hnot : ~ In [fst (pair_of r); snd (pair_of r)] seen).
      { intros H. apply existsb_cells_eqb in H. congruence. }
      destruct (IH ([fst (pair_of r); snd (pair_of r)] :: seen)) as [Hnd Hin].
      cbn [map]. split.
      * apply NoDup_cons_2; [|exact Hnd].
        intros Hp. apply list_elem_of_In, Hin in Hp. destruct Hp as [_ Hp].
        apply Hp. left. reflexivity.
      * intros p. cbn [In]. rewrite Hin. cbn [In]. split.
        -- intros [<-|[Hp Hs]]; [tauto|]. split; [right; exact Hp | tauto].
        -- intros [[<-|Hp] Hs]; [left; reflexivity|].
           destruct (List.list_eq_dec cell_eq_dec
                       [fst (pair_of r); snd (pair_of r)] [fst p; snd p]) as [Heq|Hne].
           ++ left. injection Heq as H1 H2.
              destruct p as [p1 p2]. unfold pair_of in *. simpl in H1, H2. subst. reflexivity.
           ++ right. tauto.
Qed.

Lemma drop_duplicates_pairs (rs : list row) :
  NoDup (map pair_of (drop_duplicates ["channel"; "name"] rs)) /\
  forall p, In p (map pair_of (drop_duplicates ["channel"; "name"] rs)) <->
            In p (map pair_of rs).
Proof.
  destruct (drop_duplicates_from_spec rs []) as [Hnd Hin].
  split; [exact Hnd|]. intros p. unfold drop_duplicates. rewrite Hin. simpl. tauto.
Qed.

(** *** What the steps of [_clean_panel] leave alone *)

Lemma cells_set_cell_other (cs : list string) (col : string) (v : cell) (r : row) :
  ~ In col cs -> cells cs (set_cell col v r) = cells cs r.
Proof.
  intros Hnot. unfold cells. apply map_ext_in. intros c Hc.
  apply set_cell_other, String.eqb_neq. intros ->. contradiction.
Qed.

Lemma map_cells_set_cell (cs : list string) (col : string) (v : cell) (rs : list row) :
  ~ In col cs -> map (cells cs) (map (set_cell col v) rs) = map (cells cs) rs.
Proof.
  intros Hnot. rewrite map_map. apply map_ext. intros r.
  apply cells_set_cell_other, Hnot.
Qed.

Lemma map_cells_number_rows (cs : list string) (col : string) (mask : row -> bool)
    (rs : list row) :
  ~ In col cs ->
  forall next, map (cells cs) (number_rows col mask next rs) = map (cells cs) rs.
Proof.
  intros Hnot. induction rs as [|r rs IH]; intros next; simpl; [reflexivity|].
  destruct (mask r); simpl; rewrite cells_set_cell_other by exact Hnot; f_equal; apply IH.
Qed.

Lemma map_cells_suffix_names (cs : list string) (all : list cell) (rs : list row) :
  ~ In "name" cs ->
  forall seen, map (cells cs) (suffix_names all seen rs) = map (cells cs) rs.
Proof.
  intros Hnot. induction rs as [|r rs IH]; intros seen; simpl; [reflexivity|].
  rewrite cells_set_cell_other by exact Hnot. f_equal. apply IH.
Qed.

Lemma column_set_cell_repeat (col : string) (v : cell) (rs : list row) :
  column col (map (set_cell col v) rs) = repeat v (List.length rs).
Proof.
  induction rs as [|r rs IH]; simpl; [reflexivity|].
  rewrite set_cell_same. f_equal. exact IH.
Qed.

Lemma length_number_rows (col : string) (mask : row -> bool) (rs : list row) :
  forall next, List.length (number_rows col mask next rs) = List.length rs.
Proof.
  induction rs as [|r rs IH]; intros next; simpl; [reflexivity|].
  destruct (mask r); simpl; f_equal; apply IH.
Qed.

Lemma length_suffix_names (all : list cell) (rs : list row) :
  forall seen, List.length (suffix_names all seen rs) = List.length rs.
Proof.
  induction rs as [|r rs IH]; intros seen; simpl; [reflexivity | f_equal; apply IH].
Qed.

Lemma move_to_front_In (wanted : list string) (c : string) :
  forall next_column_index cols,
  In c (move_to_front wanted next_column_index cols) <-> In c cols.
Proof.
  induction wanted as [|col wanted IH]; intros n cols; simpl; [tauto|].
  destruct (has_column col cols) eqn:E; [|apply IH].
  apply has_column_In in E.
  rewrite IH, insert_column_In, remove_column_In.
  destruct (string_dec c col) as [->|Hne]; tauto.
Qed.

(** [range(first, first + n)]. *)
Fixpoint N_range (first : N) (n : nat) : list N :=
  match n with
  | O => []
  | S n' => first :: N_range (first + 1) n'
  end.

Lemma length_N_range (n : nat) : forall first, List.length (N_range first n) = n.
Proof. induction n as [|n IH]; intros first; simpl; [reflexivity | f_equal; apply IH]. Qed.

(** The numbers of a column, without its other cells. *)
Definition uints (l : list cell) : list N :=
  omap (fun c => match c with UInt n => Some n | _ => None end) l.

Definition is_number_or_missing (c : cell) : Prop :=
  match c with NA | UInt _ => True | _ => False end.

Lemma number_rows_all (col : string) (mask : row -> bool) (rs : list row) :
  (forall r, In r rs -> mask r = true) ->
  forall next,
  column col (number_rows col mask next rs) = map UInt (N_range next (List.length rs)).
Proof.
  induction rs as [|r rs IH]; intros Hall next; simpl; [reflexivity|].
  rewrite (Hall r) by (left; reflexivity). simpl.
  rewrite set_cell_same. f_equal. apply IH. intros r' Hr'. apply Hall. right. exact Hr'.
Qed.

Lemma number_rows_uints (col : string) (mask : row -> bool) (rs : list row) :
  forall next,
  uints (column col (number_rows col mask next rs)) =
    N_range next (List.length (List.filter mask rs)) /\
  Forall is_number_or_missing (column col (number_rows col mask next rs)).
Proof.
  induction rs as [|r rs IH]; intros next; simpl; [split; [reflexivity | constructor]|].
  destruct (mask r); simpl; rewrite set_cell_same.
  - destruct (IH (next + 1)%N) as [Hu Hf]. split.
    + unfold uints in *. simpl. f_equal. exact Hu.
    + constructor; [exact I | exact Hf].
  - destruct (IH next) as [Hu Hf]. split.
    + exact Hu.
    + constructor; [exact I | exact Hf].
Qed.

Section Panels.
(** [DataFrame.sort_values] sorts with numpy's quicksort, which is not
    stable: of the sort only a sorted rearrangement is known. *)
Variable quicksort : forall A : Type, (A -> N) -> list A -> list A.
Hypothesis quicksort_Permutation :
  forall A (key : A -> N) l, Permutation (quicksort A key l) l.
Hypothesis quicksort_sorted :
  forall A (key : A -> N) l,
    StronglySorted (fun a b => (key a <= key b)%N) (quicksort A key l).

Definition has_key (r : row) : bool :=
  match channel_key (r "channel") with Some _ => true | None => false end.

(** [panel.sort_values("channel", key=...)]: the rows with a key sorted, then
    the rows without in their order. *)
Definition sort_values (rs : list row) : list row :=
  quicksort row (fun r => default 0%N (channel_key (r "channel"))) (List.filter has_key rs)
    ++ List.filter (fun r => negb (has_key r)) rs.

Definition _clean_panel (panel : DataFrame) : res DataFrame :=
  if negb (has_column "channel" (columns panel)) then Raise KeyError
  else if negb (has_column "name" (columns panel)) then Raise KeyError
  else
    let rs := sort_values (rows panel) in
    let rs := suffix_names (column "name" rs) [] rs in
    let cols := columns panel in
    let '(cols, rs) :=
      if has_column "keep" cols then (cols, rs)
      else (cols ++ ["keep"], map (set_cell "keep" (Bool true)) rs) in
    match
      (if has_column "ilastik" cols then Ok (cols, rs)
       else
         match number_uint8 "ilastik" (fun r => is_true (r "keep")) rs with
         | Raise e => Raise e
         | Ok rs => Ok (cols ++ ["ilastik"], rs)
         end)
    with
    | Raise e => Raise e
    | Ok (cols, rs) =>
        let '(cols, rs) :=
          if has_column "deepcell" cols then (cols, rs)
          else (cols ++ ["deepcell"], map (set_cell "deepcell" NA) rs) in
        Ok {| columns := move_to_front panel_columns 0 cols; rows := rs |}
    end.

Lemma StronglySorted_map {A B} (f : A -> B) (R : B -> B -> Prop) (l : list A) :
  StronglySorted (fun a b => R (f a) (f b)) l -> StronglySorted R (map f l).
Proof.
  induction 1 as [|a l Hs IH Hall]; simpl; constructor; [exact IH|].
  rewrite Forall_forall. rewrite Forall_forall in Hall. intros b Hb.
  apply list_elem_of_In, in_map_iff in Hb. destruct Hb as (x & <- & Hx).
  apply Hall, list_elem_of_In, Hx.
Qed.

(** The rows in the order of the keys of their channels. *)
Definition sorted_by_channel (rs : list row) : Prop :=
  StronglySorted (fun a b => key_le (channel_key a) (channel_key b)) (column "channel" rs).

Lemma sort_values_Permutation (rs : list row) : Permutation (sort_values rs) rs.
Proof.
  unfold sort_values. rewrite quicksort_Permutation.
  induction rs as [|r rs IH]; simpl; [reflexivity|].
  destruct (has_key r); simpl.
  - constructor. exact IH.
  - rewrite <- Permutation_middle. constructor. exact IH.
Qed.

Lemma keyed_rows_sorted (key : row -> N) (l : list row) :
  StronglySorted (fun a b => (key a <= key b)%N) l ->
  (forall r, In r l -> channel_key (r "channel") = Some (key r)) ->
  StronglySorted channel_le l.
Proof.
  induction 1 as [|a l Hs IH Hall]; intros Hk; constructor.
  - apply IH. intros r Hr. apply Hk. right. exact Hr.
  - rewrite Forall_forall. rewrite Forall_forall in Hall. intros b Hb.
    unfold channel_le.
    rewrite (Hk a) by (left; reflexivity).
    rewrite (Hk b) by (right; apply list_elem_of_In; exact Hb).
    simpl. apply Hall. exact Hb.
Qed.

Lemma unkeyed_rows_sorted (l : list row) :
  (forall r, In r l -> channel_key (r "channel") = None) ->
  StronglySorted channel_le l.
Proof.
  induction l as [|a l IH]; intros Hn; constructor.
  - apply IH. intros r Hr. apply Hn. right. exact Hr.
  - rewrite Forall_forall. intros b Hb. unfold channel_le.
    rewrite (Hn b) by (right; apply list_elem_of_In; exact Hb).
    destruct (channel_key (a "channel")); exact I.
Qed.

Lemma sort_values_sorted (rs : list row) : sorted_by_channel (sort_values rs).
Proof.
  unfold sorted_by_channel, column.
  apply StronglySorted_map. fold channel_le.
  unfold sort_values.
  set (key := fun r : row => default 0%N (channel_key (r "channel"))).
  assert (Hnone : forall r, In r (List.filter (fun r => negb (has_key r)) rs) ->
                    channel_key (r "channel") = None).
  { intros r Hr. apply filter_In in Hr. destruct Hr as [_ Hr].
    unfold has_key in Hr. destruct (channel_key (r "channel")); [discriminate|reflexivity]. }
  apply StronglySorted_app_2.
  - intros a b Ha Hb. unfold channel_le.
    rewrite (Hnone b) by (apply list_elem_of_In; exact Hb).
    destruct (channel_key (a "channel")); exact I.
  - apply (keyed_rows_sorted key); [apply quicksort_sorted|].
    intros r Hr. apply list_elem_of_In in Hr. rewrite quicksort_Permutation in Hr.
    apply list_elem_of_In, filter_In in Hr. destruct Hr as [_ Hr].
    unfold has_key, key in *. destruct (channel_key (r "channel")); [reflexivity|discriminate].
  - apply unkeyed_rows_sorted. exact Hnone.
Qed.

(** The returned table of [_clean_panel], step by step. *)
Lemma _clean_panel_Ok (panel out : DataFrame) :
  _clean_panel panel = Ok out ->
  In "channel" (columns panel) /\ In "name" (columns panel) /\
  exists cols1 cols2 cols3 rs1 rs2 rs3,
    let rs0 := sort_values (rows panel) in
    let rsn := suffix_names (column "name" rs0) [] rs0 in
    (cols1, rs1) =
      (if has_column "keep" (columns panel) then (columns panel, rsn)
       else (columns panel ++ ["keep"], map (set_cell "keep" (Bool true)) rsn)) /\
    (cols2, rs2) =
      (if has_column "ilastik" cols1 then (cols1, rs1)
       else (cols1 ++ ["ilastik"],
             number_rows "ilastik" (fun r => is_true (r "keep")) 1%N rs1)) /\
    (cols3, rs3) =
      (if has_column "deepcell" cols2 then (cols2, rs2)
       else (cols2 ++ ["deepcell"], map (set_cell "deepcell" NA) rs2)) /\
    columns out = move_to_front panel_columns 0 cols3 /\ rows out = rs3 /\
    (has_column "ilastik" cols1 = false ->
     List.length (List.filter (fun r => is_true (r "keep")) rs1) <= 255).
Proof.
  unfold _clean_panel. intros H.
  destruct (has_column "channel" (columns panel)) eqn:Hc; [|discriminate].
  destruct (has_column "name" (columns panel)) eqn:Hn; [|discriminate].
  unfold negb in H. cbv iota in H.
  apply has_column_In in Hc, Hn. split; [exact Hc|]. split; [exact Hn|].
  destruct (has_column "keep" (columns panel)) eqn:Hk; cbv beta iota zeta in H;
  match type of H with context [has_column "ilastik" ?cols] =>
    destruct (has_column "ilastik" cols) eqn:Hi end;
  try (unfold number_uint8 in H;
       match type of H with context [(255 <? ?n)%nat] =>
         destruct (255 <? n)%nat eqn:Hb; [discriminate H|]; apply Nat.ltb_ge in Hb end);
  cbv beta iota zeta in H;
  match type of H with context [has_column "deepcell" ?cols] =>
    destruct (has_column "deepcell" cols) eqn:Hd; cbv beta iota zeta in H end;
  apply Ok_inj, DataFrame_eq in H; destruct H as [-> ->];
  do 6 eexists; cbv zeta;
  (split; [reflexivity|]); rewrite ?Hi;
  (split; [reflexivity|]); rewrite ?Hd;
  (split; [reflexivity|]); (split; [reflexivity|]); (split; [reflexivity|]);
  first [intros; discriminate | intros _; exact Hb].
Qed.

(** What [_clean_panel] returns. *)
Lemma _clean_panel_spec (panel out : DataFrame) :
  _clean_panel panel = Ok out ->
  firstn 5 (columns out) = panel_columns /\
  column "channel" (rows out) = column "channel" (sort_values (rows panel)) /\
  column "name" (rows out) = numbered (column "name" (sort_values (rows panel))) /\
  (has_column "keep" (columns panel) = false ->
   Forall (eq (Bool true)) (column "keep" (rows out))).
Proof.
  intros H. apply _clean_panel_Ok in H.
  destruct H as (Hc & Hn & cols1 & cols2 & cols3 & rs1 & rs2 & rs3 & H).
  cbv zeta in H. destruct H as (H1 & H2 & H3 & -> & -> & _).
  destruct (has_column "keep" (columns panel)) eqn:Hk; injection H1 as -> ->;
  destruct (has_column "ilastik" _) eqn:Hi; injection H2 as -> ->;
  destruct (has_column "deepcell" _) eqn:Hd; injection H3 as -> ->.
  all: split; [|split; [|split]].
  all: try (apply move_to_front_panel_columns; intros c Hin;
       try apply has_column_In in Hk; try apply has_column_In in Hi;
       try apply has_column_In in Hd;
       rewrite ?in_app_iff in Hi; rewrite ?in_app_iff in Hd; rewrite ?in_app_iff;
       simpl in Hin, Hi, Hd |- *; intuition (subst; auto)).
  all: try discriminate.
  all: try intros _.
  all: repeat first [ rewrite column_set_cell_other by reflexivity
                    | rewrite column_number_rows_other by reflexivity ].
  all: first [ apply column_suffix_names_other; reflexivity
             | apply column_suffix_names_name
             | apply column_set_cell_same ].
Qed.

(** *** Panels from acquisitions *)

(** [pd.DataFrame({"channel": Series(names), "name": Series(labels)})]: the
    shorter series is filled up with missing values. *)
Definition empty_row : row := fun _ => NA.

Fixpoint channel_rows (names labels : list string) {struct names} : list row :=
  match names with
  | [] => map (fun l => set_cell "name" (Str l) empty_row) labels
  | n :: names' =>
      match labels with
      | [] => set_cell "channel" (Str n) empty_row :: channel_rows names' []
      | l :: labels' =>
          set_cell "name" (Str l) (set_cell "channel" (Str n) empty_row)
            :: channel_rows names' labels'
      end
  end.

Definition acquisition_panel {A} `{AcquisitionBase A} (a : A) : list row :=
  channel_rows (channel_names a) (channel_labels a).

(** [pd.concat], [drop_duplicates] and [_clean_panel]; nothing to
    concatenate is a [ValueError]. *)
Definition panel_of (panels : list (list row)) : res DataFrame :=
  match panels with
  | [] => Raise ValueError
  | _ =>
      _clean_panel
        {| columns := ["channel"; "name"];
           rows := drop_duplicates ["channel"; "name"] (concat panels) |}
  end.

Variable MCDFile_open : string -> res MCDFile.
Variable TXTFile_open : string -> res TXTFile.

(** The panels of the acquisitions of the files, in order; the first file
    that cannot be opened ends the call. *)
Fixpoint mcd_panels (mcd_files : list pathlike) : res (list (list row)) :=
  match mcd_files with
  | [] => Ok []
  | mcd_file :: mcd_files' =>
      match MCDFile_open (Path mcd_file) with
      | Raise e => Raise e
      | Ok f =>
          match mcd_panels mcd_files' with
          | Raise e => Raise e
          | Ok panels =>
              Ok (map acquisition_panel (flat_map acquisitions (slides f)) ++ panels)
          end
      end
  end.

Definition create_panel_from_mcd_files (mcd_files : list pathlike) : res DataFrame :=
  match mcd_panels mcd_files with
  | Raise e => Raise e
  | Ok panels => panel_of panels
  end.

Fixpoint txt_panels (txt_files : list pathlike) : res (list (list row)) :=
  match txt_files with
  | [] => Ok []
  | txt_file :: txt_files' =>
      match TXTFile_open (Path txt_file) with
      | Raise e => Raise e
      | Ok f =>
          match txt_panels txt_files' with
          | Raise e => Raise e
          | Ok panels => Ok (acquisition_panel f :: panels)
          end
      end
  end.

Definition create_panel_from_txt_files (txt_files : list pathlike) : res DataFrame :=
  match txt_panels txt_files with
  | Raise e => Raise e
  | Ok panels => panel_of panels
  end.

(** *** What the panels of acquisitions contain *)

(** A panel has the five columns in front and its rows in the order of the
    channel keys. *)
Definition panel_layout (out : DataFrame) : Prop :=
  firstn 5 (columns out) = panel_columns /\ sorted_by_channel (rows out).

Definition all_kept (out : DataFrame) : Prop :=
  Forall (eq (Bool true)) (column "keep" (rows out)).

Lemma panel_of_spec (panels : list (list row)) (out : DataFrame) :
  panel_of panels = Ok out ->
  panel_layout out /\ all_kept out /\
  exists pairs,
    NoDup pairs /\
    (forall p, In p pairs <-> In p (map pair_of (concat panels))) /\
    column "channel" (rows out) = map fst pairs /\
    column "name" (rows out) = numbered (map snd pairs).
Proof.
  unfold panel_of. destruct panels as [|p0 panels]; [discriminate|].
  generalize (concat (p0 :: panels)). intros rs H.
  apply _clean_panel_spec in H. cbn [columns rows] in H.
  destruct H as (Hcols & Hch & Hname & Hkeep).
  split; [split; [exact Hcols|]|split; [apply Hkeep; reflexivity|]].
  - unfold sorted_by_channel. rewrite Hch. apply sort_values_sorted.
  - exists (map pair_of (sort_values (drop_duplicates ["channel"; "name"] rs))).
    destruct (drop_duplicates_pairs rs) as [Hnd Hin].
    pose proof (Permutation_map pair_of
                  (sort_values_Permutation (drop_duplicates ["channel"; "name"] rs))) as Hp.
    split; [rewrite Hp; exact Hnd|].
    split.
    + intros p. rewrite <- Hin. split; intros Hq; apply list_elem_of_In;
        apply list_elem_of_In in Hq; [rewrite <- Hp | rewrite Hp]; exact Hq.
    + rewrite Hch, Hname. unfold column. rewrite !map_map. split; reflexivity.
Qed.

(** The acquisitions of opened files, in order. *)
Definition all_acquisitions (files : list MCDFile) : list Acquisition :=
  flat_map (fun f => flat_map acquisitions (slides f)) files.

Lemma mcd_panels_spec (mcd_files : list pathlike) :
  forall panels,
  mcd_panels mcd_files = Ok panels ->
  exists files,
    Forall2 (fun mcd_file f => MCDFile_open (Path mcd_file) = Ok f) mcd_files files /\
    panels = map acquisition_panel (all_acquisitions files).
Proof.
  induction mcd_files as [|m ms IH]; simpl; intros panels H.
  - injection H as <-. exists []. split; [constructor | reflexivity].
  - destruct (MCDFile_open (Path m)) as [f|e] eqn:Ho; [|discriminate].
    destruct (mcd_panels ms) as [ps|e]; [|discriminate].
    injection H as <-. destruct (IH ps eq_refl) as (files & Hf & ->).
    exists (f :: files). split; [constructor; assumption|].
    unfold all_acquisitions. simpl. rewrite map_app. reflexivity.
Qed.

Lemma txt_panels_spec (txt_files : list pathlike) :
  forall panels,
  txt_panels txt_files = Ok panels ->
  exists files,
    Forall2 (fun txt_file f => TXTFile_open (Path txt_file) = Ok f) txt_files files /\
    panels = map acquisition_panel files.
Proof.
  induction txt_files as [|m ms IH]; simpl; intros panels H.
  - injection H as <-. exists []. split; [constructor | reflexivity].
  - destruct (TXTFile_open (Path m)) as [f|e] eqn:Ho; [|discriminate].
    destruct (txt_panels ms) as [ps|e]; [|discriminate].
    injection H as <-. destruct (IH ps eq_refl) as (files & Hf & ->).
    exists (f :: files). split; [constructor; assumption | reflexivity].
Qed.

(** The (channel, name) pairs of one acquisition. *)
Definition acquisition_pairs {A} `{AcquisitionBase A} (a : A) : list (cell * cell) :=
  map pair_of (acquisition_panel a).

Lemma acquisition_pairs_combine {A} `{AcquisitionBase A} (a : A) :
  List.length (channel_names a) = List.length (channel_labels a) ->
  acquisition_pairs a = combine (map Str (channel_names a)) (map Str (channel_labels a)).
Proof.
  unfold acquisition_pairs, acquisition_panel.
  generalize (channel_labels a). induction (channel_names a) as [|n ns IH];
    intros [|l ls] Hlen; simpl in *; try discriminate; [reflexivity|].
  f_equal. apply IH. lia.
Qed.

Lemma In_pairs_concat {A} `{AcquisitionBase A} (acqs : list A) (p : cell * cell) :
  In p (map pair_of (concat (map acquisition_panel acqs))) <->
  exists a, In a acqs /\ In p (acquisition_pairs a).
Proof.
  induction acqs as [|a acqs IH]; simpl.
  - split; [tauto | intros (a & [] & _)].
  - rewrite map_app, in_app_iff, IH. split.
    + intros [Hp | (b & Hb & Hp)]; eauto.
    + intros (b & [<-|Hb] & Hp); [left; exact Hp | right; eauto].
Qed.

(** C5, amended: the panel of MCD files has exactly one row for each
    distinct (channel, name) pair of the acquisitions of the files; the row
    carries the channel of the pair and its name, numbered when several rows
    share the name. *)
Theorem create_panel_from_mcd_files_rows (mcd_files : list pathlike) (out : DataFrame) :
  create_panel_from_mcd_files mcd_files = Ok out ->
  exists files pairs,
    Forall2 (fun mcd_file f => MCDFile_open (Path mcd_file) = Ok f) mcd_files files /\
    NoDup pairs /\
    (forall p, In p pairs <->
               exists a, In a (all_acquisitions files) /\ In p (acquisition_pairs a)) /\
    column "channel" (rows out) = map fst pairs /\
    column "name" (rows out) = numbered (map snd pairs).
Proof.
  unfold create_panel_from_mcd_files. intros H.
  destruct (mcd_panels mcd_files) as [panels|e] eqn:Hp; [|discriminate].
  apply mcd_panels_spec in Hp. destruct Hp as (files & Hf & ->).
  apply panel_of_spec in H. destruct H as (_ & _ & pairs & Hnd & Hin & Hc & Hn).
  exists files, pairs. split; [exact Hf|]. split; [exact Hnd|].
  split; [|split; assumption].
  intros p. rewrite Hin. apply In_pairs_concat.
Qed.

(** *** [create_panel_from_imc_panel]

    [pd.read_csv] is input: the function is given the table read from the
    file. *)

(** [d[k] = v] on a [dict] in insertion order. *)
Fixpoint dict_set (k v : string) (d : list (string * string)) : list (string * string) :=
  match d with
  | [] => [(k, v)]
  | (k', v') :: d' =>
      if String.eqb k k' then (k, v) :: d' else (k', v') :: dict_set k v d'
  end.

Fixpoint dict_get (k : string) (d : list (string * string)) : option string :=
  match d with
  | [] => None
  | (k', v) :: d' => if String.eqb k k' then Some v else dict_get k d'
  end.

Definition rename_columns (channel_col name_col keep_col ilastik_col : string)
    : list (string * string) :=
  dict_set ilastik_col "ilastik"
    (dict_set keep_col "keep"
       (dict_set name_col "name"
          (dict_set channel_col "channel" []))).

(** The label of a column after [rename(columns=d)]. *)
Definition renamed (d : list (string * string)) (col : string) : string :=
  default col (dict_get col d).

Definition rename_row (d : list (string * string)) (kept : list string) (r : row) : row :=
  fun col' =>
    match List.find (fun col => String.eqb (renamed d col) col') kept with
    | Some col => r col
    | None => NA
    end.

Definition str_of (c : cell) : option string :=
  match c with Str s => Some s | _ => None end.

(** Python truth of a cell, a missing value counting as false. *)
Definition truthy (c : cell) : bool :=
  match c with
  | NA => false
  | Str s => negb (String.eqb s "")
  | Bool b => b
  | UInt n => negb (N.eqb n 0)
  end.

(** [Series.unique]: the first occurrences, in order. *)
Fixpoint unique_from (seen l : list string) : list string :=
  match l with
  | [] => []
  | x :: l' =>
      if existsb (String.eqb x) seen then unique_from seen l'
      else x :: unique_from (x :: seen) l'
  end.

Fixpoint join (sep : string) (l : list string) : string :=
  match l with
  | [] => ""
  | [x] => x
  | x :: l' => x +:+ sep +:+ join sep l'
  end.

Definition group_of (rs : list row) (key : cell) : list row :=
  List.filter (fun r => cell_eqb (r "channel") key) rs.

(** The body of [for _, g in panel.groupby("channel")], seen from a row of
    the group. *)
Definition merge_group (cols : list string) (rs : list row) (r : row) : row :=
  if isna (r "channel") then r
  else
    let g := group_of rs (r "channel") in
    let r := set_cell "name" (Str (join " / " (unique_from [] (omap str_of (column "name" g))))) r in
    let r :=
      if has_column "keep" cols
      then set_cell "keep" (Bool (existsb truthy (column "keep" g))) r else r in
    if has_column "ilastik" cols
    then set_cell "ilastik" (Bool (existsb truthy (column "ilastik" g))) r else r.

Fixpoint insert_string (x : string) (l : list string) : list string :=
  match l with
  | [] => [x]
  | y :: l' => if String.ltb y x then y :: insert_string x l' else x :: y :: l'
  end.

(** The group keys: the distinct channels in ascending order. *)
Definition group_keys (rs : list row) : list string :=
  fold_right insert_string [] (unique_from [] (omap str_of (column "channel" rs))).

Definition first_valid (l : list cell) : cell :=
  default NA (List.find (fun c => negb (isna c)) l).

(** [panel.groupby(panel["channel"].values).aggregate("first")]: one row per
    channel, each column with the first value of the group that is there. *)
Definition aggregate_first (rs : list row) : list row :=
  map (fun k => fun col => first_valid (column col (group_of rs (Str k)))) (group_keys rs).

Definition SteinbockIMCPreprocessingException_missing_column (col : string) : exn :=
  SteinbockIMCPreprocessingException ("Missing '" +:+ col +:+ "' column in IMC panel").

Definition SteinbockIMCPreprocessingException_missing_values (col : string) : exn :=
  SteinbockIMCPreprocessingException ("Missing values for '" +:+ col +:+ "' in IMC panel").

Definition create_panel_from_imc_panel (imc_panel : DataFrame)
    (imc_panel_channel_col imc_panel_name_col imc_panel_keep_col imc_panel_ilastik_col : string)
    : res DataFrame :=
  let cols := columns imc_panel in
  match List.find (fun col => negb (has_column col cols))
          [imc_panel_channel_col; imc_panel_name_col] with
  | Some required_col => Raise (SteinbockIMCPreprocessingException_missing_column required_col)
  | None =>
  match List.find (fun col => has_column col cols && existsb isna (column col (rows imc_panel)))
          [imc_panel_channel_col; imc_panel_keep_col; imc_panel_ilastik_col] with
  | Some notnan_col => Raise (SteinbockIMCPreprocessingException_missing_values notnan_col)
  | None =>
      let d := rename_columns imc_panel_channel_col imc_panel_name_col
                 imc_panel_keep_col imc_panel_ilastik_col in
      let drop_columns :=
        map snd (List.filter
                   (fun kv => has_column (snd kv) cols && negb (String.eqb (snd kv) (fst kv)))
                   d) in
      let kept := List.filter (fun col => negb (has_column col drop_columns)) cols in
      let cols := map (renamed d) kept in
      let rs := map (rename_row d kept) (rows imc_panel) in
      if negb (has_column "channel" cols) then Raise KeyError
      else if negb (has_column "name" cols) then Raise KeyError
      else
        let rs := map (merge_group cols rs) rs in
        match _clean_panel {| columns := cols; rows := aggregate_first rs |} with
        | Raise e => Raise e
        | Ok panel =>
            match number_uint8 "ilastik" (fun r => truthy (r "ilastik")) (rows panel) with
            | Raise e => Raise e
            | Ok rs => Ok {| columns := columns panel; rows := rs |}
            end
        end
  end end.

(** *** What the panel of an IMC panel file contains *)

Lemma dict_get_dict_set (k v : string) (d : list (string * string)) (c : string) :
  dict_get c (dict_set k v d) = if String.eqb c k then Some v else dict_get c d.
Proof.
  induction d as [|[k' v'] d IH]; simpl; [reflexivity|].
  destruct (String.eqb k k') eqn:E; simpl.
  - apply String.eqb_eq in E. subst k'. destruct (String.eqb c k); reflexivity.
  - rewrite IH. destruct (String.eqb c k') eqn:E'; [|reflexivity].
    apply String.eqb_eq in E'. subst k'. rewrite String.eqb_sym, E. reflexivity.
Qed.

Lemma In_dict_set_same (k v : string) (d : list (string * string)) :
  In (k, v) (dict_set k v d).
Proof.
  induction d as [|[k' v'] d IH]; simpl; [auto|].
  destruct (String.eqb k k'); simpl; auto.
Qed.

Lemma In_dict_set_other (k v a b : string) (d : list (string * string)) :
  a <> k -> In (a, b) d -> In (a, b) (dict_set k v d).
Proof.
  intros Hne. induction d as [|[k' v'] d IH]; simpl; [tauto|].
  destruct (String.eqb k k') eqn:E; simpl.
  - apply String.eqb_eq in E. subst k'. intros [[= -> ->]|H]; [congruence | auto].
  - intros [H|H]; auto.
Qed.

(** Without the keep column of the file, and unless a column labelled
    ["keep"] survives because the keep and ilastik columns are the same, the
    table handed to [_clean_panel] has no ["keep"] column. *)
Lemma renamed_columns_without_keep (cols : list string)
    (channel_col name_col keep_col ilastik_col : string) :
  ~ In keep_col cols ->
  (~ In "keep" cols \/ keep_col <> ilastik_col) ->
  let d := rename_columns channel_col name_col keep_col ilastik_col in
  let drop_columns :=
    map snd (List.filter
               (fun kv => has_column (snd kv) cols && negb (String.eqb (snd kv) (fst kv)))
               d) in
  let kept := List.filter (fun col => negb (has_column col drop_columns)) cols in
  has_column "keep" (map (renamed d) kept) = false.
Proof.
  intros Hkc Hkeep d drop_columns kept.
  destruct (has_column "keep" (map (renamed d) kept)) eqn:E; [|reflexivity].
  exfalso. apply has_column_In, in_map_iff in E. destruct E as (c & Hren & Hc).
  apply filter_In in Hc. destruct Hc as [Hc Hdrop].
  unfold renamed in Hren.
  destruct (dict_get c d) as [v|] eqn:Hget; simpl in Hren.
  - subst v. unfold d, rename_columns in Hget. rewrite !dict_get_dict_set in Hget.
    simpl in Hget.
    destruct (String.eqb c ilastik_col); [discriminate|].
    destruct (String.eqb c keep_col) eqn:Ek.
    + apply String.eqb_eq in Ek. subst c. contradiction.
    + destruct (String.eqb c name_col); [discriminate|].
      destruct (String.eqb c channel_col); discriminate.
  - subst c. destruct Hkeep as [Hno|Hne]; [contradiction|].
    apply negb_true_iff in Hdrop.
    assert (Hin : has_column "keep" drop_columns = true); [|congruence].
    apply has_column_In. unfold drop_columns. apply in_map_iff.
    exists (keep_col, "keep"). split; [reflexivity|].
    apply filter_In. split.
    + unfold d, rename_columns. apply In_dict_set_other; [exact Hne|].
      apply In_dict_set_same.
    + cbn [fst snd]. apply andb_true_iff. split; [apply has_column_In; exact Hc|].
      apply negb_true_iff, String.eqb_neq. intros <-. contradiction.
Qed.

Lemma create_panel_from_imc_panel_spec (imc_panel : DataFrame)
    (channel_col name_col keep_col ilastik_col : string) (out : DataFrame) :
  create_panel_from_imc_panel imc_panel channel_col name_col keep_col ilastik_col = Ok out ->
  let cols := columns imc_panel in
  let d := rename_columns channel_col name_col keep_col ilastik_col in
  let drop_columns :=
    map snd (List.filter
               (fun kv => has_column (snd kv) cols && negb (String.eqb (snd kv) (fst kv)))
               d) in
  let kept := List.filter (fun col => negb (has_column col drop_columns)) cols in
  let rs := map (rename_row d kept) (rows imc_panel) in
  exists panel,
    _clean_panel {| columns := map (renamed d) kept;
                    rows := aggregate_first (map (merge_group (map (renamed d) kept) rs) rs) |}
      = Ok panel /\
    columns out = columns panel /\
    rows out = number_rows "ilastik" (fun r => truthy (r "ilastik")) 1%N (rows panel).
Proof.
  unfold create_panel_from_imc_panel. intros H.
  destruct (List.find _ [channel_col; name_col]); [discriminate|].
  destruct (List.find _ [channel_col; keep_col; ilastik_col]); [discriminate|].
  cbv zeta in H.
  destruct (negb (has_column "channel" _)); [discriminate|].
  destruct (negb (has_column "name" _)); [discriminate|].
  destruct (_clean_panel _) as [panel|e] eqn:Hclean; [|discriminate].
  unfold number_uint8 in H.
  destruct (255 <? _)%nat; [discriminate|].
  apply Ok_inj in H. subst out.
  exists panel. split; [reflexivity|]. split; reflexivity.
Qed.

Lemma panel_of_layout (panels : list (list row)) (out : DataFrame) :
  panel_of panels = Ok out -> panel_layout out /\ all_kept out.
Proof. intros H. apply panel_of_spec in H. tauto. Qed.

(** C6: a returned panel has the columns channel, name, keep, ilastik and
    deepcell in front, in this order, and its rows in the order of the
    numbers written by the digits of their channels (channels without a digit
    last); keep is true in every row of a panel made from MCD or text files,
    and of a panel made from an IMC panel file without its keep column. *)
Theorem returned_panel_layout :
  (forall mcd_files out,
     create_panel_from_mcd_files mcd_files = Ok out -> panel_layout out /\ all_kept out) /\
  (forall txt_files out,
     create_panel_from_txt_files txt_files = Ok out -> panel_layout out /\ all_kept out) /\
  (forall imc_panel channel_col name_col keep_col ilastik_col out,
     create_panel_from_imc_panel imc_panel channel_col name_col keep_col ilastik_col
       = Ok out ->
     panel_layout out /\
     (~ In keep_col (columns imc_panel) ->
      ~ In "keep" (columns imc_panel) \/ keep_col <> ilastik_col ->
      all_kept out)).
Proof.
  split; [|split].
  - unfold create_panel_from_mcd_files. intros mcd_files out H.
    destruct (mcd_panels mcd_files) as [panels|e]; [|discriminate].
    apply (panel_of_layout panels). exact H.
  - unfold create_panel_from_txt_files. intros txt_files out H.
    destruct (txt_panels txt_files) as [panels|e]; [|discriminate].
    apply (panel_of_layout panels). exact H.
  - intros imc_panel channel_col name_col keep_col ilastik_col out H.
    apply create_panel_from_imc_panel_spec in H. cbv zeta in H.
    destruct H as (panel & Hclean & Hcols & Hrows).
    pose proof (_clean_panel_spec _ _ Hclean) as (Hfirst & Hch & _ & Hkeep).
    cbn [columns rows] in Hch, Hkeep.
    split; [split|].
    + rewrite Hcols. exact Hfirst.
    + unfold sorted_by_channel. rewrite Hrows.
      rewrite column_number_rows_other by reflexivity.
      rewrite Hch. apply sort_values_sorted.
    + intros Hkc Hk. unfold all_kept. rewrite Hrows.
      rewrite column_number_rows_other by reflexivity.
      apply Hkeep. apply renamed_columns_without_keep; assumption.
Qed.

Lemma unique_from_spec (l : list string) :
  forall seen,
  NoDup (unique_from seen l) /\
  forall x, In x (unique_from seen l) <-> In x l /\ ~ In x seen.
Proof.
  induction l as [|y l IH]; intros seen; simpl.
  - split; [constructor | tauto].
  - destruct (existsb (String.eqb y) seen) eqn:E.
    + assert (Hy : In y seen).
      { apply existsb_exists in E. destruct E as (z & Hz & Ez).
        apply String.eqb_eq in Ez. subst z. exact Hz. }
      destruct (IH seen) as [Hnd Hin]. split; [exact Hnd|].
      intros x. rewrite Hin. split; [tauto|]. intros [[<-|Hx] Hs]; tauto.
    + assert (Hy : ~ In y seen).
      { intros Hy. assert (existsb (String.eqb y) seen = true); [|congruence].
        apply existsb_exists. exists y. split; [exact Hy | apply String.eqb_refl]. }
      destruct (IH (y :: seen)) as [Hnd Hin]. split.
      * apply NoDup_cons_2; [|exact Hnd].
        intros Hx. apply list_elem_of_In, Hin in Hx. simpl in Hx. tauto.
      * intros x. simpl. rewrite Hin. simpl. split.
        -- intros [<-|[Hx Hs]]; tauto.
        -- intros [[<-|Hx] Hs]; [tauto|].
           destruct (string_dec y x) as [->|Hne]; [tauto|]. right. tauto.
Qed.

Lemma insert_string_Permutation (x : string) (l : list string) :
  Permutation (insert_string x l) (x :: l).
Proof.
  induction l as [|y l IH]; simpl; [reflexivity|].
  destruct (String.ltb y x); [|reflexivity].
  rewrite IH. apply perm_swap.
Qed.

Lemma group_keys_Permutation (rs : list row) :
  Permutation (group_keys rs) (unique_from [] (omap str_of (column "channel" rs))).
Proof.
  unfold group_keys. induction (unique_from [] _) as [|x l IH]; simpl; [reflexivity|].
  rewrite insert_string_Permutation. constructor. exact IH.
Qed.

Lemma group_keys_NoDup (rs : list row) : NoDup (group_keys rs).
Proof.
  rewrite group_keys_Permutation. apply unique_from_spec.
Qed.

Lemma group_keys_In (rs : list row) (k : string) :
  In k (group_keys rs) -> exists r, In r rs /\ r "channel" = Str k.
Proof.
  intros H. apply list_elem_of_In in H. rewrite group_keys_Permutation in H.
  apply list_elem_of_In, unique_from_spec in H. destruct H as [H _].
  apply list_elem_of_In, list_elem_of_omap in H. destruct H as (c & Hc & Hs).
  apply list_elem_of_In, in_map_iff in Hc. destruct Hc as (r & <- & Hr).
  exists r. split; [exact Hr|].
  destruct (r "channel"); simpl in Hs; congruence.
Qed.

Lemma first_valid_group (rs : list row) (k : string) :
  (exists r, In r rs /\ r "channel" = Str k) ->
  first_valid (column "channel" (group_of rs (Str k))) = Str k.
Proof.
  intros (r0 & Hr0 & Hk). unfold group_of.
  induction rs as [|r rs IH]; simpl; [destruct Hr0|].
  destruct (cell_eqb (r "channel") (Str k)) eqn:E.
  - apply cell_eqb_eq in E. simpl. unfold first_valid. simpl. rewrite E. reflexivity.
  - destruct Hr0 as [->|Hr0]; [|auto].
    rewrite Hk in E. simpl in E. rewrite String.eqb_refl in E. discriminate.
Qed.

Lemma aggregate_first_channels (rs : list row) :
  column "channel" (aggregate_first rs) = map Str (group_keys rs).
Proof.
  unfold aggregate_first, column. rewrite map_map. apply map_ext_in.
  intros k Hk. apply first_valid_group, group_keys_In, Hk.
Qed.

Lemma NoDup_map_Str (l : list string) : NoDup l -> NoDup (map Str l).
Proof.
  induction 1 as [|x l Hx Hnd IH]; simpl; constructor; [|exact IH].
  intros H. apply list_elem_of_In, in_map_iff in H. destruct H as (y & [= ->] & Hy).
  apply Hx, list_elem_of_In, Hy.
Qed.

(** X22: the channels of a panel made from an IMC panel file are pairwise
    distinct: the rows were merged by channel. *)
Lemma create_panel_from_imc_panel_unique_channels (imc_panel : DataFrame)
    (channel_col name_col keep_col ilastik_col : string) (out : DataFrame) :
  create_panel_from_imc_panel imc_panel channel_col name_col keep_col ilastik_col = Ok out ->
  NoDup (column "channel" (rows out)).
Proof.
  intros H. apply create_panel_from_imc_panel_spec in H. cbv zeta in H.
  destruct H as (panel & Hclean & _ & Hrows).
  match type of Hclean with context [aggregate_first ?x] => set (merged := x) in * end.
  pose proof (_clean_panel_spec _ _ Hclean) as (_ & Hch & _).
  cbn [columns rows] in Hch.
  rewrite Hrows, column_number_rows_other by reflexivity. rewrite Hch.
  unfold column at 1. rewrite (Permutation_map _ (sort_values_Permutation _)).
  change (NoDup (column "channel" (aggregate_first merged))).
  rewrite aggregate_first_channels.
  apply NoDup_map_Str, group_keys_NoDup.
Qed.

(** *** Further properties of the panels *)

(** The rows that get a number when the ilastik column is made: those kept,
    which are all of them when the keep column is made as well. *)
Definition numbered_rows (panel : DataFrame) : nat :=
  if has_column "keep" (columns panel)
  then List.length (List.filter (fun r => is_true (r "keep")) (rows panel))
  else List.length (rows panel).

Lemma filter_column_length (col : string) (f : cell -> bool) (rs : list row) :
  List.length (List.filter (fun r => f (r col)) rs) =
  List.length (List.filter f (column col rs)).
Proof.
  induction rs as [|r rs IH]; simpl; [reflexivity|].
  destruct (f (r col)); simpl; rewrite IH; reflexivity.
Qed.

Lemma filter_length_Permutation {A} (f : A -> bool) (l l' : list A) :
  Permutation l l' -> List.length (List.filter f l) = List.length (List.filter f l').
Proof.
  induction 1 as [|x l l' Hp IH|x y l|l l' l'' Hp1 IH1 Hp2 IH2]; simpl.
  - reflexivity.
  - destruct (f x); simpl; rewrite IH; reflexivity.
  - destruct (f x), (f y); reflexivity.
  - congruence.
Qed.

Lemma numbered_rows_count (panel : DataFrame) :
  let rs0 := sort_values (rows panel) in
  let rsn := suffix_names (column "name" rs0) [] rs0 in
  List.length
    (List.filter (fun r : row => is_true (r "keep"))
       (if has_column "keep" (columns panel) then rsn
        else map (set_cell "keep" (Bool true)) rsn)) =
  numbered_rows panel.
Proof.
  intros rs0 rsn. subst rsn rs0. unfold numbered_rows.
  destruct (has_column "keep" (columns panel)).
  - rewrite !(filter_column_length "keep" is_true).
    rewrite column_suffix_names_other by reflexivity.
    apply filter_length_Permutation. unfold column.
    apply Permutation_map, sort_values_Permutation.
  - rewrite (filter_column_length "keep" is_true), column_set_cell_repeat.
    rewrite length_suffix_names.
    rewrite (Permutation_length (sort_values_Permutation (rows panel))).
    induction (List.length (rows panel)) as [|n IH]; simpl; [reflexivity | f_equal; exact IH].
Qed.

Lemma has_column_ilastik_after_keep (cols : list string) :
  has_column "ilastik" (if has_column "keep" cols then cols else cols ++ ["keep"]) =
  has_column "ilastik" cols.
Proof.
  destruct (has_column "keep" cols); [reflexivity|].
  rewrite has_column_app. apply orb_false_r.
Qed.

(** What [_clean_panel] does with both columns there: it raises when the
    numbers of a fresh ilastik column do not fit, and returns otherwise. *)
Lemma _clean_panel_outcome (panel : DataFrame) :
  In "channel" (columns panel) -> In "name" (columns panel) ->
  if negb (has_column "ilastik" (columns panel)) && (255 <? numbered_rows panel)%nat
  then _clean_panel panel = Raise TypeError
  else exists out, _clean_panel panel = Ok out.
Proof.
  intros Hc Hn. apply has_column_In in Hc, Hn.
  pose proof (numbered_rows_count panel) as Hcount. cbv zeta in Hcount.
  pose proof (has_column_ilastik_after_keep (columns panel)) as Hil.
  unfold _clean_panel. rewrite Hc, Hn. unfold negb at 1 2. cbv iota.
  destruct (has_column "keep" (columns panel)) eqn:Hk; cbv beta iota zeta.
  - destruct (has_column "ilastik" (columns panel)) eqn:Hi; cbn [negb andb].
    + match goal with |- context [has_column "deepcell" ?cols] =>
        destruct (has_column "deepcell" cols); cbv beta iota zeta end;
        eexists; reflexivity.
    + unfold number_uint8. rewrite Hcount.
      destruct (255 <? numbered_rows panel)%nat; [reflexivity|].
      cbv beta iota zeta.
      match goal with |- context [has_column "deepcell" ?cols] =>
        destruct (has_column "deepcell" cols); cbv beta iota zeta end;
        eexists; reflexivity.
  - rewrite Hil.
    destruct (has_column "ilastik" (columns panel)) eqn:Hi; cbn [negb andb].
    + match goal with |- context [has_column "deepcell" ?cols] =>
        destruct (has_column "deepcell" cols); cbv beta iota zeta end;
        eexists; reflexivity.
    + unfold number_uint8. rewrite Hcount.
      destruct (255 <? numbered_rows panel)%nat; [reflexivity|].
      cbv beta iota zeta.
      match goal with |- context [has_column "deepcell" ?cols] =>
        destruct (has_column "deepcell" cols); cbv beta iota zeta end;
        eexists; reflexivity.
Qed.

(** With both columns there and numbers that fit, [_clean_panel] returns. *)
Lemma _clean_panel_returns (panel : DataFrame) :
  In "channel" (columns panel) -> In "name" (columns panel) ->
  (~ In "ilastik" (columns panel) -> numbered_rows panel <= 255) ->
  exists out, _clean_panel panel = Ok out.
Proof.
  intros Hc Hn Hfit. pose proof (_clean_panel_outcome panel Hc Hn) as H.
  destruct (has_column "ilastik" (columns panel)) eqn:Hi; [exact H|].
  destruct (255 <? numbered_rows panel)%nat eqn:Hb; [|exact H].
  apply Nat.ltb_lt in Hb. exfalso.
  assert (numbered_rows panel <= 255); [|lia].
  apply Hfit. intros Hin. apply has_column_In in Hin. congruence.
Qed.

(** The tables [_clean_panel] is made for: strings in the columns channel
    and name, booleans in the column keep, as far as the columns are
    there. *)
Definition is_string_or_missing (c : cell) : Prop :=
  match c with NA | Str _ => True | _ => False end.

Definition is_boolean (c : cell) : Prop :=
  match c with Bool _ => True | _ => False end.

Definition column_holds (P : cell -> Prop) (col : string) (panel : DataFrame) : Prop :=
  In col (columns panel) -> Forall P (column col (rows panel)).

Definition typed_panel (panel : DataFrame) : Prop :=
  column_holds is_string_or_missing "channel" panel /\
  column_holds is_string_or_missing "name" panel /\
  column_holds is_boolean "keep" panel.

(** X15: on a table with strings in its channel and name columns and
    booleans in its keep column, [_clean_panel] raises in exactly two cases:
    a [KeyError] when the table lacks the column ["channel"] or the column
    ["name"]; a [TypeError] when both are there, the table has no
    ["ilastik"] column and more than 255 rows are to be numbered in the new
    one, which holds unsigned bytes. *)
Theorem _clean_panel_raises (panel : DataFrame) (e : exn) :
  typed_panel panel ->
  _clean_panel panel = Raise e <->
  ((~ In "channel" (columns panel) \/ ~ In "name" (columns panel)) /\ e = KeyError) \/
  (In "channel" (columns panel) /\ In "name" (columns panel) /\
   ~ In "ilastik" (columns panel) /\ 255 < numbered_rows panel /\ e = TypeError).
Proof.
  intros _.
  destruct (in_dec string_dec "channel" (columns panel)) as [Hc|Hc].
  - destruct (in_dec string_dec "name" (columns panel)) as [Hn|Hn].
    + pose proof (_clean_panel_outcome panel Hc Hn) as H.
      destruct (has_column "ilastik" (columns panel)) eqn:Hi; cbn [negb andb] in H.
      * destruct H as [out ->]. apply has_column_In in Hi.
        split; [discriminate | tauto].
      * assert (Hno : ~ In "ilastik" (columns panel))
          by (intros Hin; apply has_column_In in Hin; congruence).
        destruct (255 <? numbered_rows panel)%nat eqn:Hb.
        -- apply Nat.ltb_lt in Hb. rewrite H. split.
           ++ intros [= <-]. right. auto.
           ++ intros [[[Ha|Ha] _] | (_ & _ & _ & _ & ->)]; [tauto | tauto | reflexivity].
        -- apply Nat.ltb_ge in Hb. destruct H as [out ->].
           split; [discriminate|].
           intros [[[Ha|Ha] _] | (_ & _ & _ & Hlt & _)]; [tauto | tauto | lia].
    + assert (E : _clean_panel panel = Raise KeyError).
      { unfold _clean_panel. apply has_column_In in Hc. rewrite Hc.
        destruct (has_column "name" (columns panel)) eqn:En; [|reflexivity].
        apply has_column_In in En. contradiction. }
      rewrite E. split; [intros [= <-]; auto |].
      intros [[_ ->] | (_ & Hn' & _)]; [reflexivity | contradiction].
  - assert (E : _clean_panel panel = Raise KeyError).
    { unfold _clean_panel.
      destruct (has_column "channel" (columns panel)) eqn:Ec; [|reflexivity].
      apply has_column_In in Ec. contradiction. }
    rewrite E. split; [intros [= <-]; auto |].
    intros [[_ ->] | (Hc' & _)]; [reflexivity | contradiction].
Qed.

Lemma absent_column (cs cols cols' : list string) (col : string) :
  (forall c, In c cs -> c <> "name" /\ In c cols) ->
  (forall c, In c cols -> In c cols') ->
  has_column col cols' = false -> ~ In col cs.
Proof.
  intros Hcs Hsub Hno Hin.
  assert (has_column col cols' = true); [|congruence].
  apply has_column_In, Hsub, Hcs, Hin.
Qed.

(** X16: [_clean_panel] loses no data.  The returned table has as many rows
    as the given one; its columns are the given ones and ["keep"],
    ["ilastik"] and ["deepcell"]; and the given columns other than ["name"]
    hold the given rows, rearranged. *)
Theorem _clean_panel_keeps_the_data (panel out : DataFrame) :
  _clean_panel panel = Ok out ->
  List.length (rows out) = List.length (rows panel) /\
  (forall c, In c (columns out) <->
             In c (columns panel) \/ In c ["keep"; "ilastik"; "deepcell"]) /\
  (forall cs, (forall c, In c cs -> c <> "name" /\ In c (columns panel)) ->
     Permutation (map (cells cs) (rows out)) (map (cells cs) (rows panel))).
Proof.
  intros H. apply _clean_panel_Ok in H.
  destruct H as (_ & _ & cols1 & cols2 & cols3 & rs1 & rs2 & rs3 & H).
  cbv zeta in H. destruct H as (H1 & H2 & H3 & -> & -> & _).
  assert (Hlen : forall rs, List.length (suffix_names (column "name" rs) [] rs) = List.length rs)
    by (intros rs; apply length_suffix_names).
  pose proof (Permutation_length (sort_values_Permutation (rows panel))) as Hsort.
  split; [|split].
  - destruct (has_column "keep" (columns panel)); injection H1 as -> ->;
    destruct (has_column "ilastik" _); injection H2 as -> ->;
    destruct (has_column "deepcell" _); injection H3 as -> ->;
    rewrite ?length_map, ?length_number_rows, ?length_map, ?Hlen; exact Hsort.
  - intros c. rewrite move_to_front_In.
    destruct (has_column "keep" (columns panel)) eqn:Hk; injection H1 as -> ->;
    destruct (has_column "ilastik" _) eqn:Hi; injection H2 as -> ->;
    destruct (has_column "deepcell" _) eqn:Hd; injection H3 as -> ->;
    try apply has_column_In in Hk; try apply has_column_In in Hi;
    try apply has_column_In in Hd;
    rewrite ?in_app_iff in Hi; rewrite ?in_app_iff in Hd; rewrite ?in_app_iff;
    simpl in Hi, Hd |- *; intuition (subst; auto).
  - intros cs Hcs.
    assert (Hname : ~ In "name" cs) by (intros Hin; apply Hcs in Hin; tauto).
    transitivity (map (cells cs) (sort_values (rows panel)));
      [|apply Permutation_map, sort_values_Permutation].
    destruct (has_column "keep" (columns panel)) eqn:Hk; injection H1 as -> ->;
    destruct (has_column "ilastik" _) eqn:Hi; injection H2 as -> ->;
    destruct (has_column "deepcell" _) eqn:Hd; injection H3 as -> ->;
    repeat first
      [ rewrite map_cells_set_cell
          by (eapply (absent_column cs (columns panel)); [exact Hcs | | eassumption];
              intros c Hc; rewrite ?in_app_iff; tauto)
      | rewrite map_cells_number_rows
          by (eapply (absent_column cs (columns panel)); [exact Hcs | | eassumption];
              intros c Hc; rewrite ?in_app_iff; tauto) ];
    rewrite map_cells_suffix_names by exact Hname; reflexivity.
Qed.

(** A table without the three columns gets them filled in afresh. *)
Lemma _clean_panel_fresh (panel out : DataFrame) :
  _clean_panel panel = Ok out ->
  ~ In "keep" (columns panel) -> ~ In "ilastik" (columns panel) ->
  ~ In "deepcell" (columns panel) ->
  columns out =
    move_to_front panel_columns 0 (columns panel ++ ["keep"; "ilastik"; "deepcell"]) /\
  column "ilastik" (rows out) = map UInt (N_range 1 (List.length (rows out))) /\
  column "deepcell" (rows out) = repeat NA (List.length (rows out)).
Proof.
  intros H Hk Hi Hd. apply _clean_panel_Ok in H.
  destruct H as (_ & _ & cols1 & cols2 & cols3 & rs1 & rs2 & rs3 & H).
  cbv zeta in H. destruct H as (H1 & H2 & H3 & -> & -> & _).
  assert (Ek : has_column "keep" (columns panel) = false).
  { destruct (has_column "keep" (columns panel)) eqn:E; [|reflexivity].
    apply has_column_In in E. contradiction. }
  rewrite Ek in H1. injection H1 as -> ->.
  assert (Ei : has_column "ilastik" (columns panel ++ ["keep"]) = false).
  { destruct (has_column "ilastik" _) eqn:E; [|reflexivity].
    apply has_column_In, in_app_iff in E. destruct E as [E|[E|[]]]; [contradiction|discriminate]. }
  rewrite Ei in H2. injection H2 as -> ->.
  assert (Ed : has_column "deepcell" ((columns panel ++ ["keep"]) ++ ["ilastik"]) = false).
  { destruct (has_column "deepcell" _) eqn:E; [|reflexivity].
    apply has_column_In in E. rewrite !in_app_iff in E.
    destruct E as [[E|[E|[]]]|[E|[]]]; [contradiction | discriminate | discriminate]. }
  rewrite Ed in H3. injection H3 as -> ->.
  split; [rewrite <- !app_assoc; reflexivity|].
  set (kept := map (set_cell "keep" (Bool true)) _).
  assert (Hall : forall r, In r kept -> is_true (r "keep") = true).
  { intros r Hr. apply in_map_iff in Hr. destruct Hr as (r0 & <- & _).
    rewrite set_cell_same. reflexivity. }
  rewrite length_map, length_number_rows. split.
  - rewrite column_set_cell_other by reflexivity.
    apply number_rows_all. exact Hall.
  - rewrite column_set_cell_repeat, length_number_rows. reflexivity.
Qed.

Lemma panel_of_fresh (panels : list (list row)) (out : DataFrame) :
  panel_of panels = Ok out ->
  columns out = panel_columns /\
  column "ilastik" (rows out) = map UInt (N_range 1 (List.length (rows out))) /\
  column "deepcell" (rows out) = repeat NA (List.length (rows out)).
Proof.
  unfold panel_of. destruct panels as [|p0 panels]; [discriminate|].
  intros H. apply _clean_panel_fresh in H; cbn [columns] in *.
  - exact H.
  - simpl. intuition discriminate.
  - simpl. intuition discriminate.
  - simpl. intuition discriminate.
Qed.

(** X17: a panel made from MCD files, or from text files, has exactly the
    five columns channel, name, keep, ilastik and deepcell; its rows are
    numbered 1, 2, ... in the ilastik column in their order (as long as the
    numbers fit the unsigned byte of the column), and the deepcell column is
    missing in every row. *)
Theorem panels_of_acquisitions_number_every_row :
  (forall mcd_files out,
     create_panel_from_mcd_files mcd_files = Ok out ->
     List.length (rows out) <= 255 ->
     columns out = panel_columns /\
     column "ilastik" (rows out) = map UInt (N_range 1 (List.length (rows out))) /\
     column "deepcell" (rows out) = repeat NA (List.length (rows out))) /\
  (forall txt_files out,
     create_panel_from_txt_files txt_files = Ok out ->
     List.length (rows out) <= 255 ->
     columns out = panel_columns /\
     column "ilastik" (rows out) = map UInt (N_range 1 (List.length (rows out))) /\
     column "deepcell" (rows out) = repeat NA (List.length (rows out))).
Proof.
  split.
  - unfold create_panel_from_mcd_files. intros mcd_files out H _.
    destruct (mcd_panels mcd_files) as [panels|e]; [|discriminate].
    apply (panel_of_fresh panels). exact H.
  - unfold create_panel_from_txt_files. intros txt_files out H _.
    destruct (txt_panels txt_files) as [panels|e]; [|discriminate].
    apply (panel_of_fresh panels). exact H.
Qed.

(** X18: the panel of text files has exactly one row for each distinct
    (channel, name) pair of the files; the row carries the channel of the
    pair and its name, numbered when several rows share the name. *)
Theorem create_panel_from_txt_files_rows (txt_files : list pathlike) (out : DataFrame) :
  create_panel_from_txt_files txt_files = Ok out ->
  exists files pairs,
    Forall2 (fun txt_file f => TXTFile_open (Path txt_file) = Ok f) txt_files files /\
    NoDup pairs /\
    (forall p, In p pairs <-> exists f, In f files /\ In p (acquisition_pairs f)) /\
    column "channel" (rows out) = map fst pairs /\
    column "name" (rows out) = numbered (map snd pairs).
Proof.
  unfold create_panel_from_txt_files. intros H.
  destruct (txt_panels txt_files) as [panels|e] eqn:Hp; [|discriminate].
  apply txt_panels_spec in Hp. destruct Hp as (files & Hf & ->).
  apply panel_of_spec in H. destruct H as (_ & _ & pairs & Hnd & Hin & Hc & Hn).
  exists files, pairs. split; [exact Hf|]. split; [exact Hnd|].
  split; [|split; assumption].
  intros p. rewrite Hin. apply In_pairs_concat.
Qed.

Lemma length_drop_duplicates_from (cols : list string) (rs : list row) :
  forall seen, List.length (drop_duplicates_from cols seen rs) <= List.length rs.
Proof.
  induction rs as [|r rs IH]; intros seen; [reflexivity|].
  rewrite drop_duplicates_from_cons.
  destruct (existsb _ seen); simpl.
  - specialize (IH seen). lia.
  - specialize (IH (cells cols r :: seen)). lia.
Qed.

Lemma panel_of_returns (panels : list (list row)) :
  panels <> [] -> List.length (concat panels) <= 255 ->
  exists out, panel_of panels = Ok out.
Proof.
  intros Hne Hfit. unfold panel_of. destruct panels as [|p0 panels]; [congruence|].
  apply _clean_panel_returns; [simpl; auto | simpl; auto |].
  intros _. unfold numbered_rows. cbn [columns rows].
  change (has_column "keep" ["channel"; "name"]) with false. cbv iota.
  pose proof (length_drop_duplicates_from ["channel"; "name"] (concat (p0 :: panels)) []).
  unfold drop_duplicates. lia.
Qed.

Lemma mcd_panels_opened (mcd_files : list pathlike) (files : list MCDFile) :
  Forall2 (fun mcd_file f => MCDFile_open (Path mcd_file) = Ok f) mcd_files files ->
  mcd_panels mcd_files = Ok (map acquisition_panel (all_acquisitions files)).
Proof.
  induction 1 as [|m f ms fs Ho Hall IH]; simpl; [reflexivity|].
  rewrite Ho, IH. unfold all_acquisitions. simpl. rewrite map_app. reflexivity.
Qed.

Lemma mcd_panels_unopened (before after : list pathlike) (m : pathlike) (e : exn) :
  Forall (fun b => exists f, MCDFile_open (Path b) = Ok f) before ->
  MCDFile_open (Path m) = Raise e ->
  mcd_panels (before ++ m :: after) = Raise e.
Proof.
  intros Hb Hm. induction Hb as [|b before [f Hf] Hb IH]; simpl.
  - rewrite Hm. reflexivity.
  - rewrite Hf, IH. reflexivity.
Qed.

(** X19: [create_panel_from_mcd_files] returns a panel when every file can
    be opened and the files hold at least one acquisition (with no more
    channel entries in all than the unsigned byte of the ilastik column can
    number).  With all files opened and no acquisition (also without any
    file) it raises a [ValueError]; the first file that cannot be opened
    makes it raise what opening that file raised. *)
Theorem create_panel_from_mcd_files_outcome (mcd_files : list pathlike) :
  (forall files,
     Forall2 (fun mcd_file f => MCDFile_open (Path mcd_file) = Ok f) mcd_files files ->
     (all_acquisitions files = [] ->
      create_panel_from_mcd_files mcd_files = Raise ValueError) /\
     (all_acquisitions files <> [] ->
      List.length (concat (map acquisition_panel (all_acquisitions files))) <= 255 ->
      exists out, create_panel_from_mcd_files mcd_files = Ok out)) /\
  (forall before m after e,
     mcd_files = before ++ m :: after ->
     Forall (fun b => exists f, MCDFile_open (Path b) = Ok f) before ->
     MCDFile_open (Path m) = Raise e ->
     create_panel_from_mcd_files mcd_files = Raise e).
Proof.
  split.
  - intros files Hf. unfold create_panel_from_mcd_files.
    rewrite (mcd_panels_opened _ _ Hf). split.
    + intros ->. reflexivity.
    + intros Hne Hfit. apply panel_of_returns; [|exact Hfit].
      destruct (all_acquisitions files); [congruence | discriminate].
  - intros before m after e -> Hb Hm. unfold create_panel_from_mcd_files.
    rewrite (mcd_panels_unopened _ _ _ _ Hb Hm). reflexivity.
Qed.

Lemma txt_panels_opened (txt_files : list pathlike) (files : list TXTFile) :
  Forall2 (fun txt_file f => TXTFile_open (Path txt_file) = Ok f) txt_files files ->
  txt_panels txt_files = Ok (map acquisition_panel files).
Proof.
  induction 1 as [|m f ms fs Ho Hall IH]; simpl; [reflexivity|].
  rewrite Ho, IH. reflexivity.
Qed.

Lemma txt_panels_unopened (before after : list pathlike) (m : pathlike) (e : exn) :
  Forall (fun b => exists f, TXTFile_open (Path b) = Ok f) before ->
  TXTFile_open (Path m) = Raise e ->
  txt_panels (before ++ m :: after) = Raise e.
Proof.
  intros Hb Hm. induction Hb as [|b before [f Hf] Hb IH]; simpl.
  - rewrite Hm. reflexivity.
  - rewrite Hf, IH. reflexivity.
Qed.

(** X20: [create_panel_from_txt_files] returns a panel when there is at
    least one file and every file can be opened (a file without channels
    counts; the files have no more channel entries in all than the unsigned
    byte of the ilastik column can number).  Without files it raises a
    [ValueError]; the first file that cannot be opened makes it raise what
    opening that file raised. *)
Theorem create_panel_from_txt_files_outcome (txt_files : list pathlike) :
  (txt_files = [] -> create_panel_from_txt_files txt_files = Raise ValueError) /\
  (forall files,
     txt_files <> [] ->
     Forall2 (fun txt_file f => TXTFile_open (Path txt_file) = Ok f) txt_files files ->
     List.length (concat (map acquisition_panel files)) <= 255 ->
     exists out, create_panel_from_txt_files txt_files = Ok out) /\
  (forall before m after e,
     txt_files = before ++ m :: after ->
     Forall (fun b => exists f, TXTFile_open (Path b) = Ok f) before ->
     TXTFile_open (Path m) = Raise e ->
     create_panel_from_txt_files txt_files = Raise e).
Proof.
  split; [intros ->; reflexivity|]. split.
  - intros files Hne Hf Hfit. unfold create_panel_from_txt_files.
    rewrite (txt_panels_opened _ _ Hf).
    apply panel_of_returns; [|exact Hfit].
    destruct Hf as [|m f ms fs Ho Hall]; [congruence | discriminate].
  - intros before m after e -> Hb Hm. unfold create_panel_from_txt_files.
    rewrite (txt_panels_unopened _ _ _ _ Hb Hm). reflexivity.
Qed.

(** X21: [create_panel_from_imc_panel] checks the table before it does
    anything else.  A missing channel column, then a missing name column, is
    reported as such; then a missing value in the channel column, in the keep
    column or in the ilastik column (when the table has the column), in this
    order.  A panel is returned only for a table that passes all checks. *)
Theorem create_panel_from_imc_panel_checks (imc_panel : DataFrame)
    (channel_col name_col keep_col ilastik_col : string) :
  let cols := columns imc_panel in
  let result :=
    create_panel_from_imc_panel imc_panel channel_col name_col keep_col ilastik_col in
  let incomplete col :=
    has_column col cols && existsb isna (column col (rows imc_panel)) in
  (has_column channel_col cols = false ->
   result = Raise (SteinbockIMCPreprocessingException_missing_column channel_col)) /\
  (has_column channel_col cols = true -> has_column name_col cols = false ->
   result = Raise (SteinbockIMCPreprocessingException_missing_column name_col)) /\
  (has_column channel_col cols = true -> has_column name_col cols = true ->
   (incomplete channel_col = true ->
    result = Raise (SteinbockIMCPreprocessingException_missing_values channel_col)) /\
   (incomplete channel_col = false -> incomplete keep_col = true ->
    result = Raise (SteinbockIMCPreprocessingException_missing_values keep_col)) /\
   (incomplete channel_col = false -> incomplete keep_col = false ->
    incomplete ilastik_col = true ->
    result = Raise (SteinbockIMCPreprocessingException_missing_values ilastik_col))) /\
  (forall out, result = Ok out ->
     has_column channel_col cols = true /\ has_column name_col cols = true /\
     incomplete channel_col = false /\ incomplete keep_col = false /\
     incomplete ilastik_col = false).
Proof.
  intros cols result incomplete. subst result incomplete.
  unfold create_panel_from_imc_panel. fold cols. cbn [List.find].
  destruct (has_column channel_col cols); destruct (has_column name_col cols);
    destruct (existsb isna (column channel_col (rows imc_panel)));
    destruct (has_column keep_col cols);
    destruct (existsb isna (column keep_col (rows imc_panel)));
    destruct (has_column ilastik_col cols);
    destruct (existsb isna (column ilastik_col (rows imc_panel)));
    cbv beta iota delta [negb andb];
    (split; [intros; congruence|]);
    (split; [intros; congruence|]);
    (split; [intros ? ?; split; [intros; congruence|]; split; intros; congruence|]);
    intros out H; first [discriminate H | repeat split; reflexivity].
Qed.

(** X23: in a panel made from an IMC panel file the ilastik column holds
    missing values and numbers only, and the numbers are 1, 2, ... in the
    order of the rows (as long as they fit the unsigned byte of the
    column). *)
Theorem create_panel_from_imc_panel_numbers_ilastik (imc_panel : DataFrame)
    (channel_col name_col keep_col ilastik_col : string) (out : DataFrame) :
  create_panel_from_imc_panel imc_panel channel_col name_col keep_col ilastik_col = Ok out ->
  List.length (rows out) <= 255 ->
  Forall is_number_or_missing (column "ilastik" (rows out)) /\
  uints (column "ilastik" (rows out)) =
    N_range 1 (List.length (uints (column "ilastik" (rows out)))).
Proof.
  intros H _. apply create_panel_from_imc_panel_spec in H. cbv zeta in H.
  destruct H as (panel & _ & _ & ->).
  destruct (number_rows_uints "ilastik" (fun r => truthy (r "ilastik")) (rows panel) 1%N)
    as [Hu Hf].
  split; [exact Hf|]. rewrite Hu, length_N_range. reflexivity.
Qed.

End Panels.

(** ** Panels on concrete files

    numpy's quicksort sorts short arrays by insertion: the panels below are
    computed with a stable insertion sort. *)

Fixpoint insert_by {A} (key : A -> N) (x : A) (l : list A) : list A :=
  match l with
  | [] => [x]
  | y :: l' => if (key y <? key x)%N then y :: insert_by key x l' else x :: y :: l'
  end.

Definition insertion_sort (A : Type) (key : A -> N) (l : list A) : list A :=
  fold_right (insert_by key) [] l.

Lemma insert_by_Permutation {A} (key : A -> N) (x : A) (l : list A) :
  Permutation (insert_by key x l) (x :: l).
Proof.
  induction l as [|y l IH]; simpl; [reflexivity|].
  destruct (key y <? key x)%N; [|reflexivity].
  rewrite IH. apply perm_swap.
Qed.

Lemma insertion_sort_Permutation (A : Type) (key : A -> N) (l : list A) :
  Permutation (insertion_sort A key l) l.
Proof.
  induction l as [|x l IH]; simpl; [reflexivity|].
  rewrite insert_by_Permutation. constructor. exact IH.
Qed.

Lemma insert_by_Sorted {A} (key : A -> N) (x : A) (l : list A) :
  Sorted (fun a b => (key a <= key b)%N) l ->
  Sorted (fun a b => (key a <= key b)%N) (insert_by key x l).
Proof.
  induction 1 as [|y l Hs IH Hhd]; simpl; [repeat constructor|].
  destruct (key y <? key x)%N eqn:E.
  - apply N.ltb_lt in E. constructor; [exact IH|].
    destruct Hhd as [|z l Hyz]; simpl.
    + constructor. lia.
    + destruct (key z <? key x)%N; constructor; [exact Hyz | lia].
  - apply N.ltb_ge in E. constructor; [constructor; assumption | constructor; exact E].
Qed.

Lemma insertion_sort_sorted (A : Type) (key : A -> N) (l : list A) :
  StronglySorted (fun a b => (key a <= key b)%N) (insertion_sort A key l).
Proof.
  apply Sorted_StronglySorted; [intros a b c; apply N.le_trans|].
  induction l as [|x l IH]; simpl; [constructor|].
  apply insert_by_Sorted. exact IH.
Qed.

Definition res_table (p : res DataFrame) : res (list string * list (list cell)) :=
  match p with
  | Ok df => Ok (columns df, table df)
  | Raise e => Raise e
  end.

Definition acq_of (names labels : list string) : Acquisition :=
  {| id := 1; description := None;
     acq_channel_names := names; acq_channel_labels := labels;
     roi_points_um := Some ((0, 0), (1, 0), (1, 1), (0, 1))%float;
     width_um := Ok 1%float; height_um := Ok 1%float |}.

(** Two MCD files with one acquisition each. *)
Definition two_files (a b : Acquisition) (file : string) : res MCDFile :=
  if String.eqb file "raw/a.mcd" then Ok {| slides := [{| acquisitions := [a] |}] |}
  else if String.eqb file "raw/b.mcd" then Ok {| slides := [{| acquisitions := [b] |}] |}
  else Raise IOError.

Definition txt_of (names labels : list string) : TXTFile :=
  {| txt_channel_names := names; txt_channel_labels := labels |}.

Definition two_txt_files (a b : TXTFile) (file : string) : res TXTFile :=
  if String.eqb file "raw/a_1.txt" then Ok a
  else if String.eqb file "raw/b_1.txt" then Ok b
  else Raise IOError.

(** The iridium channel was relabelled between the two acquisitions. *)
Definition relabelled_mcd_panel : res DataFrame :=
  create_panel_from_mcd_files insertion_sort
    (two_files (acq_of ["Ir191"] ["DNA1"]) (acq_of ["Ir191"] ["DNA"]))
    [AsPath "raw/a.mcd"; AsPath "raw/b.mcd"].

Definition relabelled_txt_panel : res DataFrame :=
  create_panel_from_txt_files insertion_sort
    (two_txt_files (txt_of ["Ir191"] ["DNA1"]) (txt_of ["Ir191"] ["DNA"]))
    [AsPath "raw/a_1.txt"; AsPath "raw/b_1.txt"].

Definition rows_of (p : res DataFrame) : list row :=
  match p with Ok df => rows df | Raise _ => [] end.

(** C1 fails on the code: a channel that carries two labels in the
    acquisitions gets two rows in the panel made from MCD files, and in the
    panel made from text files. *)
Theorem panel_from_acquisitions_repeats_channel :
  res_table relabelled_mcd_panel =
    Ok (panel_columns,
        [[Str "Ir191"; Str "DNA1"; Bool true; UInt 1; NA];
         [Str "Ir191"; Str "DNA"; Bool true; UInt 2; NA]]) /\
  ~ NoDup (column "channel" (rows_of relabelled_mcd_panel)) /\
  res_table relabelled_txt_panel =
    Ok (panel_columns,
        [[Str "Ir191"; Str "DNA1"; Bool true; UInt 1; NA];
         [Str "Ir191"; Str "DNA"; Bool true; UInt 2; NA]]) /\
  ~ NoDup (column "channel" (rows_of relabelled_txt_panel)).
Proof.
  assert (Hdup : ~ NoDup [Str "Ir191"; Str "Ir191"]).
  { intros H. inversion H as [|x l Hn _]. apply Hn. left. }
  split; [reflexivity|]. split; [exact Hdup|]. split; [reflexivity | exact Hdup].
Qed.

(** Two channels share the label of the acquisition. *)
Definition shared_label_open : string -> res MCDFile :=
  two_files (acq_of ["Ir191"; "Ir193"] ["DNA"; "DNA"]) (acq_of ["Y89"] ["CD45"]).

Definition shared_label_panel : res DataFrame :=
  create_panel_from_mcd_files insertion_sort shared_label_open
    [AsPath "raw/a.mcd"; AsPath "raw/b.mcd"].

Definition shared_label_frame : DataFrame :=
  match shared_label_panel with
  | Ok df => df
  | Raise _ => {| columns := []; rows := [] |}
  end.

(** C5 as stated fails: the rows of the panel carry the names [DNA 1] and
    [DNA 2], which occur in no acquisition, and no row carries the pair of
    [Ir191] and [DNA]. *)
Lemma shared_name_gets_numbered :
  shared_label_panel = Ok shared_label_frame /\
  acquisition_pairs (acq_of ["Ir191"; "Ir193"] ["DNA"; "DNA"]) =
    [(Str "Ir191", Str "DNA"); (Str "Ir193", Str "DNA")] /\
  acquisition_pairs (acq_of ["Y89"] ["CD45"]) = [(Str "Y89", Str "CD45")] /\
  map pair_of (rows shared_label_frame) =
    [(Str "Y89", Str "CD45"); (Str "Ir191", Str "DNA 1"); (Str "Ir193", Str "DNA 2")] /\
  ~ In (Str "Ir191", Str "DNA") (map pair_of (rows shared_label_frame)).
Proof.
  split; [reflexivity|]. split; [reflexivity|]. split; [reflexivity|].
  split; [reflexivity|].
  change (~ In (Str "Ir191", Str "DNA")
            [(Str "Y89", Str "CD45"); (Str "Ir191", Str "DNA 1"); (Str "Ir193", Str "DNA 2")]).
  simpl. intros [H|[H|[H|[]]]]; discriminate H.
Qed.

Lemma create_panel_from_mcd_files_rows_witness :
  shared_label_panel = Ok shared_label_frame /\
  exists files pairs,
    Forall2 (fun mcd_file f => shared_label_open (Path mcd_file) = Ok f)
      [AsPath "raw/a.mcd"; AsPath "raw/b.mcd"] files /\
    NoDup pairs /\
    (forall p, In p pairs <->
               exists a, In a (all_acquisitions files) /\ In p (acquisition_pairs a)) /\
    column "channel" (rows shared_label_frame) = map fst pairs /\
    column "name" (rows shared_label_frame) = numbered (map snd pairs).
Proof.
  split; [reflexivity|].
  apply (create_panel_from_mcd_files_rows insertion_sort
           insertion_sort_Permutation insertion_sort_sorted shared_label_open
           [AsPath "raw/a.mcd"; AsPath "raw/b.mcd"] shared_label_frame).
  reflexivity.
Defined.

Lemma returned_panel_layout_witness :
  shared_label_panel = Ok shared_label_frame /\
  panel_layout shared_label_frame /\ all_kept shared_label_frame.
Proof.
  split; [reflexivity|].
  apply (proj1 (returned_panel_layout insertion_sort
                  insertion_sort_Permutation insertion_sort_sorted
                  shared_label_open (two_txt_files (txt_of [] []) (txt_of [] [])))
           [AsPath "raw/a.mcd"; AsPath "raw/b.mcd"] shared_label_frame).
  reflexivity.
Defined.

(** A panel file with a channel on two rows and with an unrelated column. *)
Definition csv_row (tag target : string) (full ilastik extra : cell) : row :=
  set_cell "Metal Tag" (Str tag) (set_cell "Target" (Str target)
    (set_cell "full" full (set_cell "ilastik" ilastik (set_cell "Tube" extra empty_row)))).

Example create_panel_from_imc_panel_example :
  res_table (create_panel_from_imc_panel insertion_sort
    {| columns := ["Tube"; "Metal Tag"; "Target"; "full"; "ilastik"];
       rows := [csv_row "Ir193" "DNA2" (Bool true) (Bool true) (UInt 3);
                csv_row "Ir191" "DNA1" (Bool false) (Bool false) (UInt 4);
                csv_row "Ir191" "Histone" (Bool true) (Bool false) NA;
                csv_row "Y89" "DNA2" (Bool false) (Bool true) (Str "x")] |}
    "Metal Tag" "Target" "full" "ilastik") =
  Ok (["channel"; "name"; "keep"; "ilastik"; "deepcell"; "Tube"],
      [[Str "Y89"; Str "DNA2 1"; Bool false; UInt 1; NA; Str "x"];
       [Str "Ir191"; Str "DNA1 / Histone"; Bool true; NA; NA; UInt 4];
       [Str "Ir193"; Str "DNA2 2"; Bool true; UInt 2; NA; UInt 3]]).
Proof. reflexivity. Qed.

Example create_panel_from_mcd_files_empty :
  res_table (create_panel_from_mcd_files insertion_sort shared_label_open []) =
  Raise ValueError.
Proof. reflexivity. Qed.

(** *** The further properties on concrete tables *)

(** A table with an unrelated column and without the three columns that
    [_clean_panel] adds. *)
Definition tube_panel : DataFrame :=
  {| columns := ["Tube"; "channel"; "name"];
     rows := [set_cell "Tube" (UInt 3)
                (set_cell "channel" (Str "Ir193") (set_cell "name" (Str "DNA") empty_row));
              set_cell "Tube" (UInt 4)
                (set_cell "channel" (Str "Ir191") (set_cell "name" (Str "DNA") empty_row))] |}.

Definition tube_frame : DataFrame :=
  match _clean_panel insertion_sort tube_panel with
  | Ok df => df
  | Raise _ => {| columns := []; rows := [] |}
  end.

Lemma _clean_panel_keeps_the_data_witness :
  List.length (rows tube_frame) = List.length (rows tube_panel) /\
  (forall c, In c (columns tube_frame) <->
             In c (columns tube_panel) \/ In c ["keep"; "ilastik"; "deepcell"]) /\
  (forall cs, (forall c, In c cs -> c <> "name" /\ In c (columns tube_panel)) ->
     Permutation (map (cells cs) (rows tube_frame)) (map (cells cs) (rows tube_panel))).
Proof.
  apply (_clean_panel_keeps_the_data insertion_sort insertion_sort_Permutation
           shared_label_open (two_txt_files (txt_of [] []) (txt_of [] []))).
  reflexivity.
Defined.

(** A table whose name column still has the label of the panel file. *)
Definition unrenamed_panel : DataFrame :=
  {| columns := ["channel"; "Target"];
     rows := [set_cell "channel" (Str "Ir191") (set_cell "Target" (Str "DNA1") empty_row)] |}.

Lemma _clean_panel_raises_witness :
  _clean_panel insertion_sort unrenamed_panel = Raise KeyError.
Proof.
  assert (Htyped : typed_panel unrenamed_panel).
  { split; [|split]; intros Hin.
    - constructor; [exact I | constructor].
    - simpl in Hin. intuition discriminate.
    - simpl in Hin. intuition discriminate. }
  apply (proj2 (_clean_panel_raises insertion_sort insertion_sort_Permutation
                  unrenamed_panel KeyError Htyped)).
  left. split; [right; simpl; intuition discriminate | reflexivity].
Defined.

Lemma panels_of_acquisitions_number_every_row_witness :
  columns shared_label_frame = panel_columns /\
  column "ilastik" (rows shared_label_frame) =
    map UInt (N_range 1 (List.length (rows shared_label_frame))) /\
  column "deepcell" (rows shared_label_frame) =
    repeat NA (List.length (rows shared_label_frame)).
Proof.
  apply (proj1 (panels_of_acquisitions_number_every_row insertion_sort
                  shared_label_open (two_txt_files (txt_of [] []) (txt_of [] [])))
           [AsPath "raw/a.mcd"; AsPath "raw/b.mcd"] shared_label_frame).
  - reflexivity.
  - apply Nat.leb_le. vm_compute. reflexivity.
Defined.

Definition relabelled_txt_frame : DataFrame :=
  match relabelled_txt_panel with
  | Ok df => df
  | Raise _ => {| columns := []; rows := [] |}
  end.

Lemma create_panel_from_txt_files_rows_witness :
  exists files pairs,
    Forall2 (fun txt_file f =>
               two_txt_files (txt_of ["Ir191"] ["DNA1"]) (txt_of ["Ir191"] ["DNA"])
                 (Path txt_file) = Ok f)
      [AsPath "raw/a_1.txt"; AsPath "raw/b_1.txt"] files /\
    NoDup pairs /\
    (forall p, In p pairs <-> exists f, In f files /\ In p (acquisition_pairs f)) /\
    column "channel" (rows relabelled_txt_frame) = map fst pairs /\
    column "name" (rows relabelled_txt_frame) = numbered (map snd pairs).
Proof.
  apply (create_panel_from_txt_files_rows insertion_sort
           insertion_sort_Permutation insertion_sort_sorted
           (two_txt_files (txt_of ["Ir191"] ["DNA1"]) (txt_of ["Ir191"] ["DNA"]))
           [AsPath "raw/a_1.txt"; AsPath "raw/b_1.txt"] relabelled_txt_frame).
  reflexivity.
Defined.

(** [raw/x.mcd] cannot be opened: its error ends the call, whatever the
    files after it hold. *)
Lemma create_panel_from_mcd_files_outcome_witness :
  create_panel_from_mcd_files insertion_sort shared_label_open
    [AsPath "raw/a.mcd"; AsPath "raw/x.mcd"; AsPath "raw/b.mcd"] = Raise IOError.
Proof.
  apply (proj2 (create_panel_from_mcd_files_outcome insertion_sort
                  insertion_sort_Permutation shared_label_open
                  [AsPath "raw/a.mcd"; AsPath "raw/x.mcd"; AsPath "raw/b.mcd"])
           [AsPath "raw/a.mcd"] (AsPath "raw/x.mcd") [AsPath "raw/b.mcd"] IOError).
  - reflexivity.
  - constructor; [eexists; reflexivity | constructor].
  - reflexivity.
Defined.

(** A text file without channels still makes a panel. *)
Lemma create_panel_from_txt_files_outcome_witness :
  exists out,
    create_panel_from_txt_files insertion_sort
      (two_txt_files (txt_of [] []) (txt_of [] [])) [AsPath "raw/a_1.txt"] = Ok out.
Proof.
  apply (proj1 (proj2 (create_panel_from_txt_files_outcome insertion_sort
                         insertion_sort_Permutation
                         (two_txt_files (txt_of [] []) (txt_of [] []))
                         [AsPath "raw/a_1.txt"]))
           [txt_of [] []]).
  - discriminate.
  - constructor; [reflexivity | constructor].
  - simpl. lia.
Defined.

Definition imc_example : DataFrame :=
  {| columns := ["Tube"; "Metal Tag"; "Target"; "full"; "ilastik"];
     rows := [csv_row "Ir193" "DNA2" (Bool true) (Bool true) (UInt 3);
              csv_row "Ir191" "DNA1" (Bool false) (Bool false) (UInt 4);
              csv_row "Ir191" "Histone" (Bool true) (Bool false) NA;
              csv_row "Y89" "DNA2" (Bool false) (Bool true) (Str "x")] |}.

Definition imc_example_frame : DataFrame :=
  match create_panel_from_imc_panel insertion_sort imc_example
          "Metal Tag" "Target" "full" "ilastik" with
  | Ok df => df
  | Raise _ => {| columns := []; rows := [] |}
  end.

(** The same file read with a keep column that has a gap. *)
Definition imc_incomplete : DataFrame :=
  {| columns := ["Metal Tag"; "Target"; "full"];
     rows := [csv_row "Ir193" "DNA2" (Bool true) NA NA;
              csv_row "Ir191" "DNA1" NA NA NA] |}.

Lemma create_panel_from_imc_panel_checks_witness :
  create_panel_from_imc_panel insertion_sort imc_incomplete
    "Metal Tag" "Target" "full" "ilastik" =
  Raise (SteinbockIMCPreprocessingException_missing_values "full").
Proof.
  apply (proj1 (proj2 (proj1 (proj2 (proj2
           (create_panel_from_imc_panel_checks insertion_sort imc_incomplete
              "Metal Tag" "Target" "full" "ilastik")))
           eq_refl eq_refl))); reflexivity.
Defined.

Lemma create_panel_from_imc_panel_unique_channels_witness :
  NoDup (column "channel" (rows imc_example_frame)).
Proof.
  apply (create_panel_from_imc_panel_unique_channels insertion_sort
           insertion_sort_Permutation
           shared_label_open (two_txt_files (txt_of [] []) (txt_of [] []))
           imc_example "Metal Tag" "Target" "full" "ilastik").
  reflexivity.
Defined.

Lemma create_panel_from_imc_panel_numbers_ilastik_witness :
  Forall is_number_or_missing (column "ilastik" (rows imc_example_frame)) /\
  uints (column "ilastik" (rows imc_example_frame)) =
    N_range 1 (List.length (uints (column "ilastik" (rows imc_example_frame)))).
Proof.
  apply (create_panel_from_imc_panel_numbers_ilastik insertion_sort
           imc_example "Metal Tag" "Target" "full" "ilastik").
  - reflexivity.
  - apply Nat.leb_le. vm_compute. reflexivity.
Defined.

(** ** The CellProfiler measurement commands

    Of [steinbock.measurement.cellprofiler._cli] the names given to the
    files placed in the CellProfiler input directory by [prepare], and the
    command line made by [app]. *)

(** The split of a name at its last dot, as [PurePath.stem] and
    [PurePath.suffix] make it. *)
Definition name_split (name : list ascii) : list ascii * list ascii :=
  match rfind_dot name with
  | Some i =>
      if (0 <? i)%nat && (i <? List.length name - 1)%nat
      then (firstn i name, skipn i name) else (name, [])
  | None => (name, [])
  end.

(** [Path(p).suffix]. *)
Definition path_suffix (s : string) : string :=
  text (snd (name_split (chars (path_name s)))).

(** [f"{mask_file.stem}_mask{mask_file.suffix}"]. *)
Definition mask_name (mask_file : string) : string :=
  path_stem mask_file +:+ "_mask" +:+ path_suffix mask_file.

(** The calls of the loop of [prepare] when none raises: what is copied (or
    linked), and under which name in the input directory, in order. *)
Definition prepare_files (img_files mask_files : list string) : list (string * string) :=
  flat_map (fun '(img_file, mask_file) =>
              [(img_file, path_name img_file); (mask_file, mask_name mask_file)])
           (combine img_files mask_files).

Definition cellprofiler_binary : string := "cellprofiler".
Definition cellprofiler_plugin_dir : string := "/opt/cellprofiler_plugins".

(** The argument list [app] runs. *)
Definition app_args (cellprofiler_args : list string) : list string :=
  let args := cellprofiler_binary :: cellprofiler_args in
  if existsb (String.prefix "--plugins-directory") args then args
  else args ++ ["--plugins-directory=" +:+ cellprofiler_plugin_dir].

Lemma path_stem_split (s : string) :
  path_stem s = text (fst (name_split (chars (path_name s)))).
Proof.
  unfold path_stem, name_split.
  destruct (rfind_dot (chars (path_name s))) as [i|]; [|reflexivity].
  destruct ((0 <? i)%nat && (i <? _)%nat); reflexivity.
Qed.

Lemma text_app (a b : list ascii) : text (a ++ b) = text a +:+ text b.
Proof. induction a as [|c a IH]; simpl; [reflexivity | rewrite IH; reflexivity]. Qed.

Lemma text_chars (s : string) : text (chars s) = s.
Proof. apply string_of_list_ascii_of_string. Qed.

Lemma chars_text (l : list ascii) : chars (text l) = l.
Proof. apply list_ascii_of_string_of_list_ascii. Qed.

Lemma length_chars (s : string) : List.length (chars s) = String.length s.
Proof. induction s as [|c s IH]; simpl; [reflexivity | f_equal; exact IH]. Qed.

Lemma name_split_app (name : list ascii) :
  fst (name_split name) ++ snd (name_split name) = name.
Proof.
  unfold name_split. destruct (rfind_dot name) as [i|]; [|apply app_nil_r].
  destruct ((0 <? i)%nat && (i <? _)%nat); [apply firstn_skipn | apply app_nil_r].
Qed.

(** The law of [pathlib]: a name is its stem followed by its suffix. *)
Lemma path_stem_suffix (s : string) : path_stem s +:+ path_suffix s = path_name s.
Proof.
  rewrite path_stem_split. unfold path_suffix.
  rewrite <- text_app, name_split_app. apply text_chars.
Qed.

Lemma rfind_dot_bound (l : list ascii) (i : nat) :
  rfind_dot l = Some i -> (i < List.length l)%nat.
Proof.
  revert i. induction l as [|c l IH]; simpl; intros i; [discriminate|].
  destruct (rfind_dot l) as [j|].
  - intros [= <-]. specialize (IH j eq_refl). lia.
  - destruct (is_dot c); [intros [= <-]; lia | discriminate].
Qed.

Lemma rfind_dot_app (a b : list ascii) :
  rfind_dot (a ++ b) =
  match rfind_dot b with
  | Some j => Some (List.length a + j)%nat
  | None => rfind_dot a
  end.
Proof.
  induction a as [|c a IH]; simpl.
  - destruct (rfind_dot b); reflexivity.
  - rewrite IH. destruct (rfind_dot b); reflexivity.
Qed.

Lemma rfind_dot_skipn (l : list ascii) (i : nat) :
  rfind_dot l = Some i -> rfind_dot (skipn i l) = Some 0%nat.
Proof.
  intros H. pose proof (rfind_dot_bound _ _ H) as Hi.
  rewrite <- (firstn_skipn i l), rfind_dot_app in H.
  assert (Hlen : List.length (firstn i l) = i) by (rewrite length_firstn; lia).
  destruct (rfind_dot (skipn i l)) as [j|].
  - injection H as H. f_equal. lia.
  - apply rfind_dot_bound in H. lia.
Qed.

(** The split of the name made for a mask with a suffix. *)
Lemma name_split_mask (name : list ascii) (stem suffix : list ascii) :
  name_split name = (stem, suffix) -> suffix <> [] ->
  name_split (stem ++ chars "_mask" ++ suffix) = (stem ++ chars "_mask", suffix).
Proof.
  unfold name_split at 1. intros Hsplit Hsuffix.
  destruct (rfind_dot name) as [i|] eqn:Hdot; [|injection Hsplit as <- <-; congruence].
  destruct ((0 <? i)%nat && (i <? List.length name - 1)%nat) eqn:Hcond;
    [|injection Hsplit as <- <-; congruence].
  injection Hsplit as <- <-.
  apply andb_true_iff in Hcond. destruct Hcond as [H0 H1].
  apply Nat.ltb_lt in H0, H1.
  assert (Hlen : List.length (firstn i name) = i) by (rewrite length_firstn; lia).
  unfold name_split.
  rewrite (app_assoc (firstn i name)), rfind_dot_app, (rfind_dot_skipn _ _ Hdot).
  assert (Hfront : List.length (firstn i name ++ chars "_mask") = (i + 5)%nat)
    by (rewrite length_app, Hlen; reflexivity).
  rewrite Hfront, Nat.add_0_r.
  assert (Hcond : (0 <? i + 5)%nat &&
                  (i + 5 <? List.length ((firstn i name ++ chars "_mask") ++ skipn i name) - 1)%nat
                  = true).
  { apply andb_true_iff. split; apply Nat.ltb_lt; [lia|].
    rewrite length_app, Hfront, length_skipn. lia. }
  rewrite Hcond. rewrite <- Hfront.
  rewrite firstn_app, Nat.sub_diag, firstn_all, app_nil_r.
  rewrite skipn_app, Nat.sub_diag, skipn_all. reflexivity.
Qed.

(** X24: the name [prepare] gives the copy of a mask is five characters
    longer than the name of the mask file, so it differs from it: an image
    and its mask of the same file name do not collide in the input
    directory.  When the mask file has a suffix, the new name has the same
    suffix, and its stem is the old stem followed by [_mask]. *)
Theorem mask_name_keeps_suffix (mask_file : string) :
  String.length (mask_name mask_file) = (String.length (path_name mask_file) + 5)%nat /\
  mask_name mask_file <> path_name mask_file /\
  (path_suffix mask_file <> "" ->
   name_split (chars (mask_name mask_file)) =
     (chars (path_stem mask_file +:+ "_mask"), chars (path_suffix mask_file))).
Proof.
  assert (Hlen : String.length (mask_name mask_file) =
                 (String.length (path_name mask_file) + 5)%nat).
  { rewrite <- (path_stem_suffix mask_file). unfold mask_name.
    rewrite <- !length_chars, !chars_app, !length_app. simpl. lia. }
  split; [exact Hlen|]. split.
  - intros Heq. rewrite Heq in Hlen. lia.
  - intros Hsuffix. unfold mask_name. rewrite path_stem_split in *.
    unfold path_suffix in *.
    destruct (name_split (chars (path_name mask_file))) as [stem suffix] eqn:Hsplit.
    cbn [fst snd] in *. rewrite !chars_app, !chars_text.
    apply (name_split_mask _ _ _ Hsplit).
    intros ->. apply Hsuffix. reflexivity.
Qed.

Lemma mask_name_keeps_suffix_witness :
  name_split (chars (mask_name "masks/a_001.tiff")) = (chars "a_001_mask", chars ".tiff").
Proof.
  apply (proj2 (proj2 (mask_name_keeps_suffix "masks/a_001.tiff"))).
  discriminate.
Defined.

(** *** The loop of [prepare] on the file system

    [os.symlink] and [shutil.copyfile] act on the file system and may raise
    (a link cannot be made under a name that exists, which raises a
    [FileExistsError]; a copy replaces what is there): they are kept
    abstract, as what they make of the file system and the exception they
    raise, if any.  The destination is [input_dir / name]. *)
Section Prepare.
Context {world : Type}.
Variable os_symlink : string -> string -> string -> world -> world * option exn.
Variable shutil_copyfile : string -> string -> string -> world -> world * option exn.

Variable use_symlinks : bool.
Variable input_dir : string.

Definition place (call : string * string) (w : world) : world * option exn :=
  if use_symlinks then os_symlink (fst call) input_dir (snd call) w
  else shutil_copyfile (fst call) input_dir (snd call) w.

(** [for img_file, mask_file in zip(img_files, mask_files)]: an exception
    leaves the loop. *)
Fixpoint place_pairs (pairs : list (string * string)) (w : world) : world * option exn :=
  match pairs with
  | [] => (w, None)
  | (img_file, mask_file) :: pairs' =>
      match place (img_file, path_name img_file) w with
      | (w1, Some e) => (w1, Some e)
      | (w1, None) =>
          match place (mask_file, mask_name mask_file) w1 with
          | (w2, Some e) => (w2, Some e)
          | (w2, None) => place_pairs pairs' w2
          end
      end
  end.

Definition prepare_loop (img_files mask_files : list string) (w : world)
    : world * option exn :=
  place_pairs (combine img_files mask_files) w.

(** Calls made one after the other, up to the first that raises. *)
Fixpoint run_calls (calls : list (string * string)) (w : world) : world * option exn :=
  match calls with
  | [] => (w, None)
  | call :: calls' =>
      match place call w with
      | (w1, Some e) => (w1, Some e)
      | (w1, None) => run_calls calls' w1
      end
  end.

Lemma place_pairs_run_calls (pairs : list (string * string)) :
  forall w,
  place_pairs pairs w =
  run_calls (flat_map (fun '(img_file, mask_file) =>
                         [(img_file, path_name img_file); (mask_file, mask_name mask_file)])
                      pairs) w.
Proof.
  induction pairs as [|[i m] pairs IH]; intros w; [reflexivity|].
  cbn [place_pairs flat_map app run_calls].
  destruct (place (i, path_name i) w) as [w1 [e|]]; [reflexivity|].
  destruct (place (m, mask_name m) w1) as [w2 [e|]]; [reflexivity|].
  apply IH.
Qed.

Lemma run_calls_app (l1 l2 : list (string * string)) :
  forall w,
  run_calls (l1 ++ l2) w =
  match run_calls l1 w with
  | (w1, Some e) => (w1, Some e)
  | (w1, None) => run_calls l2 w1
  end.
Proof.
  induction l1 as [|c l1 IH]; intros w; simpl; [reflexivity|].
  destruct (place c w) as [w1 [e|]]; [reflexivity | apply IH].
Qed.

(** X25: [prepare] goes through the image files and the mask files in
    pairs by position and leaves out the files without a partner.  Its loop
    makes, one after the other and up to the first that raises, the calls
    that place each image under its own name and then its mask under the
    name made for it: two calls for each pair when none raises.  A call
    that raises ends the loop with its exception, and the calls made before
    it have had their effect. *)
Theorem prepare_files_pairs (img_files mask_files : list string) :
  List.length (prepare_files img_files mask_files) =
    (2 * Nat.min (List.length img_files) (List.length mask_files))%nat /\
  (forall k img_file mask_file,
     nth_error img_files k = Some img_file ->
     nth_error mask_files k = Some mask_file ->
     nth_error (prepare_files img_files mask_files) (2 * k) =
       Some (img_file, path_name img_file) /\
     nth_error (prepare_files img_files mask_files) (2 * k + 1) =
       Some (mask_file, mask_name mask_file)) /\
  (forall w, prepare_loop img_files mask_files w =
             run_calls (prepare_files img_files mask_files) w) /\
  (forall w made call rest w1 e,
     prepare_files img_files mask_files = made ++ call :: rest ->
     run_calls made w = (w1, None) ->
     snd (place call w1) = Some e ->
     prepare_loop img_files mask_files w = (fst (place call w1), Some e)) /\
  (forall w,
     snd (prepare_loop img_files mask_files w) = None ->
     prepare_loop img_files mask_files w =
     (fold_left (fun w call => fst (place call w)) (prepare_files img_files mask_files) w,
      None)).
Proof.
  assert (Hloop : forall w, prepare_loop img_files mask_files w =
                            run_calls (prepare_files img_files mask_files) w)
    by (intros w; apply place_pairs_run_calls).
  split; [|split; [|split; [exact Hloop|split]]].
  - unfold prepare_files. rewrite <- length_combine.
    induction (combine img_files mask_files) as [|[i m] l IH]; simpl; [reflexivity|].
    rewrite IH. lia.
  - unfold prepare_files. clear Hloop. revert mask_files.
    induction img_files as [|i imgs IH]; intros [|m masks] k img mask Hi Hm;
      try (destruct k; discriminate).
    destruct k as [|k]; simpl in Hi, Hm.
    + injection Hi as <-. injection Hm as <-. split; reflexivity.
    + destruct (IH masks k img mask Hi Hm) as [H1 H2].
      replace (2 * S k)%nat with (S (S (2 * k))) by lia.
      replace (S (S (2 * k)) + 1)%nat with (S (S (2 * k + 1))) by lia.
      split; [exact H1 | exact H2].
  - intros w made call rest w1 e Hcalls Hmade Hraise.
    rewrite Hloop, Hcalls, run_calls_app, Hmade. cbn [run_calls].
    destruct (place call w1) as [w2 [e'|]]; simpl in Hraise; [|discriminate].
    injection Hraise as ->. reflexivity.
  - intros w. rewrite Hloop. generalize (prepare_files img_files mask_files).
    clear. intros calls. revert w.
    induction calls as [|c calls IH]; intros w; simpl; [reflexivity|].
    destruct (place c w) as [w1 [e|]] eqn:Hc; simpl; [discriminate|].
    intros H. rewrite (IH w1 H). reflexivity.
Qed.

End Prepare.

(** A directory that holds, under each name, the file copied or linked
    there; a link cannot be made under a name that exists (the
    [FileExistsError] is an [OSError]), a copy replaces what is there. *)
Definition demo_copyfile (src dir name : string) (d : gmap string string)
    : gmap string string * option exn :=
  (<[name := src]> d, None).

Definition demo_symlink (src dir name : string) (d : gmap string string)
    : gmap string string * option exn :=
  match d !! name with
  | Some _ => (d, Some IOError)
  | None => (<[name := src]> d, None)
  end.

(** The image [img/a_mask.tiff] and the mask of [img/a.tiff] go under the
    same name: copied, the mask replaces the image and three files are left
    for two pairs; linked, the fourth call raises. *)
Lemma prepare_files_pairs_witness :
  prepare_files ["img/a.tiff"; "img/a_mask.tiff"] ["masks/a.tiff"; "masks/a_mask.tiff"] =
    [("img/a.tiff", "a.tiff"); ("masks/a.tiff", "a_mask.tiff");
     ("img/a_mask.tiff", "a_mask.tiff"); ("masks/a_mask.tiff", "a_mask_mask.tiff")] /\
  prepare_loop demo_symlink demo_copyfile false "cp"
    ["img/a.tiff"; "img/a_mask.tiff"] ["masks/a.tiff"; "masks/a_mask.tiff"] ∅ =
    (<["a_mask_mask.tiff" := "masks/a_mask.tiff"]>
       (<["a_mask.tiff" := "img/a_mask.tiff"]>
          (<["a_mask.tiff" := "masks/a.tiff"]>
             (<["a.tiff" := "img/a.tiff"]> ∅))), None) /\
  prepare_loop demo_symlink demo_copyfile true "cp"
    ["img/a.tiff"; "img/a_mask.tiff"] ["masks/a.tiff"; "masks/a_mask.tiff"] ∅ =
    (<["a_mask.tiff" := "masks/a.tiff"]> (<["a.tiff" := "img/a.tiff"]> ∅), Some IOError).
Proof.
  split; [reflexivity|]. split.
  - apply (proj2 (proj2 (proj2 (proj2
             (prepare_files_pairs demo_symlink demo_copyfile false "cp"
                ["img/a.tiff"; "img/a_mask.tiff"] ["masks/a.tiff"; "masks/a_mask.tiff"]))))).
    reflexivity.
  - etransitivity.
    + apply (proj1 (proj2 (proj2 (proj2
               (prepare_files_pairs demo_symlink demo_copyfile true "cp"
                  ["img/a.tiff"; "img/a_mask.tiff"] ["masks/a.tiff"; "masks/a_mask.tiff"]))))
               ∅ [("img/a.tiff", "a.tiff"); ("masks/a.tiff", "a_mask.tiff")]
               ("img/a_mask.tiff", "a_mask.tiff") [("masks/a_mask.tiff", "a_mask_mask.tiff")]
               (<["a_mask.tiff" := "masks/a.tiff"]> (<["a.tiff" := "img/a.tiff"]> ∅)) IOError);
        reflexivity.
    + reflexivity.
Defined.

(** X26: the command line of [app] starts with the CellProfiler binary and
    the given arguments, and always names a plugins directory: the default
    one is appended exactly when no given argument starts with
    [--plugins-directory]. *)
Theorem app_args_plugins_directory (cellprofiler_args : list string) :
  existsb (String.prefix "--plugins-directory") (app_args cellprofiler_args) = true /\
  app_args cellprofiler_args =
    cellprofiler_binary :: cellprofiler_args ++
      (if existsb (String.prefix "--plugins-directory") cellprofiler_args
       then [] else ["--plugins-directory=/opt/cellprofiler_plugins"]).
Proof.
  unfold app_args. cbn [existsb].
  change (String.prefix "--plugins-directory" cellprofiler_binary) with false.
  cbn [orb].
  destruct (existsb (String.prefix "--plugins-directory") cellprofiler_args) eqn:E.
  - split; [cbn [existsb]; exact E | rewrite app_nil_r; reflexivity].
  - split; [|reflexivity].
    change (cellprofiler_binary :: cellprofiler_args) with ([cellprofiler_binary] ++ cellprofiler_args).
    rewrite !existsb_app. cbn. apply orb_true_r.
Qed.
